(** * JM-Aura: the components of [frontend/app.js]

    A shallow embedding of the [DescrambledImage] component: the
    segmentation rule [getSegmentationNum], the loader [loadImage] with its
    [onload]/[onerror] continuations, and the canvas reconstruction
    [cutImage]; and of methods of the root component: the favorites, the
    selection of chapters, the navigation of the reader, the tree of
    comments, the timers, the reading history and the confirmation dialog.

    Conventions of the embedding.
    - A JavaScript number that the component computes with is either [NaN] or
      an integer; it is embedded as [number].  [Int z] is exact for
      [|z| < 2^53], the range in which JavaScript integers are exact, and
      decimal printing is that of JavaScript below [10^21].
    - A JavaScript string is a [string]: a sequence of code units below 256.
    - [CryptoJS.MD5] is an external library; the digest is a parameter
      [calculateMD5 : string -> string] of the development. *)

From Stdlib Require Import ZArith Lia Bool Ascii String DecimalString DecimalZ DecimalPos.
From stdpp Require Import base list strings.
From stdpp Require Import countable gmap.

Local Open Scope Z_scope.

(** ** JavaScript primitives used by the component *)

Module JS.

(** Numbers: [NaN] or an integer. *)
Inductive number : Type :=
| NaN
| Int (z : Z).

(** The values a prop of the component may hold. *)
Inductive value : Type :=
| VUndefined
| VNull
| VNumber (n : number)
| VString (s : string).

(** [isNaN(n)] *)
Definition isNaN (n : number) : bool :=
  match n with NaN => true | Int _ => false end.

(** [!n]: a number is falsy when it is [NaN] or zero. *)
Definition falsy (n : number) : bool :=
  match n with NaN => true | Int z => z =? 0 end.

(** [a < b], [a <= b], [a > b]: false as soon as one side is [NaN]. *)
Definition lt (a b : number) : bool :=
  match a, b with Int x, Int y => x <? y | _, _ => false end.
Definition le (a b : number) : bool :=
  match a, b with Int x, Int y => x <=? y | _, _ => false end.
Definition gt (a b : number) : bool := lt b a.

(** [a % b]: the remainder has the sign of the dividend; [NaN] when the
    divisor is zero. *)
Definition rem (a b : number) : number :=
  match a, b with
  | Int x, Int y => if y =? 0 then NaN else Int (Z.rem x y)
  | _, _ => NaN
  end.
Definition mul (a b : number) : number :=
  match a, b with Int x, Int y => Int (x * y) | _, _ => NaN end.
Definition add (a b : number) : number :=
  match a, b with Int x, Int y => Int (x + y) | _, _ => NaN end.

(** [String(n)] for a number: decimal digits, with a leading minus sign for
    a negative integer.  JavaScript prints an exponent from [10^21] on;
    the statements that print a number and read it again are made for
    [safe_integer]s. *)
Definition Number_toString (n : number) : string :=
  match n with
  | NaN => "NaN"
  | Int z => NilZero.string_of_int (Z.to_int z)
  end.

(** [String(v)] *)
Definition ToString (v : value) : string :=
  match v with
  | VUndefined => "undefined"
  | VNull => "null"
  | VNumber n => Number_toString n
  | VString s => s
  end.

Definition code (c : ascii) : Z := Z.of_N (N_of_ascii c).

(** White space and line terminators skipped by [parseInt] (code units
    below 256). *)
Definition is_white (c : ascii) : bool :=
  let k := code c in
  ((9 <=? k) && (k <=? 13)) || (k =? 32) || (k =? 160).

Fixpoint trim_start (s : string) : string :=
  match s with
  | String c s' => if is_white c then trim_start s' else s
  | EmptyString => EmptyString
  end.

(** The value of a character as a digit in radix [R] (here 10 or 16). *)
Definition digit_of (R : Z) (c : ascii) : option Z :=
  let k := code c in
  let v :=
    if (48 <=? k) && (k <=? 57) then Some (k - 48)
    else if (97 <=? k) && (k <=? 122) then Some (k - 97 + 10)
    else if (65 <=? k) && (k <=? 90) then Some (k - 65 + 10)
    else None in
  match v with
  | Some d => if d <? R then Some d else None
  | None => None
  end.

(** The values of the longest prefix of [s] made of radix-[R] digits. *)
Fixpoint digits_prefix (R : Z) (s : string) : list Z :=
  match s with
  | String c s' =>
      match digit_of R c with
      | Some d => d :: digits_prefix R s'
      | None => []
      end
  | EmptyString => []
  end.

Definition mathInt (R : Z) (ds : list Z) : Z :=
  fold_left (fun acc d => acc * R + d) ds 0.

(** The optional sign in front of the digits. *)
Definition strip_sign (s : string) : Z * string :=
  match s with
  | String "-" r => (-1, r)
  | String "+" r => (1, r)
  | _ => (1, s)
  end.

(** The optional [0x] or [0X], which selects radix 16. *)
Definition strip_prefix (s : string) : Z * string :=
  match s with
  | String "0" (String "x" r) => (16, r)
  | String "0" (String "X" r) => (16, r)
  | _ => (10, s)
  end.

(** [parseInt(s)] for a string, with no radix argument: leading white
    space is skipped, then an optional sign, then an optional [0x]/[0X];
    the longest digit prefix is converted, and the result is [NaN] when
    that prefix is empty.  The conversion is exact; JavaScript rounds to
    the nearest double, which is the same number up to [2^53]. *)
Definition parseInt_string (s : string) : number :=
  let '(sign, s1) := strip_sign (trim_start s) in
  let '(R, s2) := strip_prefix s1 in
  match digits_prefix R s2 with
  | [] => NaN
  | ds => Int (sign * mathInt R ds)
  end.

(** [parseInt(v)]: the argument is converted with [String] first. *)
Definition parseInt (v : value) : number := parseInt_string (ToString v).

(** [s.length] *)
Definition length (s : string) : Z := Z.of_nat (String.length s).

(** [s.charCodeAt(pos)]: [NaN] outside of the string. *)
Definition charCodeAt (s : string) (pos : Z) : number :=
  if pos <? 0 then NaN
  else match String.get (Z.to_nat pos) s with
       | Some c => Int (code c)
       | None => NaN
       end.

(** [s.split(sep)] for a one-character separator. *)
Fixpoint split (sep : ascii) (s : string) : list string :=
  match s with
  | EmptyString => [EmptyString]
  | String c s' =>
      if Ascii.eqb c sep then EmptyString :: split sep s'
      else match split sep s' with
           | w :: ws => String c w :: ws
           | [] => [String c EmptyString]
           end
  end.

(** Lower-casing of the ASCII letters, the case folding of a regular
    expression with the [i] flag and without the [u] flag on code units
    below 128. *)
Definition to_lower (c : ascii) : ascii :=
  let k := code c in
  if (65 <=? k) && (k <=? 90) then ascii_of_N (Z.to_N (k + 32)) else c.

Fixpoint lower (s : string) : string :=
  match s with
  | EmptyString => EmptyString
  | String c s' => String (to_lower c) (lower s')
  end.

Fixpoint ends_with (suffix s : string) : bool :=
  String.eqb s suffix ||
  match s with
  | EmptyString => false
  | String _ s' => ends_with suffix s'
  end.

(** [/\.gif$/i.test(s)] *)
Definition test_gif (s : string) : bool := ends_with ".gif" (lower s).

End JS.

Import JS.

(** ** The segmentation rule *)

Section SegmentationRule.

(** [calculateMD5(inputStr)], that is [CryptoJS.MD5(inputStr).toString()]. *)
Variable calculateMD5 : string -> string.

(** [getSegmentationNum(epsId, scrambleId, pictureName)] *)
Definition getSegmentationNum (epsId scrambleId pictureName : value) : number :=
  let eid := parseInt epsId in
  let sid := parseInt scrambleId in
  let sid := if falsy sid || le sid (Int 0) then Int 220980 else sid in
  if isNaN eid then Int 0
  else if lt eid sid then Int 0
  else if lt eid (Int 268850) then Int 10
  else
    let hashData := calculateMD5 (ToString (VNumber eid) +:+ ToString pictureName) in
    let keyCode := charCodeAt hashData (JS.length hashData - 1) in
    if gt eid (Int 421926) then add (mul (rem keyCode (Int 8)) (Int 2)) (Int 2)
    else add (mul (rem keyCode (Int 10)) (Int 2)) (Int 2).

End SegmentationRule.

(** ** Decoded images and the canvas *)

Section Raster.

(** A full-width row of pixels. *)
Context {row : Type}.

(** A decoded [Image]: its natural width and its rows of pixels, top to
    bottom; the natural height is the number of rows. *)
Record Image : Type := {
  naturalWidth : nat;
  rows : list row
}.

Definition naturalHeight (image : Image) : Z :=
  Z.of_nat (List.length (rows image)).

(** The [canvas] element with its 2D context: a row of the bitmap is
    transparent ([None]) or holds a row of pixels drawn from an image. *)
Record Canvas : Type := {
  width : Z;
  height : Z;
  style_display : string;
  bitmap : list (option row)
}.

(** A canvas element as the template creates it: 300 by 150, hidden. *)
Definition new_canvas : Canvas :=
  {| width := 300; height := 150; style_display := "none";
     bitmap := replicate 150 None |}.

(** [canvas.width = w] and [canvas.height = h]: assigning a dimension
    resets the bitmap to transparent. *)
Definition set_width (w : Z) (c : Canvas) : Canvas :=
  {| width := w; height := height c; style_display := style_display c;
     bitmap := replicate (Z.to_nat (height c)) None |}.

Definition set_height (h : Z) (c : Canvas) : Canvas :=
  {| width := width c; height := h; style_display := style_display c;
     bitmap := replicate (Z.to_nat h) None |}.

Definition set_display (d : string) (c : Canvas) : Canvas :=
  {| width := width c; height := height c; style_display := d;
     bitmap := bitmap c |}.

Definition set_bitmap (bm : list (option row)) (c : Canvas) : Canvas :=
  {| width := width c; height := height c; style_display := style_display c;
     bitmap := bm |}.

(** [context.clearRect(0, 0, canvas.width, canvas.height)] *)
Definition clearRect (c : Canvas) : Canvas :=
  set_bitmap (replicate (List.length (bitmap c)) None) c.

Definition get_row (image : Image) (y : Z) : option row :=
  if y <? 0 then None else rows image !! Z.to_nat y.

Definition put_row (y : Z) (r : row) (bm : list (option row)) : list (option row) :=
  if y <? 0 then bm else <[Z.to_nat y := Some r]> bm.

(** [context.drawImage(image, 0, sy, width, sliceH, 0, dy, width, sliceH)]
    where [width] is the width of both the image and the canvas: the rows
    [sy .. sy + sliceH - 1] of the image are copied, unscaled, to the rows
    [dy ..] of the canvas.  Rows outside of the image or of the canvas are
    clipped. *)
Definition drawImage (image : Image) (sy sliceH dy : Z) (c : Canvas) : Canvas :=
  let copy (bm : list (option row)) (k : nat) :=
    match get_row image (sy + Z.of_nat k) with
    | Some r => put_row (dy + Z.of_nat k) r bm
    | None => bm
    end in
  set_bitmap (fold_left copy (seq 0 (Z.to_nat sliceH)) (bitmap c)) c.

(** The first loop of [cutImage]: the source blocks [[start, end]]. *)
Definition push_block (copyHeight rem sliceCount : Z)
    (st : list (Z * Z) * Z) (i : Z) : list (Z * Z) * Z :=
  let '(blocks, totalH) := st in
  let h := copyHeight * (i + 1) in
  let h := if i =? sliceCount - 1 then h + rem else h in
  (blocks ++ [(totalH, h)], h).

Definition build_blocks (height sliceCount : Z) : list (Z * Z) :=
  let rem := Z.rem height sliceCount in
  let copyHeight := height / sliceCount in
  fst (fold_left (push_block copyHeight rem sliceCount)
         (map Z.of_nat (seq 0 (Z.to_nat sliceCount))) ([], 0)).

(** The second loop of [cutImage]: the blocks are drawn from the last to
    the first, [destY] moving down by the height of each. *)
Definition draw_block (image : Image) (st : Z * Canvas) (b : Z * Z) : Z * Canvas :=
  let '(destY, c) := st in
  let start := fst b in
  let end_ := snd b in
  let sliceH := end_ - start in
  (destY + sliceH, drawImage image start sliceH destY c).

Definition draw_blocks (image : Image) (blocks : list (Z * Z)) (c : Canvas) : Canvas :=
  snd (fold_left (draw_block image) (rev blocks) (0, c)).

End Raster.

Arguments Image : clear implicits.
Arguments Canvas : clear implicits.

(** ** The component instance *)

Section Component.

Variable calculateMD5 : string -> string.
Context {row : Type}.

Inductive Observer : Type :=
| ObserverNull
| Observing
| Disconnected.

(** The props, the data and the [canvas] ref of one [DescrambledImage]. *)
Record Instance : Type := {
  src : string;
  comicId : value;
  scrambleId : value;
  page : string;
  loading : bool;
  needDescramble : bool;
  isVisible : bool;
  observer : Observer;
  loadToken : Z;
  canvas : option (Canvas row)
}.

Definition set_loading (b : bool) (this : Instance) : Instance :=
  {| src := src this; comicId := comicId this; scrambleId := scrambleId this;
     page := page this; loading := b; needDescramble := needDescramble this;
     isVisible := isVisible this; observer := observer this;
     loadToken := loadToken this; canvas := canvas this |}.

Definition set_needDescramble (b : bool) (this : Instance) : Instance :=
  {| src := src this; comicId := comicId this; scrambleId := scrambleId this;
     page := page this; loading := loading this; needDescramble := b;
     isVisible := isVisible this; observer := observer this;
     loadToken := loadToken this; canvas := canvas this |}.

Definition set_isVisible (b : bool) (this : Instance) : Instance :=
  {| src := src this; comicId := comicId this; scrambleId := scrambleId this;
     page := page this; loading := loading this;
     needDescramble := needDescramble this;
     isVisible := b; observer := observer this;
     loadToken := loadToken this; canvas := canvas this |}.

Definition set_observer (o : Observer) (this : Instance) : Instance :=
  {| src := src this; comicId := comicId this; scrambleId := scrambleId this;
     page := page this; loading := loading this;
     needDescramble := needDescramble this;
     isVisible := isVisible this; observer := o;
     loadToken := loadToken this; canvas := canvas this |}.

Definition set_loadToken (t : Z) (this : Instance) : Instance :=
  {| src := src this; comicId := comicId this; scrambleId := scrambleId this;
     page := page this; loading := loading this;
     needDescramble := needDescramble this;
     isVisible := isVisible this; observer := observer this;
     loadToken := t; canvas := canvas this |}.

Definition set_canvas (c : option (Canvas row)) (this : Instance) : Instance :=
  {| src := src this; comicId := comicId this; scrambleId := scrambleId this;
     page := page this; loading := loading this;
     needDescramble := needDescramble this;
     isVisible := isVisible this; observer := observer this;
     loadToken := loadToken this; canvas := c |}.

(** The parent re-renders the component with new props. *)
Definition set_props (src' : string) (comicId' scrambleId' : value) (page' : string)
    (this : Instance) : Instance :=
  {| src := src'; comicId := comicId'; scrambleId := scrambleId';
     page := page'; loading := loading this;
     needDescramble := needDescramble this;
     isVisible := isVisible this; observer := observer this;
     loadToken := loadToken this; canvas := canvas this |}.

(** [cutImage(image, sliceCount)] *)
Definition cutImage (image : Image row) (sliceCount : number) (this : Instance) : Instance :=
  match canvas this with
  | None => this
  | Some canvas =>
      let canvas := set_width (Z.of_nat (naturalWidth image)) canvas in
      let canvas := set_height (naturalHeight image) canvas in
      if falsy sliceCount || le sliceCount (Int 1) then set_canvas (Some canvas) this
      else
        match sliceCount with
        | NaN => set_canvas (Some canvas) this
        | Int n =>
            let canvas := clearRect canvas in
            let blocks := build_blocks (height canvas) n in
            let canvas := draw_blocks image blocks canvas in
            set_canvas (Some (set_display "block" canvas)) this
        end
  end.

(** What the continuations of one [loadImage] call have captured. *)
Record Attempt : Type := {
  myToken : Z;
  sliceCount : number;
  img_src : string
}.

(** The slice count that [loadImage] computes from the props. *)
Definition loadImage_sliceCount (this : Instance) : number :=
  let pageName :=
    match split "." (page this) !! 0%nat with
    | Some w => VString w
    | None => VUndefined
    end in
  let epsId := VNumber (parseInt (comicId this)) in
  let scrambleId := VNumber (parseInt (scrambleId this)) in
  getSegmentationNum calculateMD5 epsId scrambleId pageName.

(** [loadImage()], up to the point where the handlers are installed: the
    new state of the instance and, unless the call returned early, the
    attempt whose image is now loading. *)
Definition loadImage (this : Instance) : Instance * option Attempt :=
  let myToken := loadToken this + 1 in
  let this := set_loadToken myToken this in
  let this := set_loading true this in
  let this := set_needDescramble false this in
  let sliceCount := loadImage_sliceCount this in
  if le sliceCount (Int 1) || test_gif (page this) then
    (set_loading false this, None)
  else
    let this := set_needDescramble true this in
    (this, Some {| myToken := myToken; sliceCount := sliceCount;
                   img_src := src this |}).

(** [img.onload] *)
Definition onload (a : Attempt) (img : Image row) (this : Instance) : Instance :=
  if negb (myToken a =? loadToken this) then this
  else
    let this := cutImage img (sliceCount a) this in
    set_loading false this.

(** [img.onerror] *)
Definition onerror (a : Attempt) (this : Instance) : Instance :=
  if negb (myToken a =? loadToken this) then this
  else
    let this := set_needDescramble false this in
    set_loading false this.

(** The [img] element of the template is rendered when
    [!needDescramble && !loading && isVisible]: the decoded image is then
    shown as it is. *)
Definition shows_img (this : Instance) : bool :=
  negb (needDescramble this) && negb (loading this) && isVisible this.

(** *** The life of an instance

    The instance together with the image loads that have been started and
    have not completed yet. *)
Record System : Type := {
  inst : Instance;
  pending : list Attempt
}.

Inductive Event : Type :=
| Intersect (isIntersecting : bool)
| Update (src' : string) (comicId' scrambleId' : value) (page' : string)
| Load (i : nat) (img : Image row)
| Error (i : nat)
| Unmount.

(** The state after [data()] and [mounted()]. *)
Definition mount (src0 : string) (comicId0 scrambleId0 : value) (page0 : string) : System :=
  {| inst := {| src := src0; comicId := comicId0; scrambleId := scrambleId0;
                page := page0; loading := true; needDescramble := false;
                isVisible := false; observer := Observing; loadToken := 0;
                canvas := Some new_canvas |};
     pending := [] |}.

Definition start (s : System) (this : Instance) : System :=
  let '(this, a) := loadImage this in
  {| inst := this; pending := pending s ++ option_list a |}.

(** One turn of the event loop. [None] when the event cannot occur. *)
Definition dispatch (e : Event) (s : System) : option System :=
  match e with
  | Intersect isIntersecting =>
      match observer (inst s) with
      | Observing =>
          if isIntersecting then
            let s := start s (set_isVisible true (inst s)) in
            Some {| inst := set_observer Disconnected (inst s); pending := pending s |}
          else Some s
      | _ => None
      end
  | Update src' comicId' scrambleId' page' =>
      let this := set_props src' comicId' scrambleId' page' (inst s) in
      if String.eqb src' (src (inst s)) then Some {| inst := this; pending := pending s |}
      else if isVisible this then Some (start s this)
      else Some {| inst := this; pending := pending s |}
  | Load i img =>
      match pending s !! i with
      | Some a => Some {| inst := onload a img (inst s); pending := delete i (pending s) |}
      | None => None
      end
  | Error i =>
      match pending s !! i with
      | Some a => Some {| inst := onerror a (inst s); pending := delete i (pending s) |}
      | None => None
      end
  | Unmount =>
      let this := set_canvas None (inst s) in
      let this :=
        match observer this with
        | ObserverNull => this
        | _ => set_observer Disconnected this
        end in
      Some {| inst := this; pending := pending s |}
  end.

Fixpoint run (tr : list Event) (s : System) : option System :=
  match tr with
  | [] => Some s
  | e :: tr' =>
      match dispatch e s with
      | Some s' => run tr' s'
      | None => None
      end
  end.

End Component.

(** ** Notions of the specification *)

(** The normalized epoch: the supplied [scrambleId] when it parses to a
    positive number, the baseline [220980] otherwise. *)
Definition normalized_epoch (scrambleId : value) : Z :=
  match parseInt scrambleId with
  | Int k => if 0 <? k then k else 220980
  | NaN => 220980
  end.

(** The decimal string of an identifier. *)
Definition decimal (z : Z) : string := Number_toString (Int z).

(** The last character of a string, if any. *)
Fixpoint last_char (s : string) : option ascii :=
  match s with
  | EmptyString => None
  | String c EmptyString => Some c
  | String _ s' => last_char s'
  end.

(** The numeric value (0 to 15) of a hexadecimal character. *)
Definition hex_value (c : ascii) : option Z := digit_of 16 c.

Definition is_decimal_digit (c : ascii) : bool :=
  (48 <=? code c) && (code c <=? 57).

(** [c] does not occur in [s]. *)
Fixpoint free_of (c : ascii) (s : string) : bool :=
  match s with
  | EmptyString => true
  | String c' s' => negb (Ascii.eqb c' c) && free_of c s'
  end.

(** The digits of a decimal number, most significant first. *)
Fixpoint uint_digits (d : Decimal.uint) : list Z :=
  match d with
  | Decimal.Nil => []
  | Decimal.D0 l => 0 :: uint_digits l
  | Decimal.D1 l => 1 :: uint_digits l
  | Decimal.D2 l => 2 :: uint_digits l
  | Decimal.D3 l => 3 :: uint_digits l
  | Decimal.D4 l => 4 :: uint_digits l
  | Decimal.D5 l => 5 :: uint_digits l
  | Decimal.D6 l => 6 :: uint_digits l
  | Decimal.D7 l => 7 :: uint_digits l
  | Decimal.D8 l => 8 :: uint_digits l
  | Decimal.D9 l => 9 :: uint_digits l
  end.

(** The upper end of block [i] of [n] blocks over the height [H]. *)
Definition block_end (H n i : Z) : Z :=
  if i =? n - 1 then (H / n) * (i + 1) + Z.rem H n else (H / n) * (i + 1).

(** The sum of the heights of a list of blocks. *)
Definition sum_heights (blocks : list (Z * Z)) : Z :=
  foldr (fun b acc => (snd b - fst b) + acc) 0 blocks.

(** The rows of a block, in their order in the source. *)
Definition slice {row : Type} (rs : list row) (b : Z * Z) : list row :=
  take (Z.to_nat (snd b - fst b)) (drop (Z.to_nat (fst b)) rs).

(** The arguments [(sy, sliceH, dy)] of the successive [drawImage] calls of
    the second loop of [cutImage]. *)
Fixpoint draw_calls_from (destY : Z) (bs : list (Z * Z)) : list (Z * Z * Z) :=
  match bs with
  | [] => []
  | b :: bs' =>
      let sliceH := snd b - fst b in
      (fst b, sliceH, destY) :: draw_calls_from (destY + sliceH) bs'
  end.

Definition draw_calls (blocks : list (Z * Z)) : list (Z * Z * Z) :=
  draw_calls_from 0 (rev blocks).

Definition exec_call {row : Type} (image : Image row) (c : Canvas row)
    (call : Z * Z * Z) : Canvas row :=
  let '(sy, sliceH, dy) := call in drawImage image sy sliceH dy c.

(** Every load still in flight was started with a token that is at most
    the current one. *)
Definition tokens_bounded {row : Type} (s : @System row) : Prop :=
  forall i a, pending s !! i = Some a -> myToken a <= loadToken (inst s).

(** No two loads in flight were started with the same token. *)
Definition tokens_distinct {row : Type} (s : @System row) : Prop :=
  NoDup (myToken <$> pending s).

(** The states an instance can be in: those that a sequence of events leads
    to from the mounted component. *)
Definition reachable {row : Type} (calculateMD5 : string -> string)
    (s : @System row) : Prop :=
  exists src0 comicId0 scrambleId0 page0 tr,
    run calculateMD5 tr (mount src0 comicId0 scrambleId0 page0) = Some s.

(** A digest stub: every digest ends in the character [a], of value 10. *)
Definition stub_a (_ : string) : string := "d41d8cd98f00b204e9800998ecf8427a".

(** *** Sample data

    Rows are numbered: row [k] of a sample image is the number [k]. *)

(** A visible instance showing page [00001.webp] of album 500000. *)
Definition sample_instance : @Instance nat :=
  set_isVisible true (inst (mount "u1" (VString "500000") VUndefined "00001.webp")).

(** The first attempt, started by [loadImage] on [sample_instance]. *)
Definition sample_attempt1 : Attempt :=
  {| myToken := 1; sliceCount := Int 4; img_src := "u1" |}.

(** The second attempt, started after the props have changed to page
    [00002.webp]. *)
Definition sample_attempt2 : Attempt :=
  {| myToken := 2; sliceCount := Int 4; img_src := "u2" |}.

Definition sample_after1 : @Instance nat :=
  fst (loadImage stub_a sample_instance).

Definition sample_after2 : @Instance nat :=
  fst (loadImage stub_a
         (set_props "u2" (VString "500000") VUndefined "00002.webp" sample_after1)).

Definition sample_image (h : nat) : Image nat :=
  {| naturalWidth := 2; rows := seq 0 h |}.

(** The instance once it has come into view, its first load in flight. *)
Definition sample_system : @System nat :=
  {| inst := set_observer Disconnected sample_after1;
     pending := [sample_attempt1] |}.

(** ** Further notions: the life of an instance *)

(** Some load in flight holds the current token. *)
Definition has_current {row : Type} (s : @System row) : Prop :=
  exists i a, pending s !! i = Some a /\ myToken a = loadToken (inst s).

(** What holds of the visibility gate in every state: a visible instance
    has disconnected its observer; an instance that has not come into view
    is as [data()] and [mounted()] left it, but for its props, and for an
    unmount. *)
Definition gate_inv {row : Type} (s : @System row) : Prop :=
  if isVisible (inst s) then observer (inst s) = Disconnected
  else loadToken (inst s) = 0 /\ pending s = [] /\
       loading (inst s) = true /\ needDescramble (inst s) = false /\
       (canvas (inst s) = Some new_canvas \/ canvas (inst s) = None).

(** The spinner of a visible instance turns exactly while the load that
    holds the current token is in flight. *)
Definition spinner_inv {row : Type} (s : @System row) : Prop :=
  isVisible (inst s) = true ->
  (loading (inst s) = true <-> has_current s).

(** A slice count that [cutImage] acts on: an even number from 2 to 20. *)
Definition even_slices (n : number) : Prop :=
  exists k, 1 <= k <= 10 /\ n = Int (2 * k).

(** The rows that [cutImage] leaves on the canvas for [n] slices. *)
Definition reassemble {row : Type} (rs : list row) (n : Z) : list row :=
  concat (map (slice rs) (rev (build_blocks (Z.of_nat (List.length rs)) n))).

(** ** The root component: values and lists

    The methods of the root component are embedded as functions of the
    [data()] fields they read, giving the new value of the fields they
    write.  Identifiers taken from the server's JSON are [value]s. *)

(** [!!v]: the truthiness of a value. *)
Definition truthy (v : value) : bool :=
  match v with
  | VUndefined => false
  | VNull => false
  | VNumber n => negb (falsy n)
  | VString s => negb (String.eqb s EmptyString)
  end.

(** [a === b]: [NaN] is not equal to itself. *)
Definition strict_eq (a b : value) : bool :=
  match a, b with
  | VUndefined, VUndefined => true
  | VNull, VNull => true
  | VNumber (Int x), VNumber (Int y) => x =? y
  | VString s, VString t => String.eqb s t
  | _, _ => false
  end.

(** The comparison of [Array.prototype.includes]: as [===], but [NaN] is
    found. *)
Definition same_value_zero (a b : value) : bool :=
  match a, b with
  | VNumber NaN, VNumber NaN => true
  | _, _ => strict_eq a b
  end.

(** [v != null] *)
Definition not_nullish (v : value) : bool :=
  match v with
  | VUndefined => false
  | VNull => false
  | _ => true
  end.

(** [a || b] on values. *)
Definition or_else (a b : value) : value := if truthy a then a else b.

(** [l.findIndex(f)]: the first index at which [f] holds, or [-1]. *)
Fixpoint findIndex_from {A : Type} (f : A -> bool) (l : list A) (i : Z) : Z :=
  match l with
  | [] => -1
  | x :: l' => if f x then i else findIndex_from f l' (i + 1)
  end.

Definition findIndex {A : Type} (f : A -> bool) (l : list A) : Z :=
  findIndex_from f l 0.

(** [l.indexOf(v)] compares with [===]; [l.includes(v)] finds [NaN] too. *)
Definition indexOf (v : value) (l : list value) : Z :=
  findIndex (fun x => strict_eq x v) l.

Definition includes (v : value) (l : list value) : bool :=
  existsb (fun x => same_value_zero x v) l.

(** [l.splice(index, 1)]: a negative index counts from the end. *)
Definition splice1 {A : Type} (index : Z) (l : list A) : list A :=
  let len := Z.of_nat (List.length l) in
  let start := if index <? 0 then Z.max (len + index) 0 else Z.min index len in
  delete (Z.to_nat start) l.

Record Episode : Type := {
  ep_id : value;
  ep_title : value
}.

(** An album as the server describes it; [episode_list] may be missing. *)
Record Album : Type := {
  album_id : value;
  album_title : value;
  album_author : value;
  album_image : value;
  episode_list : option (list Episode)
}.

Record Favorite : Type := {
  fav_album_id : value;
  fav_title : value;
  fav_author : value;
  fav_image : value;
  fav_category : value
}.

Record Chapter : Type := {
  photo_id : value
}.

(** *** Favorites *)

(** [toggleFavorite(album)]: the new [favorites]. *)
Definition toggleFavorite (album : Album) (favorites : list Favorite) : list Favorite :=
  let index := findIndex (fun f => strict_eq (fav_album_id f) (album_id album)) favorites in
  if index =? -1 then
    favorites ++ [{| fav_album_id := album_id album;
                     fav_title := album_title album;
                     fav_author := album_author album;
                     fav_image := album_image album;
                     fav_category := VString "Favorite" |}]
  else splice1 index favorites.

(** [isFavorite(albumId)] *)
Definition isFavorite (albumId : value) (favorites : list Favorite) : bool :=
  existsb (fun f => strict_eq (fav_album_id f) albumId) favorites.

(** The number of entries of [favorites] for one album. *)
Definition fav_count (albumId : value) (favorites : list Favorite) : Z :=
  Z.of_nat (List.length
              (List.filter (fun f => strict_eq (fav_album_id f) albumId) favorites)).

(** *** Chapter selection *)

(** [isSelected(epId)] *)
Definition isSelected (epId : value) (selectedChapters : list value) : bool :=
  includes epId selectedChapters.

(** [handleChapterClick(ep)]: the new [selectedChapters], and the arguments
    of the [readChapter] call when the click opens the chapter. *)
Definition handleChapterClick (isSelectionMode : bool) (ep : Episode)
    (selectedChapters : list value) : list value * option (value * value) :=
  if isSelectionMode then
    let index := indexOf (ep_id ep) selectedChapters in
    if index =? -1 then (selectedChapters ++ [ep_id ep], None)
    else (splice1 index selectedChapters, None)
  else (selectedChapters, Some (ep_id ep, ep_title ep)).

(** [selectAll()]: the new [selectedChapters]. *)
Definition selectAll (selectedAlbum : option Album) (selectedChapters : list value)
    : list value :=
  match selectedAlbum with
  | Some album =>
      match episode_list album with
      | Some eps =>
          if Z.of_nat (List.length selectedChapters) =? Z.of_nat (List.length eps)
          then []
          else map ep_id eps
      | None => selectedChapters
      end
  | None => selectedChapters
  end.

(** [toggleSelectionMode()]: the new [isSelectionMode] and
    [selectedChapters]. *)
Definition toggleSelectionMode (isSelectionMode : bool) (selectedAlbum : option Album)
    : bool * list value :=
  let isSelectionMode := negb isSelectionMode in
  if negb isSelectionMode then (isSelectionMode, [])
  else
    let eps :=
      match selectedAlbum with
      | Some album => match episode_list album with Some eps => eps | None => [] end
      | None => []
      end in
    match eps with
    | [ep] =>
        if not_nullish (ep_id ep)
        then (isSelectionMode, [VString (ToString (ep_id ep))])
        else (isSelectionMode, [])
    | _ => (isSelectionMode, [])
    end.


(** *** Moving between chapters in the reader *)

(** [getReaderChapterIndex()] *)
Definition getReaderChapterIndex (selectedAlbum : option Album)
    (readingChapter : option Chapter) : Z :=
  match selectedAlbum, readingChapter with
  | Some album, Some chapter =>
      match episode_list album with
      | Some eps =>
          let id := ToString (or_else (photo_id chapter) (VString EmptyString)) in
          findIndex (fun ep => String.eqb (ToString (ep_id ep)) id) eps
      | None => -1
      end
  | _, _ => -1
  end.

(** [getReaderChapterCount()] *)
Definition getReaderChapterCount (selectedAlbum : option Album) : Z :=
  match selectedAlbum with
  | Some album =>
      match episode_list album with
      | Some eps => Z.of_nat (List.length eps)
      | None => 0
      end
  | None => 0
  end.

(** [canReadPrevChapter()] and [canReadNextChapter()] *)
Definition canReadPrevChapter (selectedAlbum : option Album)
    (readingChapter : option Chapter) : bool :=
  let idx := getReaderChapterIndex selectedAlbum readingChapter in
  0 <? idx.

Definition canReadNextChapter (selectedAlbum : option Album)
    (readingChapter : option Chapter) : bool :=
  let idx := getReaderChapterIndex selectedAlbum readingChapter in
  let total := getReaderChapterCount selectedAlbum in
  (0 <=? idx) && (idx <? total - 1).

(** [selectedAlbum.episode_list[i]] *)
Definition episode_at (selectedAlbum : option Album) (i : Z) : option Episode :=
  match selectedAlbum with
  | Some album =>
      match episode_list album with
      | Some eps => if i <? 0 then None else eps !! Z.to_nat i
      | None => None
      end
  | None => None
  end.

(** [readPrevChapter()] and [readNextChapter()]: the episode handed to
    [readChapter], if any. *)
Definition readPrevChapter (selectedAlbum : option Album)
    (readingChapter : option Chapter) : option Episode :=
  let idx := getReaderChapterIndex selectedAlbum readingChapter in
  if idx <=? 0 then None
  else episode_at selectedAlbum (idx - 1).

Definition readNextChapter (selectedAlbum : option Album)
    (readingChapter : option Chapter) : option Episode :=
  let idx := getReaderChapterIndex selectedAlbum readingChapter in
  let total := getReaderChapterCount selectedAlbum in
  if (idx <? 0) || (total - 1 <=? idx) then None
  else episode_at selectedAlbum (idx + 1).

(** *** The pages of comments *)

(** [Math.ceil(x / 20)] for an integer [x].  Below [2^53] the quotient of
    the doubles is off by less than [1/32] while the exact one is a
    multiple of [1/20], so that the ceiling of the one is that of the
    other; above, the ceiling of the code can be too small. *)
Definition ceil_div20 (x : Z) : Z := - ((- x) / 20).

(** [fetchComments]: the [totalPages] and the [commentTotal] computed from
    [data.total] and the length of [data.list]. *)
Definition comment_totalPages (data_total : value) : Z :=
  let total := parseInt (or_else data_total (VNumber (Int 0))) in
  Z.max 1 (ceil_div20 (match total with NaN => 0 | Int z => z end)).

Definition comment_total (data_total : value) (list_length : Z) : Z :=
  let total := parseInt (or_else data_total (VNumber (Int 0))) in
  match total with NaN => list_length | Int z => z end.

(** *** The tree of comments *)

#[global] Instance number_eq_dec : EqDecision number.
Proof. solve_decision. Defined.

#[global] Instance value_eq_dec : EqDecision value.
Proof. solve_decision. Defined.

#[global] Instance number_countable : Countable number :=
  inj_countable'
    (fun n => match n with NaN => None | Int z => Some z end)
    (fun o => match o with None => NaN | Some z => Int z end)
    (fun n => match n with NaN => eq_refl | Int _ => eq_refl end).

#[global] Instance value_countable : Countable value :=
  inj_countable'
    (fun v => match v with
              | VUndefined => inl (inl true)
              | VNull => inl (inl false)
              | VNumber n => inl (inr n)
              | VString s => inr s
              end)
    (fun x => match x with
              | inl (inl true) => VUndefined
              | inl (inl false) => VNull
              | inl (inr n) => VNumber n
              | inr s => VString s
              end)
    (fun v => match v with
              | VUndefined => eq_refl
              | VNull => eq_refl
              | VNumber _ => eq_refl
              | VString _ => eq_refl
              end).

(** A comment as the server sends it: an object whose fields hold values.
    The node built for it has the same fields, and a [children] array that
    the embedding keeps apart, in a map from the key of a node to the keys
    of its children: the nodes are shared between the tree, the map of
    nodes and [commentNodeById], and a node is known by its key. *)
Abbreviation Obj := (gmap string value).

(** [o.k] *)
Definition get_prop (o : Obj) (k : string) : value := default VUndefined (o !! k).

(** The first loop of [buildCommentTree]: [nodeMap] and [order].  An item
    of the list that is not an object is [None]. *)
Definition collect_step (st : gmap value Obj * list value) (raw : option Obj)
    : gmap value Obj * list value :=
  let '(nodeMap, order) := st in
  match raw with
  | None => st
  | Some raw =>
      let cid := get_prop raw "CID" in
      if negb (truthy cid) then st
      else
        match nodeMap !! cid with
        | None => (<[cid := delete "children" raw]> nodeMap, order ++ [cid])
        | Some existing =>
            (<[cid := delete "children" (raw ∪ existing)]> nodeMap, order)
        end
  end.

(** The second loop: [byId[String(k)] = v], the node being given by its
    key.  The map holds the properties that [byId] has of its own.  An
    assignment to [__proto__] stores none: it makes the node the prototype
    of [byId]. *)
Definition index_step (byId : gmap string value) (k : value) : gmap string value :=
  if String.eqb (ToString k) "__proto__" then byId
  else <[ToString k := k]> byId.

(** The children of a node, an empty array until one is pushed. *)
Definition children_of (children : gmap value (list value)) (p : value) : list value :=
  default [] (children !! p).

(** The test of the third loop: the comment hangs under its parent. *)
Definition has_parent (nodeMap : gmap value Obj) (n : Obj) : bool :=
  let pid := get_prop n "parent_CID" in
  truthy pid && negb (strict_eq pid (VString "0"))
  && match nodeMap !! pid with Some _ => true | None => false end.

(** The third loop: [roots] and the [children] arrays. *)
Definition attach_step (nodeMap : gmap value Obj)
    (st : list value * gmap value (list value)) (cid : value)
    : list value * gmap value (list value) :=
  let '(roots, children) := st in
  match nodeMap !! cid with
  | None => st
  | Some n =>
      if has_parent nodeMap n then
        let pid := get_prop n "parent_CID" in
        (roots, <[pid := children_of children pid ++ [cid]]> children)
      else (roots ++ [cid], children)
  end.

Record CommentTree : Type := {
  roots : list value;
  nodes : gmap value Obj;
  children : gmap value (list value);
  commentNodeById : gmap string value
}.

(** [buildCommentTree(list)]: the roots that it returns, with the nodes and
    their children, and the [commentNodeById] that it stores. *)
Definition buildCommentTree (items : list (option Obj)) : CommentTree :=
  let '(nodeMap, order) := fold_left collect_step items (∅, []) in
  let byId := fold_left index_step order ∅ in
  let '(roots, children) := fold_left (attach_step nodeMap) order ([], ∅) in
  {| roots := roots; nodes := nodeMap; children := children;
     commentNodeById := byId |}.

(** The keys of the comments in the order in which [buildCommentTree] first
    meets them. *)
Definition comment_order (items : list (option Obj)) : list value :=
  snd (fold_left collect_step items (∅, [])).

(** The parent that a node names. *)
Definition parent_of (t : CommentTree) (c : value) : value :=
  match nodes t !! c with
  | Some n => get_prop n "parent_CID"
  | None => VUndefined
  end.

(** The node hangs under the parent that it names. *)
Definition is_attached (t : CommentTree) (c : value) : bool :=
  match nodes t !! c with
  | Some n => has_parent (nodes t) n
  | None => false
  end.

(** Sample comments: [1] with the replies [2] and [3], [4] whose parent is
    not in the list, [5] that names itself as its parent. *)
Definition sample_comment (cid parent : string) : option Obj :=
  Some (<["CID" := VString cid]> (<["parent_CID" := VString parent]> ∅)).

Definition sample_comments : list (option Obj) :=
  [sample_comment "1" "0"; sample_comment "2" "1"; None;
   sample_comment "4" "9"; sample_comment "3" "1"; sample_comment "5" "5";
   sample_comment "2" "1"].

(** The comments that the tree shows: the roots, and the children of what
    it shows. *)
Inductive displayed (t : CommentTree) : value -> Prop :=
| displayed_root (r : value) :
    r ∈ roots t -> displayed t r
| displayed_child (p c : value) :
    displayed t p -> c ∈ children_of (children t) p -> displayed t c.

(** ** The timers of the root component

    The root component keeps two timers of the browser: the timeout that
    hides the controls of the reader, in [readerHideTimer], and the interval
    that polls the download task, in [downloadTaskPoller]; [showToast] and
    the failure of [readChapter] start timeouts that nobody keeps.  The
    browser gives every timer a fresh positive handle, the same pool serving
    [setTimeout] and [setInterval]; a timeout leaves the pool when it fires,
    an interval stays until it is cleared. *)
Inductive TimerKind :=
| HideReaderUi       (* the callback of [showReaderUiForAwhile] *)
| PollDownloadTask   (* the callback of [startDownloadTaskPolling] *)
| ClearToast         (* the callback of [showToast] *)
| BackToDetail.      (* the callback of the failure of [readChapter] *)

Definition repeating (k : TimerKind) : bool :=
  match k with PollDownloadTask => true | _ => false end.

Definition kind_eqb (k1 k2 : TimerKind) : bool :=
  match k1, k2 with
  | HideReaderUi, HideReaderUi | PollDownloadTask, PollDownloadTask
  | ClearToast, ClearToast | BackToDetail, BackToDetail => true
  | _, _ => false
  end.

(** The fields of [data()] that the timers touch, and the timers of the
    browser. *)
Record App := {
  globalMsg : string;
  showReaderControls : bool;
  showReaderSettings : bool;
  readerHideTimer : option Z;           (* [None] is [null] *)
  showDownloadTaskModal : bool;
  downloadTaskPoller : option Z;
  timers : list (Z * TimerKind);
  next_handle : Z }.

Definition set_globalMsg (m : string) (s : App) : App :=
  {| globalMsg := m; showReaderControls := showReaderControls s;
     showReaderSettings := showReaderSettings s; readerHideTimer := readerHideTimer s;
     showDownloadTaskModal := showDownloadTaskModal s;
     downloadTaskPoller := downloadTaskPoller s;
     timers := timers s; next_handle := next_handle s |}.

Definition set_showReaderControls (b : bool) (s : App) : App :=
  {| globalMsg := globalMsg s; showReaderControls := b;
     showReaderSettings := showReaderSettings s; readerHideTimer := readerHideTimer s;
     showDownloadTaskModal := showDownloadTaskModal s;
     downloadTaskPoller := downloadTaskPoller s;
     timers := timers s; next_handle := next_handle s |}.

Definition set_showReaderSettings (b : bool) (s : App) : App :=
  {| globalMsg := globalMsg s; showReaderControls := showReaderControls s;
     showReaderSettings := b; readerHideTimer := readerHideTimer s;
     showDownloadTaskModal := showDownloadTaskModal s;
     downloadTaskPoller := downloadTaskPoller s;
     timers := timers s; next_handle := next_handle s |}.

Definition set_readerHideTimer (h : option Z) (s : App) : App :=
  {| globalMsg := globalMsg s; showReaderControls := showReaderControls s;
     showReaderSettings := showReaderSettings s; readerHideTimer := h;
     showDownloadTaskModal := showDownloadTaskModal s;
     downloadTaskPoller := downloadTaskPoller s;
     timers := timers s; next_handle := next_handle s |}.

Definition set_showDownloadTaskModal (b : bool) (s : App) : App :=
  {| globalMsg := globalMsg s; showReaderControls := showReaderControls s;
     showReaderSettings := showReaderSettings s; readerHideTimer := readerHideTimer s;
     showDownloadTaskModal := b;
     downloadTaskPoller := downloadTaskPoller s;
     timers := timers s; next_handle := next_handle s |}.

Definition set_downloadTaskPoller (h : option Z) (s : App) : App :=
  {| globalMsg := globalMsg s; showReaderControls := showReaderControls s;
     showReaderSettings := showReaderSettings s; readerHideTimer := readerHideTimer s;
     showDownloadTaskModal := showDownloadTaskModal s;
     downloadTaskPoller := h;
     timers := timers s; next_handle := next_handle s |}.

Definition set_timers (ts : list (Z * TimerKind)) (n : Z) (s : App) : App :=
  {| globalMsg := globalMsg s; showReaderControls := showReaderControls s;
     showReaderSettings := showReaderSettings s; readerHideTimer := readerHideTimer s;
     showDownloadTaskModal := showDownloadTaskModal s;
     downloadTaskPoller := downloadTaskPoller s;
     timers := ts; next_handle := n |}.

(** [setTimeout] and [setInterval]: the handle, and the state with the new
    timer. *)
Definition setTimer (k : TimerKind) (s : App) : Z * App :=
  (next_handle s, set_timers (timers s ++ [(next_handle s, k)]) (next_handle s + 1) s).

(** [clearTimeout] and [clearInterval], which take any handle. *)
Definition clearTimer (h : Z) (s : App) : App :=
  set_timers (List.filter (fun t => negb (fst t =? h)) (timers s)) (next_handle s) s.

(** The state after [data()]. *)
Definition app_data : App :=
  {| globalMsg := ""; showReaderControls := true; showReaderSettings := false;
     readerHideTimer := None; showDownloadTaskModal := false;
     downloadTaskPoller := None; timers := []; next_handle := 1 |}.

Definition showToast (msg : string) (s : App) : App :=
  snd (setTimer ClearToast (set_globalMsg msg s)).

(** [if (this.readerHideTimer) { clearTimeout(...); this.readerHideTimer = null; }];
    a handle is truthy when it is not zero. *)
Definition drop_readerHideTimer (s : App) : App :=
  match readerHideTimer s with
  | Some h => if h =? 0 then s else set_readerHideTimer None (clearTimer h s)
  | None => s
  end.

Definition drop_downloadTaskPoller (s : App) : App :=
  match downloadTaskPoller s with
  | Some h => if h =? 0 then s else set_downloadTaskPoller None (clearTimer h s)
  | None => s
  end.

Definition showReaderUiForAwhile (s : App) : App :=
  let s := drop_readerHideTimer (set_showReaderControls true s) in
  let '(h, s) := setTimer HideReaderUi s in
  set_readerHideTimer (Some h) s.

Definition hideReaderUi (s : App) : App :=
  drop_readerHideTimer (set_showReaderControls false s).

Definition handleReaderClick (s : App) : App :=
  if showReaderSettings s then set_showReaderSettings false s
  else if showReaderControls s then hideReaderUi s
  else showReaderUiForAwhile s.

Definition closeDownloadTaskModal (s : App) : App :=
  drop_downloadTaskPoller (set_showDownloadTaskModal false s).

Definition startDownloadTaskPolling (s : App) : App :=
  let '(h, s) := setTimer PollDownloadTask (drop_downloadTaskPoller s) in
  set_downloadTaskPoller (Some h) s.

(** The end of [fetchDownloadTask] when the answer is good, [status] being
    the printed status of the task. *)
Definition fetchDownloadTask_done (status : string) (s : App) : App :=
  if (String.eqb status "completed" || String.eqb status "failed")%bool
  then drop_downloadTaskPoller s else s.

(** [beforeUnmount] of the root component. *)
Definition app_beforeUnmount (s : App) : App := drop_downloadTaskPoller s.

(** [readChapter] up to its request, and its two ends. *)
Definition readChapter_begin (s : App) : App :=
  drop_readerHideTimer (set_showReaderControls true s).

Definition readChapter_loaded (s : App) : App := showReaderUiForAwhile s.

Definition readChapter_failed (msg : string) (s : App) : App :=
  snd (setTimer BackToDetail (showToast msg s)).

(** What a timer does when it fires.  The poller starts a request, whose
    answer comes as [fetchDownloadTask_done]; the timeout of [readChapter]
    only changes the tab. *)
Definition callback (k : TimerKind) (s : App) : App :=
  match k with
  | HideReaderUi => set_readerHideTimer None (set_showReaderControls false s)
  | ClearToast => set_globalMsg "" s
  | PollDownloadTask | BackToDetail => s
  end.

Definition timer_kind (h : Z) (ts : list (Z * TimerKind)) : option TimerKind :=
  option_map snd (List.find (fun t => fst t =? h) ts).

(** The browser fires the timer [h]: nothing if it is not live. *)
Definition fire (h : Z) (s : App) : App :=
  match timer_kind h (timers s) with
  | None => s
  | Some k => callback k (if repeating k then s else clearTimer h s)
  end.

Inductive AppEvent :=
| EvShowToast (msg : string)
| EvReaderClick
| EvShowReaderUi
| EvHideReaderUi
| EvReadChapter
| EvChapterLoaded
| EvChapterFailed (msg : string)
| EvReaderSettings (b : bool)     (* an assignment to [showReaderSettings] *)
| EvDownloadSelected              (* [downloadSelected] shows the modal *)
| EvStartPolling
| EvCloseTaskModal
| EvTaskFetched (status : string)
| EvAppUnmount
| EvFire (h : Z).

Definition app_dispatch (s : App) (e : AppEvent) : App :=
  match e with
  | EvShowToast msg => showToast msg s
  | EvReaderClick => handleReaderClick s
  | EvShowReaderUi => showReaderUiForAwhile s
  | EvHideReaderUi => hideReaderUi s
  | EvReadChapter => readChapter_begin s
  | EvChapterLoaded => readChapter_loaded s
  | EvChapterFailed msg => readChapter_failed msg s
  | EvReaderSettings b => set_showReaderSettings b s
  | EvDownloadSelected => set_showDownloadTaskModal true s
  | EvStartPolling => startDownloadTaskPolling s
  | EvCloseTaskModal => closeDownloadTaskModal s
  | EvTaskFetched status => fetchDownloadTask_done status s
  | EvAppUnmount => app_beforeUnmount s
  | EvFire h => fire h s
  end.

Definition app_run (evs : list AppEvent) : App := fold_left app_dispatch evs app_data.

Definition app_reachable (s : App) : Prop := exists evs, app_run evs = s.

(** Every live timer has a positive handle that the browser has given, no
    two the same, and the live timers of the reader and of the poller are
    the ones that the component holds. *)
Definition timers_inv (s : App) : Prop :=
  0 < next_handle s /\
  (forall t, t ∈ timers s -> 0 < fst t < next_handle s) /\
  NoDup (map fst (timers s)) /\
  (forall h, (h, HideReaderUi) ∈ timers s <-> readerHideTimer s = Some h) /\
  (forall h, (h, PollDownloadTask) ∈ timers s <-> downloadTaskPoller s = Some h).

(** The controls of the reader are shown while their timer runs. *)
Definition shown_inv (s : App) : Prop :=
  is_Some (readerHideTimer s) -> showReaderControls s = true.

(** A chapter has been opened and loaded, a toast shown, and a download
    task is being polled. *)
Definition sample_app : App :=
  app_run [EvReadChapter; EvChapterLoaded; EvShowToast "Queuing download...";
           EvDownloadSelected; EvStartPolling].

(** *** The reading history

    [readingHistory] is an object keyed by the album id, which makes the
    key the printed id.  What [readChapter] stores in it is an object, and
    the model keeps to that: the values are entries.  A key that the object
    does not have of its own may still be found on [Object.prototype]. *)
Record HistoryEntry : Type := {
  h_photo_id : value;
  h_title : value;
  h_album_title : value;
  h_timestamp : Z
}.

(** The names that an object inherits from [Object.prototype]. *)
Definition object_prototype_keys : list string :=
  ["constructor"; "__defineGetter__"; "__defineSetter__"; "hasOwnProperty";
   "__lookupGetter__"; "__lookupSetter__"; "isPrototypeOf";
   "propertyIsEnumerable"; "toString"; "valueOf"; "__proto__";
   "toLocaleString"]%string.

(** What [this.readingHistory[albumId]] finds. *)
Inductive Slot : Type :=
| Own (e : HistoryEntry)
| Inherited            (* a member of [Object.prototype]: truthy, without fields *)
| Absent.              (* [undefined] *)

Definition history_get (readingHistory : gmap string HistoryEntry) (albumId : value)
    : Slot :=
  match readingHistory !! ToString albumId with
  | Some e => Own e
  | None =>
      if existsb (String.eqb (ToString albumId)) object_prototype_keys
      then Inherited else Absent
  end.

Definition slot_truthy (h : Slot) : bool :=
  match h with Absent => false | _ => true end.

(** [h.title] and [h.photo_id] *)
Definition slot_title (h : Slot) : value :=
  match h with Own e => h_title e | _ => VUndefined end.

Definition slot_photo_id (h : Slot) : value :=
  match h with Own e => h_photo_id e | _ => VUndefined end.

Definition getReadingButtonText (readingHistory : gmap string HistoryEntry)
    (albumId : value) : string :=
  let h := history_get readingHistory albumId in
  if slot_truthy h then "Continue Reading" else "Start Reading".

Definition getHistoryText (readingHistory : gmap string HistoryEntry)
    (albumId : value) : string :=
  let h := history_get readingHistory albumId in
  if slot_truthy h then "Last read: " ++ ToString (slot_title h) else "".

(** The part of [readChapter] that writes the history, [now] being
    [Date.now()].  Assigning to [__proto__] sets the prototype of the
    object, which the copy [{ ...this.readingHistory }] does not take
    along, unless the object has a property of that name of its own. *)
Definition readChapter_history (selectedAlbum : option Album) (photoId title : value)
    (now : Z) (readingHistory : gmap string HistoryEntry) : gmap string HistoryEntry :=
  match selectedAlbum with
  | None => readingHistory
  | Some album =>
      let key := ToString (album_id album) in
      match String.eqb key "__proto__", readingHistory !! key with
      | true, None => readingHistory
      | _, _ =>
          <[key := {| h_photo_id := photoId; h_title := title;
                      h_album_title := album_title album;
                      h_timestamp := now |}]> readingHistory
      end
  end.

(** What [startReading] does next. *)
Inductive ReaderAction : Type :=
| ReadChapter (photoId title : value)       (* [this.readChapter(photoId, title)] *)
| ShowToast (msg type : string).            (* [this.showToast(msg, type)] *)

(** The comparator that [startReading] gives to [sort]. *)
Definition compare_ids (a b : Episode) : Z :=
  match parseInt (ep_id a), parseInt (ep_id b) with
  | Int idA, Int idB => idA - idB
  | _, _ => 0
  end.

(** [Array.prototype.sort], a stable sort: with a comparator that is
    consistent its result is this one; with another the order is up to the
    engine. *)
Fixpoint insert_sorted {A : Type} (cmp : A -> A -> Z) (x : A) (l : list A) : list A :=
  match l with
  | [] => [x]
  | y :: l' => if cmp x y <=? 0 then x :: y :: l' else y :: insert_sorted cmp x l'
  end.

Definition Array_sort {A : Type} (cmp : A -> A -> Z) (l : list A) : list A :=
  foldr (insert_sorted cmp) [] l.

(** [startReading(album)]; [sorted] is as long as the list, so [sorted[0]]
    is an episode. *)
Definition startReading (readingHistory : gmap string HistoryEntry) (album : Album)
    : ReaderAction :=
  let h := history_get readingHistory (album_id album) in
  if slot_truthy h then ReadChapter (slot_photo_id h) (slot_title h)
  else
    match episode_list album with
    | Some (ep :: eps) =>
        let sorted := Array_sort compare_ids (ep :: eps) in
        let first := hd ep sorted in
        ReadChapter (ep_id first) (ep_title first)
    | _ => ShowToast "No chapters found" "error"
    end.

(** *** The confirmation dialog *)

(** The callbacks that [clearHistory] and [removeHistoryItem] hand to
    [askConfirm]. *)
Inductive ConfirmAction : Type :=
| ClearHistoryAction
| RemoveHistoryItemAction (aid : value).

Record Dialog : Type := {
  confirmTitle : string;
  confirmMessage : string;
  confirmCallback : option ConfirmAction;     (* [None] is [null] *)
  showConfirmModal : bool;
  readingHistory : gmap string HistoryEntry
}.

Definition askConfirm (title message : string) (callback : ConfirmAction) (d : Dialog)
    : Dialog :=
  {| confirmTitle := title; confirmMessage := message;
     confirmCallback := Some callback; showConfirmModal := true;
     readingHistory := readingHistory d |}.

(** The callback at work: the new history and the toast. *)
Definition run_callback (callback : ConfirmAction)
    (history : gmap string HistoryEntry) : gmap string HistoryEntry * string :=
  match callback with
  | ClearHistoryAction => (∅, "History cleared"%string)
  | RemoveHistoryItemAction aid => (delete (ToString aid) history, "Item removed"%string)
  end.

(** [handleConfirm(result)]: the new state and the toast, if any. *)
Definition handleConfirm (result : bool) (d : Dialog) : Dialog * option string :=
  let ran :=
    match result, confirmCallback d with
    | true, Some callback =>
        let '(history, msg) := run_callback callback (readingHistory d) in
        (history, Some msg)
    | _, _ => (readingHistory d, None)
    end in
  ({| confirmTitle := confirmTitle d; confirmMessage := confirmMessage d;
      confirmCallback := None; showConfirmModal := false;
      readingHistory := fst ran |}, snd ran).

Definition clearHistory (d : Dialog) : Dialog :=
  askConfirm "Clear History" "Are you sure you want to clear all reading history?"
    ClearHistoryAction d.

Definition removeHistoryItem (aid : value) (d : Dialog) : Dialog :=
  askConfirm "Remove Item" "Remove this comic from history?"
    (RemoveHistoryItemAction aid) d.

Definition sample_album : Album :=
  {| album_id := VNumber (Int 350234); album_title := VString "Album";
     album_author := VString "Author"; album_image := VString "";
     episode_list := Some [ {| ep_id := VString "350236"; ep_title := VString "2" |};
                            {| ep_id := VNumber (Int 350235); ep_title := VString "1" |};
                            {| ep_id := VString "350235"; ep_title := VString "1b" |} ] |}.

Definition sample_dialog : Dialog :=
  {| confirmTitle := ""; confirmMessage := ""; confirmCallback := None;
     showConfirmModal := false;
     readingHistory :=
       readChapter_history (Some sample_album) (VString "350236") (VString "2") 0 ∅ |}.

Definition sample_episode : Episode :=
  {| ep_id := VNumber (Int 350235); ep_title := VString "1" |}.

(** An album of one chapter. *)
Definition sample_single : Album :=
  {| album_id := VNumber (Int 350235); album_title := VString "Single";
     album_author := VString "Author"; album_image := VString "";
     episode_list := Some [sample_episode] |}.

Definition sample_chapter : Chapter := {| photo_id := VString "350235" |}.

(** A second copy of the comment [1], with a count of likes. *)
Definition sample_raw : Obj :=
  <["CID" := VString "1"]> (<["likes" := VNumber (Int 3)]> ∅).

(** The numbers on which the embedding is JavaScript itself: [NaN], and the
    integers that a double holds exactly and that are printed in full. *)
Definition safe_integer (n : number) : Prop :=
  match n with
  | NaN => True
  | Int z => - 2 ^ 53 < z < 2 ^ 53
  end.

(** How many times an id is in the selection. *)
Definition sel_count (epId : value) (selectedChapters : list value) : Z :=
  Z.of_nat (List.length (List.filter (fun x => strict_eq x epId) selectedChapters)).

(** ** The primitives at work *)

Example parseInt_examples :
  parseInt (VString "  42px") = Int 42 /\
  parseInt (VString "-0x1F") = Int (-31) /\
  parseInt (VString "+7") = Int 7 /\
  parseInt (VString "px") = NaN /\
  parseInt (VString "0x") = NaN /\
  parseInt VUndefined = NaN /\
  parseInt (VNumber NaN) = NaN /\
  parseInt (VNumber (Int (-1234))) = Int (-1234).
Proof. repeat split. Qed.

Example split_examples :
  split "." "foo.bar.jpg" = ["foo"; "bar"; "jpg"]%string /\
  split "." "00001" = ["00001"]%string /\
  split "." "" = [""]%string /\
  split "." ".hidden" = [""; "hidden"]%string.
Proof. repeat split. Qed.

Example test_gif_examples :
  test_gif "00001.gif" = true /\
  test_gif "00001.GiF" = true /\
  test_gif ".gif" = true /\
  test_gif "00001.gif.webp" = false /\
  test_gif "gif" = false.
Proof. repeat split. Qed.

Example charCodeAt_examples :
  charCodeAt "7a" 1 = Int 97 /\
  charCodeAt "7a" 0 = Int 55 /\
  charCodeAt "7a" 2 = NaN /\
  charCodeAt "" (-1) = NaN.
Proof. repeat split. Qed.

(** Scenarios A and B of the segmentation rule, and the slice count of a
    digest that ends in [a]. *)
Example getSegmentationNum_examples :
  getSegmentationNum stub_a (VString "200000") VUndefined (VString "00001") = Int 0 /\
  getSegmentationNum stub_a (VString "250000") VUndefined (VString "00001") = Int 10 /\
  getSegmentationNum stub_a (VString "300000") VUndefined (VString "00001") = Int 16 /\
  getSegmentationNum stub_a (VString "500000") VUndefined (VString "00001") = Int 4.
Proof. repeat split. Qed.

(** Scenario D: the blocks and the [drawImage] calls for 300 rows in 3
    slices; and blocks over a height below the slice count. *)
Example build_blocks_examples :
  build_blocks 300 3 = [(0, 100); (100, 200); (200, 300)] /\
  draw_calls (build_blocks 300 3) = [(200, 100, 0); (100, 100, 100); (0, 100, 200)] /\
  build_blocks 7 3 = [(0, 2); (2, 4); (4, 7)] /\
  build_blocks 2 3 = [(0, 0); (0, 0); (0, 2)].
Proof. repeat split. Qed.

(** A whole run: the instance comes into view, and the image of 6 rows
    loads; with 4 slices the canvas holds the rows 3, 4, 5, 2, 1, 0. *)
Example run_example :
  match run stub_a [Intersect true; Load 0%nat (sample_image 6)]
          (mount "u1" (VString "500000") VUndefined "00001.webp") with
  | Some s => option_map bitmap (canvas (inst s))
  | None => None
  end = Some [Some 3; Some 4; Some 5; Some 2; Some 1; Some 0]%nat.
Proof. reflexivity. Qed.

(** ** Parsing and printing of numbers *)

Section ParseInt.

Lemma digits_prefix_uint (d : Decimal.uint) :
  digits_prefix 10 (NilEmpty.string_of_uint d) = uint_digits d.
Proof.
  induction d; simpl; try reflexivity;
    (etransitivity; [ | apply f_equal; exact IHd ]); reflexivity.
Qed.

Lemma mathInt_acc_uint (d : Decimal.uint) (acc : positive) :
  fold_left (fun a k => a * 10 + k) (uint_digits d) (Z.pos acc)
  = Z.pos (Pos.of_uint_acc d acc).
Proof.
  revert acc. induction d; intros acc; simpl; try reflexivity;
    rewrite <- IHd; f_equal; lia.
Qed.

Lemma mathInt_uint (d : Decimal.uint) :
  mathInt 10 (uint_digits d) = Z.of_N (Pos.of_uint d).
Proof.
  unfold mathInt. induction d; simpl; try reflexivity;
    try (rewrite <- mathInt_acc_uint; reflexivity).
  exact IHd.
Qed.

Lemma trim_start_uint (d : Decimal.uint) :
  trim_start (NilEmpty.string_of_uint d) = NilEmpty.string_of_uint d.
Proof. destruct d; reflexivity. Qed.

Lemma strip_sign_uint (d : Decimal.uint) :
  strip_sign (NilEmpty.string_of_uint d) = (1, NilEmpty.string_of_uint d).
Proof. destruct d; reflexivity. Qed.

Lemma strip_prefix_uint (d : Decimal.uint) :
  strip_prefix (NilEmpty.string_of_uint d) = (10, NilEmpty.string_of_uint d).
Proof. destruct d as [|d|d|d|d|d|d|d|d|d|d]; try reflexivity; destruct d; reflexivity. Qed.

(** The digits of a non-empty decimal are parsed back as they are. *)
Lemma parse_digits_uint (sign : Z) (d : Decimal.uint) :
  d <> Decimal.Nil ->
  match digits_prefix 10 (NilEmpty.string_of_uint d) with
  | [] => NaN
  | ds => Int (sign * mathInt 10 ds)
  end = Int (sign * Z.of_N (Pos.of_uint d)).
Proof.
  intros Hd. rewrite digits_prefix_uint, <- mathInt_uint.
  destruct d; [congruence | reflexivity ..].
Qed.

Lemma parseInt_string_uint (d : Decimal.uint) :
  d <> Decimal.Nil ->
  parseInt_string (NilEmpty.string_of_uint d) = Int (Z.of_N (Pos.of_uint d)).
Proof.
  intros Hd. unfold parseInt_string.
  rewrite trim_start_uint, strip_sign_uint, strip_prefix_uint.
  rewrite (parse_digits_uint 1 d Hd). f_equal; lia.
Qed.

Lemma parseInt_string_neg_uint (d : Decimal.uint) :
  d <> Decimal.Nil ->
  parseInt_string (String "-" (NilEmpty.string_of_uint d))
  = Int (- Z.of_N (Pos.of_uint d)).
Proof.
  intros Hd. unfold parseInt_string.
  change (trim_start (String "-" (NilEmpty.string_of_uint d)))
    with (String "-" (NilEmpty.string_of_uint d)).
  change (strip_sign (String "-" (NilEmpty.string_of_uint d)))
    with (-1, NilEmpty.string_of_uint d).
  cbv beta iota. rewrite strip_prefix_uint.
  rewrite (parse_digits_uint (-1) d Hd). f_equal; lia.
Qed.

Lemma NilZero_string_of_uint_nonnil (d : Decimal.uint) :
  d <> Decimal.Nil -> NilZero.string_of_uint d = NilEmpty.string_of_uint d.
Proof. destruct d; [congruence | reflexivity ..]. Qed.

(** Printing an integer and parsing it again gives it back. *)
Lemma parseInt_decimal (z : Z) : parseInt_string (decimal z) = Int z.
Proof.
  unfold decimal, Number_toString.
  destruct z as [|p|p]; [reflexivity | | ]; simpl Z.to_int;
    unfold NilZero.string_of_int;
    pose proof (Unsigned.to_uint_nonnil p) as Hnn;
    pose proof (Unsigned.of_to p) as Hof;
    rewrite (NilZero_string_of_uint_nonnil _ Hnn).
  - rewrite (parseInt_string_uint _ Hnn), Hof. reflexivity.
  - rewrite (parseInt_string_neg_uint _ Hnn), Hof. reflexivity.
Qed.

(** [parseInt] of a number that is [NaN] or an integer is that number: so
    it is in the embedding, and in JavaScript below [10^21]. *)
Lemma parseInt_number (n : number) : parseInt (VNumber n) = n.
Proof.
  destruct n as [|z]; [reflexivity|]. apply parseInt_decimal.
Qed.

End ParseInt.

(** ** The segmentation rule: properties *)

Section SegmentationFacts.

Variable calculateMD5 : string -> string.

Lemma code_range (c : ascii) : 0 <= code c < 256.
Proof.
  unfold code. pose proof (N_ascii_bounded c). lia.
Qed.

Lemma get_length_last (c : ascii) (h : string) :
  String.get (String.length h) (String c h) = last_char (String c h).
Proof.
  revert c. induction h as [|c' h IH]; intros c; [reflexivity|].
  simpl String.length. change (String.get (S (String.length h)) (String c (String c' h)))
    with (String.get (String.length h) (String c' h)).
  rewrite IH. reflexivity.
Qed.

(** The key code read by [getSegmentationNum] is the code of the last
    character of the digest, and [NaN] when the digest is empty. *)
Lemma charCodeAt_last (h : string) :
  charCodeAt h (JS.length h - 1)
  = match last_char h with Some c => Int (code c) | None => NaN end.
Proof.
  unfold charCodeAt, JS.length. destruct h as [|c h]; [reflexivity|].
  simpl String.length.
  replace (Z.of_nat (S (String.length h)) - 1) with (Z.of_nat (String.length h)) by lia.
  destruct (Z.ltb_spec (Z.of_nat (String.length h)) 0) as [Hlt|_]; [lia|].
  rewrite Nat2Z.id, get_length_last.
  destruct (last_char (String c h)); reflexivity.
Qed.

(** The epoch that [getSegmentationNum] compares with is the normalized
    epoch. *)
Lemma sid_normalized (scrambleId : value) :
  (if falsy (parseInt scrambleId) || le (parseInt scrambleId) (Int 0)
   then Int 220980 else parseInt scrambleId)
  = Int (normalized_epoch scrambleId).
Proof.
  unfold normalized_epoch.
  destruct (parseInt scrambleId) as [|k]; [reflexivity|].
  unfold falsy, le.
  destruct (Z.eqb_spec k 0), (Z.leb_spec k 0), (Z.ltb_spec 0 k);
    simpl; try reflexivity; lia.
Qed.

Lemma normalized_epoch_pos (scrambleId : value) : 0 < normalized_epoch scrambleId.
Proof.
  unfold normalized_epoch. destruct (parseInt scrambleId) as [|k]; [lia|].
  destruct (Z.ltb_spec 0 k); lia.
Qed.

(** [getSegmentationNum] on an identifier that parses, by cases. *)
Lemma getSegmentationNum_parsed (epsId scrambleId pictureName : value) (z : Z) :
  parseInt epsId = Int z ->
  getSegmentationNum calculateMD5 epsId scrambleId pictureName
  = if z <? normalized_epoch scrambleId then Int 0
    else if z <? 268850 then Int 10
    else
      let keyCode :=
        match last_char (calculateMD5 (decimal z +:+ ToString pictureName)) with
        | Some c => Int (code c)
        | None => NaN
        end in
      if 421926 <? z then add (mul (rem keyCode (Int 8)) (Int 2)) (Int 2)
      else add (mul (rem keyCode (Int 10)) (Int 2)) (Int 2).
Proof.
  intros Hz. unfold getSegmentationNum. cbv zeta.
  rewrite (sid_normalized scrambleId), Hz, charCodeAt_last. reflexivity.
Qed.

Lemma slices_of_code (c : ascii) (m : Z) :
  0 < m ->
  add (mul (rem (Int (code c)) (Int m)) (Int 2)) (Int 2)
  = Int ((code c mod m) * 2 + 2).
Proof.
  intros Hm. unfold rem, mul, add.
  destruct (Z.eqb_spec m 0); [lia|].
  pose proof (code_range c).
  rewrite Z.rem_mod_nonneg by lia. reflexivity.
Qed.

Lemma mod8_shift (a b q : Z) : a = b + q * 8 -> a mod 8 = b mod 8.
Proof. intros ->. apply Z.mod_add. lia. Qed.

(** A hexadecimal digit that is a decimal digit has the code of its value
    plus 48; a letter has the code of its value plus 87 (lower case) or 55
    (upper case), both congruent to 7 modulo 8. *)
Lemma hex_value_code (c : ascii) (v : Z) :
  hex_value c = Some v ->
  0 <= v < 16 /\
  (if is_decimal_digit c then code c mod 8 = v mod 8
   else code c mod 8 = (v + 7) mod 8).
Proof.
  unfold hex_value, digit_of, is_decimal_digit.
  pose proof (code_range c) as Hc. set (k := code c) in *.
  destruct (Z.leb_spec 48 k), (Z.leb_spec k 57); simpl.
  2-4: destruct (Z.leb_spec 97 k), (Z.leb_spec k 122); simpl.
  3-5,7-9,11-13: destruct (Z.leb_spec 65 k), (Z.leb_spec k 90); simpl.
  all: try discriminate.
  all: match goal with
       | |- context [?d <? 16] => destruct (Z.ltb_spec d 16)
       end; try discriminate.
  all: intros [= <-]; split; try lia.
  all: first [ apply (mod8_shift _ _ 6); lia | apply (mod8_shift _ _ 10); lia ].
Qed.

(** C6. [getSegmentationNum] returns 0 when the identifier does not parse,
    and 0 when the parsed identifier is below the normalized epoch; the
    normalized epoch is the supplied [scrambleId] when that parses to a
    positive number and 220980 when it does not parse or parses to zero or
    to a negative number. *)
Theorem getSegmentationNum_zero (epsId scrambleId pictureName : value) :
  (parseInt epsId = NaN ->
   getSegmentationNum calculateMD5 epsId scrambleId pictureName = Int 0) /\
  (forall z, parseInt epsId = Int z -> z < normalized_epoch scrambleId ->
   getSegmentationNum calculateMD5 epsId scrambleId pictureName = Int 0) /\
  (forall k, parseInt scrambleId = Int k -> 0 < k ->
   normalized_epoch scrambleId = k) /\
  (parseInt scrambleId = NaN \/ (exists k, parseInt scrambleId = Int k /\ k <= 0) ->
   normalized_epoch scrambleId = 220980).
Proof.
  repeat split.
  - intros He. unfold getSegmentationNum. rewrite He. reflexivity.
  - intros z He Hlt. rewrite (getSegmentationNum_parsed _ _ _ _ He).
    destruct (Z.ltb_spec z (normalized_epoch scrambleId)); [reflexivity | lia].
  - intros k Hk Hpos. unfold normalized_epoch. rewrite Hk.
    destruct (Z.ltb_spec 0 k); [reflexivity | lia].
  - intros [Hn | (k & Hk & Hle)]; unfold normalized_epoch.
    + rewrite Hn. reflexivity.
    + rewrite Hk. destruct (Z.ltb_spec 0 k); [lia | reflexivity].
Qed.

(** C7. An identifier that parses to a number at or above the normalized
    epoch and below 268850 gives exactly 10, whatever the digest function;
    so does 250000 with the default epoch. *)
Theorem getSegmentationNum_ten (epsId scrambleId pictureName : value) (z : Z) :
  parseInt epsId = Int z ->
  normalized_epoch scrambleId <= z ->
  z < 268850 ->
  getSegmentationNum calculateMD5 epsId scrambleId pictureName = Int 10 /\
  getSegmentationNum calculateMD5 (VString "250000") VUndefined pictureName = Int 10.
Proof.
  intros He Hge Hlt. split; [|reflexivity].
  rewrite (getSegmentationNum_parsed _ _ _ _ He).
  destruct (Z.ltb_spec z (normalized_epoch scrambleId)); [lia|].
  destruct (Z.ltb_spec z 268850); [reflexivity | lia].
Qed.

(** C1, as the code has it. For an identifier that parses to a number at or
    above the normalized epoch and above 421926, the result is
    [(c mod 8) * 2 + 2] where [c] is the character code of the last
    character of the digest of the decimal identifier followed by the page
    base name.  When that character is a decimal digit of value [v] this
    is [(v mod 8) * 2 + 2]; when it is a letter of hexadecimal value [v] it
    is [((v + 7) mod 8) * 2 + 2]. *)
Theorem getSegmentationNum_high (epsId scrambleId pictureName : value)
    (z : Z) (c : ascii) :
  parseInt epsId = Int z ->
  normalized_epoch scrambleId <= z ->
  421926 < z ->
  last_char (calculateMD5 (decimal z +:+ ToString pictureName)) = Some c ->
  getSegmentationNum calculateMD5 epsId scrambleId pictureName
    = Int ((code c mod 8) * 2 + 2) /\
  (forall v, hex_value c = Some v ->
     getSegmentationNum calculateMD5 epsId scrambleId pictureName
     = if is_decimal_digit c then Int ((v mod 8) * 2 + 2)
       else Int (((v + 7) mod 8) * 2 + 2)).
Proof.
  intros He Hge Hhi Hc.
  assert (Hres : getSegmentationNum calculateMD5 epsId scrambleId pictureName
                 = Int ((code c mod 8) * 2 + 2)).
  { rewrite (getSegmentationNum_parsed _ _ _ _ He).
    destruct (Z.ltb_spec z (normalized_epoch scrambleId)); [lia|].
    destruct (Z.ltb_spec z 268850); [lia|].
    cbv zeta. rewrite Hc.
    destruct (Z.ltb_spec 421926 z); [|lia].
    apply slices_of_code. lia. }
  split; [exact Hres|].
  intros v Hv. rewrite Hres.
  destruct (hex_value_code c v Hv) as [_ Hmod].
  destruct (is_decimal_digit c); rewrite Hmod; reflexivity.
Qed.

(** C5. With a digest that is not the empty string, an identifier that
    parses to a number at or above the normalized epoch gives an even
    number from 2 to 20 when it lies in [268850, 421926], an even number
    from 2 to 16 when it is above 421926; and in both regions the result
    depends on the identifier and the page base name only: not on the
    form in which the identifier was written, nor on the epoch. *)
Theorem getSegmentationNum_range (epsId scrambleId pictureName : value) (z : Z) :
  parseInt epsId = Int z ->
  normalized_epoch scrambleId <= z ->
  268850 <= z ->
  calculateMD5 (decimal z +:+ ToString pictureName) <> EmptyString ->
  (z <= 421926 ->
   exists k, 1 <= k <= 10 /\
     getSegmentationNum calculateMD5 epsId scrambleId pictureName = Int (2 * k)) /\
  (421926 < z ->
   exists k, 1 <= k <= 8 /\
     getSegmentationNum calculateMD5 epsId scrambleId pictureName = Int (2 * k)) /\
  (forall epsId' scrambleId' pictureName',
     parseInt epsId' = Int z ->
     normalized_epoch scrambleId' <= z ->
     ToString pictureName' = ToString pictureName ->
     getSegmentationNum calculateMD5 epsId' scrambleId' pictureName'
     = getSegmentationNum calculateMD5 epsId scrambleId pictureName).
Proof.
  intros He Hge Hlo Hne.
  destruct (last_char (calculateMD5 (decimal z +:+ ToString pictureName)))
    as [c|] eqn:Hc.
  2:{ exfalso. apply Hne. revert Hc. clear.
      generalize (calculateMD5 (decimal z +:+ ToString pictureName)).
      induction s as [|a s IH]; [reflexivity|].
      simpl. destruct s; [discriminate|]. intros H. discriminate (IH H). }
  pose proof (code_range c) as Hcode.
  assert (Hparsed : forall e s p,
    parseInt e = Int z -> normalized_epoch s <= z ->
    ToString p = ToString pictureName ->
    getSegmentationNum calculateMD5 e s p
    = if 421926 <? z then Int ((code c mod 8) * 2 + 2)
      else Int ((code c mod 10) * 2 + 2)).
  { intros e s p Hz Hs Hp. rewrite (getSegmentationNum_parsed _ _ _ _ Hz).
    destruct (Z.ltb_spec z (normalized_epoch s)); [lia|].
    destruct (Z.ltb_spec z 268850); [lia|].
    cbv zeta. rewrite Hp, Hc.
    destruct (421926 <? z); apply slices_of_code; lia. }
  repeat split.
  - intros Hhi. exists (code c mod 10 + 1).
    pose proof (Z.mod_pos_bound (code c) 10 ltac:(lia)).
    split; [lia|]. rewrite (Hparsed _ _ _ He Hge eq_refl).
    destruct (Z.ltb_spec 421926 z); [lia|]. f_equal. lia.
  - intros Hhi. exists (code c mod 8 + 1).
    pose proof (Z.mod_pos_bound (code c) 8 ltac:(lia)).
    split; [lia|]. rewrite (Hparsed _ _ _ He Hge eq_refl).
    destruct (Z.ltb_spec 421926 z); [|lia]. f_equal. lia.
  - intros e' s' p' He' Hs' Hp'.
    rewrite (Hparsed _ _ _ He' Hs' Hp'), (Hparsed _ _ _ He Hge eq_refl).
    reflexivity.
Qed.

End SegmentationFacts.

(** C6 at concrete inputs: an identifier that does not parse, an identifier
    below the default epoch, a supplied epoch, and the substitutes for an
    absent, a non-numeric, a zero and a negative epoch. *)
Lemma getSegmentationNum_zero_witness :
  getSegmentationNum stub_a (VString "abc") VUndefined (VString "00001") = Int 0 /\
  getSegmentationNum stub_a (VString "200000") VUndefined (VString "00001") = Int 0 /\
  normalized_epoch (VString "300000") = 300000 /\
  normalized_epoch VUndefined = 220980 /\
  normalized_epoch (VString "none") = 220980 /\
  normalized_epoch (VString "0") = 220980 /\
  normalized_epoch (VString "-5") = 220980.
Proof.
  split; [|split; [|split; [|split; [|split; [|split]]]]].
  - apply (proj1 (getSegmentationNum_zero stub_a (VString "abc") VUndefined
                    (VString "00001"))).
    reflexivity.
  - apply (proj1 (proj2 (getSegmentationNum_zero stub_a (VString "200000") VUndefined
                           (VString "00001"))) 200000).
    + reflexivity.
    + vm_compute. reflexivity.
  - apply (proj1 (proj2 (proj2 (getSegmentationNum_zero stub_a VUndefined
                                  (VString "300000") VUndefined))) 300000).
    + reflexivity.
    + lia.
  - apply (proj2 (proj2 (proj2 (getSegmentationNum_zero stub_a VUndefined
                                  VUndefined VUndefined)))).
    left. reflexivity.
  - apply (proj2 (proj2 (proj2 (getSegmentationNum_zero stub_a VUndefined
                                  (VString "none") VUndefined)))).
    left. reflexivity.
  - apply (proj2 (proj2 (proj2 (getSegmentationNum_zero stub_a VUndefined
                                  (VString "0") VUndefined)))).
    right. exists 0. split; [reflexivity | lia].
  - apply (proj2 (proj2 (proj2 (getSegmentationNum_zero stub_a VUndefined
                                  (VString "-5") VUndefined)))).
    right. exists (-5). split; [reflexivity | lia].
Defined.

(** C7 at a concrete input: 250000 with the default epoch. *)
Lemma getSegmentationNum_ten_witness :
  getSegmentationNum stub_a (VNumber (Int 250000)) VUndefined (VString "00001") = Int 10.
Proof.
  apply (getSegmentationNum_ten stub_a (VNumber (Int 250000)) VUndefined
           (VString "00001") 250000).
  - reflexivity.
  - vm_compute. discriminate.
  - lia.
Defined.

(** C1 as stated fails: with a digest whose last character is [a], of
    hexadecimal value 10, and the identifier 500000, the result is 4 and not
    [(10 mod 8) * 2 + 2 = 6]. *)
Lemma getSegmentationNum_high_counterexample :
  parseInt (VString "500000") = Int 500000 /\
  normalized_epoch VUndefined <= 500000 /\
  421926 < 500000 /\
  (exists c, last_char (stub_a (decimal 500000 +:+ "00001")) = Some c /\
             hex_value c = Some 10) /\
  getSegmentationNum stub_a (VString "500000") VUndefined (VString "00001") = Int 4 /\
  getSegmentationNum stub_a (VString "500000") VUndefined (VString "00001")
    <> Int ((10 mod 8) * 2 + 2).
Proof.
  split; [reflexivity|]. split; [vm_compute; discriminate|]. split; [lia|].
  split; [exists "a"%char; split; reflexivity|].
  split; [reflexivity | vm_compute; discriminate].
Qed.

(** C1 as amended, at the input of the scenario: the last character [a] has
    code 97, and the result is [(97 mod 8) * 2 + 2 = 4]. *)
Lemma getSegmentationNum_high_witness :
  getSegmentationNum stub_a (VString "500000") VUndefined (VString "00001")
  = Int ((code "a" mod 8) * 2 + 2).
Proof.
  apply (getSegmentationNum_high stub_a (VString "500000") VUndefined
           (VString "00001") 500000 "a"%char).
  - reflexivity.
  - vm_compute. discriminate.
  - lia.
  - reflexivity.
Defined.

(** C5 at concrete inputs: 300000 in the middle region. *)
Lemma getSegmentationNum_range_witness :
  exists k, 1 <= k <= 10 /\
    getSegmentationNum stub_a (VString "300000") VUndefined (VString "00001")
    = Int (2 * k).
Proof.
  apply (getSegmentationNum_range stub_a (VString "300000") VUndefined
           (VString "00001") 300000).
  - reflexivity.
  - vm_compute. discriminate.
  - lia.
  - discriminate.
  - lia.
Defined.

(** ** The source blocks of [cutImage] *)

Lemma sum_heights_app (l1 l2 : list (Z * Z)) :
  sum_heights (l1 ++ l2) = sum_heights l1 + sum_heights l2.
Proof.
  unfold sum_heights. induction l1 as [|b l1 IH]; simpl; [reflexivity|].
  rewrite IH. lia.
Qed.

Section Blocks.

Variables (H n : Z).
Hypothesis Hn : 2 <= n.
Hypothesis HH : 0 <= H.

Local Abbreviation base := (H / n).
Local Abbreviation end_of := (block_end H n).

Lemma base_nonneg : 0 <= base.
Proof. apply Z.div_pos; lia. Qed.

Lemma end_of_last : end_of (n - 1) = H.
Proof.
  unfold block_end. rewrite Z.eqb_refl, Z.rem_mod_nonneg by lia.
  replace (n - 1 + 1) with n by lia.
  pose proof (Z.div_mod H n ltac:(lia)). lia.
Qed.

Lemma end_of_inner (i : Z) : i <> n - 1 -> end_of i = base * (i + 1).
Proof.
  intros Hi. unfold block_end. destruct (Z.eqb_spec i (n - 1)); [lia | reflexivity].
Qed.

(** The invariant of the first loop after [k] iterations. *)
Lemma push_block_fold (k : nat) :
  (k <= Z.to_nat n)%nat ->
  fold_left (push_block base (Z.rem H n) n) (map Z.of_nat (seq 0 k)) ([], 0)
  = (map (fun i => (base * i, end_of i)) (map Z.of_nat (seq 0 k)),
     match k with O => 0 | S k' => end_of (Z.of_nat k') end).
Proof.
  induction k as [|k IH]; intros Hk; [reflexivity|].
  rewrite seq_S, !map_app, fold_left_app, IH by lia.
  simpl. f_equal. f_equal. f_equal. f_equal.
  destruct k as [|k']; [lia|].
  rewrite end_of_inner by lia. f_equal. lia.
Qed.

Lemma build_blocks_eq :
  build_blocks H n
  = map (fun i => (base * i, end_of i)) (map Z.of_nat (seq 0 (Z.to_nat n))).
Proof.
  unfold build_blocks. cbv zeta.
  rewrite push_block_fold by lia. reflexivity.
Qed.

Lemma build_blocks_length : List.length (build_blocks H n) = Z.to_nat n.
Proof. rewrite build_blocks_eq, !length_map, length_seq. reflexivity. Qed.

Lemma build_blocks_lookup (i : nat) :
  (i < Z.to_nat n)%nat ->
  build_blocks H n !! i = Some (base * Z.of_nat i, end_of (Z.of_nat i)).
Proof.
  intros Hi. rewrite build_blocks_eq, !list_lookup_fmap, lookup_seq_lt by lia.
  reflexivity.
Qed.

Lemma sum_heights_prefix (k : nat) :
  (k <= Z.to_nat n)%nat ->
  sum_heights (map (fun i => (base * i, end_of i)) (map Z.of_nat (seq 0 k)))
  = match k with O => 0 | S k' => end_of (Z.of_nat k') end.
Proof.
  induction k as [|k IH]; intros Hk; [reflexivity|].
  rewrite seq_S, !map_app, sum_heights_app, IH by lia.
  simpl. destruct k as [|k']; [lia|].
  rewrite (end_of_inner (Z.of_nat k')) by lia. lia.
Qed.

Lemma end_of_bound (i : Z) : 0 <= i < n -> base * (i + 1) <= H.
Proof.
  intros Hi. pose proof base_nonneg as Hb.
  pose proof (Z.div_mod H n ltac:(lia)) as E.
  pose proof (Z.mod_pos_bound H n ltac:(lia)). nia.
Qed.

Lemma build_blocks_bounds (i : nat) (b : Z * Z) :
  build_blocks H n !! i = Some b -> 0 <= fst b /\ fst b <= snd b /\ snd b <= H.
Proof.
  intros Hi. pose proof base_nonneg as Hb.
  assert (Hlt : (i < Z.to_nat n)%nat).
  { apply lookup_lt_Some in Hi. rewrite build_blocks_length in Hi. exact Hi. }
  rewrite build_blocks_lookup in Hi by exact Hlt.
  injection Hi as <-. simpl.
  destruct (Z.eq_dec (Z.of_nat i) (n - 1)) as [E|E].
  - rewrite E, end_of_last. pose proof (end_of_bound (n - 2) ltac:(lia)) as Hbd.
    replace (n - 2 + 1) with (n - 1) in Hbd by lia. nia.
  - rewrite end_of_inner by exact E.
    pose proof (end_of_bound (Z.of_nat i) ltac:(lia)). nia.
Qed.

Lemma build_blocks_contiguous (i : nat) (b b' : Z * Z) :
  build_blocks H n !! i = Some b -> build_blocks H n !! S i = Some b' ->
  fst b' = snd b.
Proof.
  intros Hi Hi'.
  assert (Hlt : (S i < Z.to_nat n)%nat).
  { apply lookup_lt_Some in Hi'. rewrite build_blocks_length in Hi'. exact Hi'. }
  rewrite build_blocks_lookup in Hi, Hi' by lia.
  injection Hi as <-. injection Hi' as <-. simpl.
  rewrite end_of_inner by lia. f_equal. lia.
Qed.

Lemma build_blocks_sum : sum_heights (build_blocks H n) = H.
Proof.
  rewrite build_blocks_eq, sum_heights_prefix by lia.
  destruct (Z.to_nat n) as [|k'] eqn:E; [lia|].
  replace (Z.of_nat k') with (n - 1) by lia. apply end_of_last.
Qed.

(** C3. For [n >= 2] slices and a height [H >= 0], the first loop of
    [cutImage] builds exactly [n] blocks; block [i] is
    [[base * i, base * (i + 1))] for [i < n - 1] and the last block is
    [[base * (n - 1), H)], with [base = floor (H / n)]; every block has a
    non-negative height and lies within [[0, H]], each block starts where
    the previous one ends, and the heights add up to [H]. *)
Theorem build_blocks_partition :
  List.length (build_blocks H n) = Z.to_nat n /\
  (forall i, 0 <= i < n - 1 ->
     build_blocks H n !! Z.to_nat i = Some ((H / n) * i, (H / n) * (i + 1))) /\
  build_blocks H n !! Z.to_nat (n - 1) = Some ((H / n) * (n - 1), H) /\
  (forall i b, build_blocks H n !! i = Some b ->
     0 <= fst b /\ fst b <= snd b /\ snd b <= H) /\
  (forall i b b', build_blocks H n !! i = Some b ->
     build_blocks H n !! S i = Some b' -> fst b' = snd b) /\
  sum_heights (build_blocks H n) = H.
Proof.
  split; [exact build_blocks_length|].
  split.
  { intros i Hi. rewrite build_blocks_lookup by lia.
    rewrite Z2Nat.id, end_of_inner by lia. reflexivity. }
  split.
  { rewrite build_blocks_lookup by lia.
    rewrite Z2Nat.id, end_of_last by lia. reflexivity. }
  split; [exact build_blocks_bounds|].
  split; [exact build_blocks_contiguous | exact build_blocks_sum].
Qed.

End Blocks.

(** C3 at concrete inputs: a height that is not a multiple of the slice
    count, and a height below the slice count. *)
Lemma build_blocks_partition_witness :
  build_blocks 7 3 = [(0, 2); (2, 4); (4, 7)] /\
  sum_heights (build_blocks 7 3) = 7 /\
  build_blocks 2 3 = [(0, 0); (0, 0); (0, 2)] /\
  sum_heights (build_blocks 2 3) = 2.
Proof.
  split; [reflexivity|]. split.
  - apply (build_blocks_partition 7 3); lia.
  - split; [reflexivity|]. apply (build_blocks_partition 2 3); lia.
Defined.

(** ** The reconstruction *)

Section Reconstruct.

Context {row : Type}.
Implicit Types (image : Image row) (c : Canvas row) (bm : list (option row)).

(** The second loop performs the calls of [draw_calls], in that order. *)
Lemma draw_block_fold image (bs : list (Z * Z)) (destY : Z) c :
  snd (fold_left (draw_block image) bs (destY, c))
  = fold_left (exec_call image) (draw_calls_from destY bs) c.
Proof.
  revert destY c. induction bs as [|b bs IH]; intros destY c; [reflexivity|].
  simpl. apply IH.
Qed.

Lemma draw_blocks_calls image (blocks : list (Z * Z)) c :
  draw_blocks image blocks c = fold_left (exec_call image) (draw_calls blocks) c.
Proof. apply draw_block_fold. Qed.

(** Copying [k] rows over a transparent or stale band of the bitmap. *)
Lemma copy_rows image (sy dy : Z) (pre mid post : list (option row)) (k : nat) :
  0 <= sy -> dy = Z.of_nat (List.length pre) ->
  (k <= List.length mid)%nat ->
  (Z.to_nat sy + k <= List.length (rows image))%nat ->
  fold_left (fun bm (j : nat) =>
               match get_row image (sy + Z.of_nat j) with
               | Some r => put_row (dy + Z.of_nat j) r bm
               | None => bm
               end) (seq 0 k) (pre ++ mid ++ post)
  = pre ++ (Some <$> take k (drop (Z.to_nat sy) (rows image))) ++ drop k mid ++ post.
Proof.
  intros Hsy Hdy. induction k as [|k IH]; intros Hk Hrows.
  - reflexivity.
  - rewrite seq_S, fold_left_app, IH by lia. simpl.
    unfold get_row, put_row.
    destruct (Z.ltb_spec (sy + Z.of_nat k) 0) as [Hneg|_]; [lia|].
    destruct (Z.ltb_spec (dy + Z.of_nat k) 0) as [Hneg|_]; [lia|].
    replace (Z.to_nat (sy + Z.of_nat k)) with (Z.to_nat sy + k)%nat by lia.
    replace (Z.to_nat (dy + Z.of_nat k)) with (List.length pre + k)%nat by lia.
    destruct (lookup_lt_is_Some_2 (rows image) (Z.to_nat sy + k)%nat ltac:(lia))
      as [r Hr].
    rewrite Hr.
    assert (Hlen : List.length (Some <$> take k (drop (Z.to_nat sy) (rows image))) = k).
    { rewrite length_fmap, length_take, length_drop. lia. }
    rewrite insert_app_r_alt by lia.
    replace (List.length pre + k - List.length pre)%nat with k by lia.
    rewrite insert_app_r_alt by lia.
    rewrite Hlen. replace (k - k)%nat with 0%nat by lia.
    destruct (lookup_lt_is_Some_2 mid k ltac:(lia)) as [m Hm].
    rewrite (drop_S mid m k Hm). simpl.
    rewrite (take_S_r _ _ r) by (rewrite lookup_drop; exact Hr).
    rewrite fmap_app. simpl. rewrite <- app_assoc. reflexivity.
Qed.

(** One [drawImage] call of [cutImage] replaces a band of the bitmap by
    the rows of a block. *)
Lemma drawImage_band image (b : Z * Z) (dy : Z) c (pre mid post : list (option row)) :
  0 <= fst b -> fst b <= snd b -> snd b <= naturalHeight image ->
  dy = Z.of_nat (List.length pre) ->
  List.length mid = Z.to_nat (snd b - fst b) ->
  bitmap c = pre ++ mid ++ post ->
  drawImage image (fst b) (snd b - fst b) dy c
  = set_bitmap (pre ++ (Some <$> slice (rows image) b) ++ post) c.
Proof.
  intros H0 H1 H2 Hdy Hmid Hbm. unfold drawImage, slice, naturalHeight in *.
  rewrite Hbm, copy_rows by lia.
  rewrite <- Hmid, drop_all. reflexivity.
Qed.

(** The invariant of the second loop. *)
Lemma draw_block_fold_bitmap image (bs : list (Z * Z)) :
  forall (destY : Z) c (pre : list (option row)) (k : nat),
  (forall b, In b bs -> 0 <= fst b /\ fst b <= snd b /\ snd b <= naturalHeight image) ->
  destY = Z.of_nat (List.length pre) ->
  bitmap c = pre ++ replicate k None ->
  sum_heights bs <= Z.of_nat k ->
  snd (fold_left (draw_block image) bs (destY, c))
  = set_bitmap (pre ++ (Some <$> concat (map (slice (rows image)) bs))
                  ++ replicate (k - Z.to_nat (sum_heights bs)) None) c.
Proof.
  induction bs as [|b bs IH]; intros destY c pre k Hin Hdy Hbm Hsum.
  - simpl. rewrite Nat.sub_0_r, <- Hbm. destruct c; reflexivity.
  - simpl in Hsum |- *.
    destruct (Hin b (or_introl eq_refl)) as (H0 & H1 & H2).
    assert (Hrest : 0 <= sum_heights bs).
    { clear -Hin. induction bs as [|b' bs IH]; simpl; [lia|].
      destruct (Hin b' (or_intror (or_introl eq_refl))) as (? & ? & ?).
      assert (0 <= sum_heights bs).
      { apply IH. intros x [Hx|Hx]; apply Hin; [left | right; right]; assumption. }
      unfold sum_heights in *. lia. }
    fold (sum_heights bs) in Hsum.
    set (h := Z.to_nat (snd b - fst b)).
    assert (Hk : k = (h + (k - h))%nat) by lia.
    rewrite Hk, replicate_add in Hbm.
    rewrite (drawImage_band image b destY c pre (replicate h None)
               (replicate (k - h) None) H0 H1 H2 Hdy) by
      (rewrite ?length_replicate; auto).
    rewrite (IH (destY + (snd b - fst b))
               (set_bitmap (pre ++ (Some <$> slice (rows image) b)
                              ++ replicate (k - h) None) c)
               (pre ++ (Some <$> slice (rows image) b)) (k - h)%nat).
    + unfold set_bitmap. simpl. f_equal.
      rewrite fmap_app, <- !app_assoc. f_equal. f_equal. f_equal.
      fold (sum_heights bs). f_equal. lia.
    + intros x Hx. apply Hin. right. exact Hx.
    + rewrite length_app, length_fmap. unfold slice.
      rewrite length_take, length_drop. unfold naturalHeight in H2. lia.
    + simpl. rewrite <- app_assoc. reflexivity.
    + lia.
Qed.

Lemma sum_heights_rev (l : list (Z * Z)) : sum_heights (rev l) = sum_heights l.
Proof.
  induction l as [|b l IH]; [reflexivity|].
  simpl rev. rewrite sum_heights_app, IH. unfold sum_heights. simpl. lia.
Qed.

Lemma cutImage_unfold image (n : Z) (this : Instance) c :
  canvas this = Some c -> 2 <= n ->
  cutImage image (Int n) this
  = set_canvas
      (Some (set_display "block"
               (draw_blocks image (build_blocks (naturalHeight image) n)
                  (clearRect (set_height (naturalHeight image)
                                (set_width (Z.of_nat (naturalWidth image)) c))))))
      this.
Proof.
  intros Hc Hn. unfold cutImage. rewrite Hc.
  replace (falsy (Int n) || le (Int n) (Int 1)) with false.
  2:{ unfold falsy, le. destruct (Z.eqb_spec n 0), (Z.leb_spec n 1); simpl; lia. }
  reflexivity.
Qed.

(** The bitmap that the second loop leaves on the cleared canvas. *)
Lemma draw_blocks_bitmap image (n : Z) c :
  2 <= n ->
  draw_blocks image (build_blocks (naturalHeight image) n)
    (clearRect (set_height (naturalHeight image)
                  (set_width (Z.of_nat (naturalWidth image)) c)))
  = {| width := Z.of_nat (naturalWidth image);
       height := naturalHeight image;
       style_display := style_display c;
       bitmap := Some <$> concat (map (slice (rows image))
                   (rev (build_blocks (naturalHeight image) n))) |}.
Proof.
  intros Hn. unfold draw_blocks.
  assert (HH : 0 <= naturalHeight image) by (unfold naturalHeight; lia).
  rewrite (draw_block_fold_bitmap image _ 0 _ [] (List.length (rows image))).
  - rewrite sum_heights_rev, build_blocks_sum by (simpl; lia).
    replace (Z.to_nat (naturalHeight image)) with (List.length (rows image))
      by (unfold naturalHeight; lia).
    rewrite Nat.sub_diag. simpl. rewrite app_nil_r. reflexivity.
  - intros b Hb. apply in_rev, list_elem_of_In, list_elem_of_lookup in Hb.
    destruct Hb as [i Hi].
    apply (build_blocks_bounds _ _ Hn HH i b Hi).
  - reflexivity.
  - simpl. rewrite length_replicate. unfold naturalHeight. rewrite Nat2Z.id.
    reflexivity.
  - rewrite sum_heights_rev, build_blocks_sum by (simpl; lia).
    unfold naturalHeight. lia.
Qed.

Lemma length_slices (rs : list row) (bs : list (Z * Z)) :
  (forall b, In b bs -> 0 <= fst b /\ fst b <= snd b
                        /\ snd b <= Z.of_nat (List.length rs)) ->
  Z.of_nat (List.length (concat (map (slice rs) bs))) = sum_heights bs.
Proof.
  induction bs as [|b bs IH]; intros Hin; [reflexivity|].
  simpl. rewrite length_app, Nat2Z.inj_add, IH.
  - destruct (Hin b (or_introl eq_refl)) as (H0 & H1 & H2).
    unfold slice. rewrite length_take, length_drop. fold (sum_heights bs). lia.
  - intros x Hx. apply Hin. right. exact Hx.
Qed.

(** C4. [cutImage] with [n >= 2] slices sizes the canvas to the natural
    width and height of the image and draws the source blocks from the
    last to the first ([draw_calls]: the destination offset starts at 0
    and moves down by the height of each block drawn); the canvas then
    holds the rows of the last block first, then those of the block
    before, down to block 0, each block in its own row order.  For a
    height of 300 and 3 slices the calls copy the source rows
    [[200, 300)] to the rows 0 to 99, [[100, 200)] to the rows 100 to 199
    and [[0, 100)] to the rows 200 to 299. *)
Theorem cutImage_reversed image (n : Z) (this : Instance) c :
  canvas this = Some c -> 2 <= n ->
  exists c',
    canvas (cutImage image (Int n) this) = Some c' /\
    width c' = Z.of_nat (naturalWidth image) /\
    height c' = naturalHeight image /\
    List.length (bitmap c') = List.length (rows image) /\
    c' = set_display "block"
           (fold_left (exec_call image)
              (draw_calls (build_blocks (naturalHeight image) n))
              (clearRect (set_height (naturalHeight image)
                            (set_width (Z.of_nat (naturalWidth image)) c)))) /\
    bitmap c' = Some <$> concat (map (slice (rows image))
                            (rev (build_blocks (naturalHeight image) n))) /\
    (naturalHeight image = 300 -> n = 3 ->
     draw_calls (build_blocks (naturalHeight image) n)
       = [(200, 100, 0); (100, 100, 100); (0, 100, 200)] /\
     (forall y, (y < 100)%nat ->
        bitmap c' !! y = Some (rows image !! (200 + y)%nat)) /\
     (forall y, (100 <= y < 200)%nat ->
        bitmap c' !! y = Some (rows image !! y)) /\
     (forall y, (200 <= y < 300)%nat ->
        bitmap c' !! y = Some (rows image !! (y - 200)%nat))).
Proof.
  intros Hc Hn.
  assert (HH : 0 <= naturalHeight image) by (unfold naturalHeight; lia).
  rewrite (cutImage_unfold image n this c Hc Hn). simpl canvas.
  eexists. split; [reflexivity|].
  pose proof (draw_blocks_calls image (build_blocks (naturalHeight image) n)
                (clearRect (set_height (naturalHeight image)
                              (set_width (Z.of_nat (naturalWidth image)) c))))
    as Hcalls.
  rewrite (draw_blocks_bitmap image n c Hn) in Hcalls |- *.
  cbn [width height bitmap set_display].
  split; [reflexivity|]. split; [reflexivity|].
  split.
  { rewrite length_fmap. apply Nat2Z.inj. rewrite length_slices.
    - rewrite sum_heights_rev, build_blocks_sum by lia. reflexivity.
    - intros b Hb. apply in_rev, list_elem_of_In, list_elem_of_lookup in Hb.
      destruct Hb as [i Hi].
      apply (build_blocks_bounds _ _ Hn HH i b Hi). }
  split; [rewrite <- Hcalls; reflexivity|]. split; [reflexivity|].
  clear Hcalls. intros H300 ->. rewrite H300.
  change (build_blocks 300 3) with [(0, 100); (100, 200); (200, 300)].
  split; [reflexivity|].
  assert (Hlen : List.length (rows image) = 300%nat)
    by (unfold naturalHeight in H300; lia).
  cbn [rev map concat app]. unfold slice. cbn [fst snd].
  change (Z.to_nat (300 - 200)) with 100%nat.
  change (Z.to_nat (200 - 100)) with 100%nat.
  change (Z.to_nat (100 - 0)) with 100%nat.
  change (Z.to_nat 200) with 200%nat.
  change (Z.to_nat 100) with 100%nat.
  change (Z.to_nat 0) with 0%nat.
  rewrite app_nil_r, drop_0.
  assert (L1 : List.length (take 100 (drop 200 (rows image))) = 100%nat)
    by (rewrite length_take, length_drop; lia).
  assert (L2 : List.length (take 100 (drop 100 (rows image))) = 100%nat)
    by (rewrite length_take, length_drop; lia).
  repeat split; intros y Hy; rewrite list_lookup_fmap.
  - rewrite lookup_app_l by lia. rewrite lookup_take_lt, lookup_drop by lia.
    destruct (lookup_lt_is_Some_2 (rows image) (200 + y) ltac:(lia)) as [r Hr].
    rewrite Hr. reflexivity.
  - rewrite lookup_app_r by lia. rewrite lookup_app_l by lia.
    rewrite lookup_take_lt, lookup_drop, L1 by lia.
    replace (100 + (y - 100))%nat with y by lia.
    destruct (lookup_lt_is_Some_2 (rows image) y ltac:(lia)) as [r Hr].
    rewrite Hr. reflexivity.
  - rewrite lookup_app_r by lia. rewrite lookup_app_r by lia.
    rewrite lookup_take_lt, L1, L2 by lia.
    replace (y - 100 - 100)%nat with (y - 200)%nat by lia.
    destruct (lookup_lt_is_Some_2 (rows image) (y - 200) ltac:(lia)) as [r Hr].
    rewrite Hr. reflexivity.
Qed.

End Reconstruct.

(** ** The loader *)

Section Loader.

Variable calculateMD5 : string -> string.
Context {row : Type}.
Implicit Types (this : @Instance row) (a : Attempt) (img : Image row)
  (s : @System row).

Lemma cutImage_loadToken img (n : number) this :
  loadToken (cutImage img n this) = loadToken this.
Proof.
  unfold cutImage. destruct (canvas this); [|reflexivity].
  destruct (falsy n || le n (Int 1)); [reflexivity|].
  destruct n; reflexivity.
Qed.

Lemma onload_loadToken a img this :
  loadToken (onload a img this) = loadToken this.
Proof.
  unfold onload. destruct (negb (myToken a =? loadToken this)); [reflexivity|].
  simpl. apply cutImage_loadToken.
Qed.

Lemma onerror_loadToken a this :
  loadToken (onerror a this) = loadToken this.
Proof.
  unfold onerror. destruct (negb (myToken a =? loadToken this)); reflexivity.
Qed.

(** A completion whose token is not the current one changes nothing. *)
Lemma onload_stale a img this :
  myToken a <> loadToken this -> onload a img this = this.
Proof.
  intros Hne. unfold onload.
  destruct (Z.eqb_spec (myToken a) (loadToken this)); [contradiction | reflexivity].
Qed.

Lemma onerror_stale a this :
  myToken a <> loadToken this -> onerror a this = this.
Proof.
  intros Hne. unfold onerror.
  destruct (Z.eqb_spec (myToken a) (loadToken this)); [contradiction | reflexivity].
Qed.

(** [loadImage] moves the token up by one on every path. *)
Lemma loadImage_loadToken this :
  loadToken (fst (loadImage calculateMD5 this)) = loadToken this + 1.
Proof.
  unfold loadImage. cbv zeta.
  destruct (le _ (Int 1) || test_gif _); reflexivity.
Qed.

(** The attempt that [loadImage] starts holds the new token. *)
Lemma loadImage_attempt this this' a :
  loadImage calculateMD5 this = (this', Some a) ->
  myToken a = loadToken this' /\ loadToken this' = loadToken this + 1.
Proof.
  intros Hl. pose proof (loadImage_loadToken this) as Ht. rewrite Hl in Ht.
  simpl in Ht. split; [|exact Ht].
  unfold loadImage in Hl. cbv zeta in Hl.
  destruct (le _ (Int 1) || test_gif _); [discriminate|].
  injection Hl as <- <-. reflexivity.
Qed.

Lemma start_tokens_bounded s this :
  tokens_bounded s -> loadToken this = loadToken (inst s) ->
  tokens_bounded (start calculateMD5 s this).
Proof.
  intros Hb Ht. unfold start.
  destruct (loadImage calculateMD5 this) as [this' oa] eqn:Hl.
  pose proof (loadImage_loadToken this) as Htok. rewrite Hl in Htok. simpl in Htok.
  intros i a Hi. simpl in Hi |- *.
  apply lookup_app_Some in Hi as [Hi | [_ Hi]].
  - specialize (Hb i a Hi). lia.
  - destruct oa as [a'|]; simpl in Hi.
    + destruct (i - List.length (pending s))%nat; [|discriminate].
      injection Hi as <-.
      destruct (loadImage_attempt this this' a' Hl) as [-> _]. lia.
    + destruct (i - List.length (pending s))%nat; discriminate.
Qed.

Lemma lookup_delete_Some (l : list Attempt) (i j : nat) a :
  delete i l !! j = Some a -> exists j', l !! j' = Some a.
Proof.
  intros Hj. destruct (Nat.lt_ge_cases j i) as [Hlt|Hge].
  - rewrite list_lookup_delete_lt in Hj by exact Hlt. eauto.
  - rewrite list_lookup_delete_ge in Hj by exact Hge. eauto.
Qed.

Lemma dispatch_tokens_bounded (e : Event) s s' :
  tokens_bounded s -> dispatch calculateMD5 e s = Some s' -> tokens_bounded s'.
Proof.
  intros Hb Hd. destruct e as [b|src' cid' sid' page'|i img|i|]; simpl in Hd.
  - destruct (observer (inst s)); try discriminate.
    destruct b; [|injection Hd as <-; exact Hb].
    injection Hd as <-.
    pose proof (start_tokens_bounded s (set_isVisible true (inst s)) Hb eq_refl) as Hs.
    intros j a Hj. exact (Hs j a Hj).
  - destruct (String.eqb src' (src (inst s))).
    { injection Hd as <-. exact Hb. }
    destruct (isVisible _).
    + injection Hd as <-. apply start_tokens_bounded; [exact Hb | reflexivity].
    + injection Hd as <-. exact Hb.
  - destruct (pending s !! i) as [a|]; [|discriminate]. injection Hd as <-.
    intros j a' Hj. simpl in Hj |- *. rewrite onload_loadToken.
    destruct (lookup_delete_Some _ _ _ _ Hj) as [j' Hj']. exact (Hb j' a' Hj').
  - destruct (pending s !! i) as [a|]; [|discriminate]. injection Hd as <-.
    intros j a' Hj. simpl in Hj |- *. rewrite onerror_loadToken.
    destruct (lookup_delete_Some _ _ _ _ Hj) as [j' Hj']. exact (Hb j' a' Hj').
  - injection Hd as <-. intros j a Hj. simpl in Hj |- *.
    specialize (Hb j a Hj).
    destruct (observer (inst s)); simpl; exact Hb.
Qed.

Lemma run_tokens_bounded (tr : list Event) s s' :
  tokens_bounded s -> run calculateMD5 tr s = Some s' -> tokens_bounded s'.
Proof.
  revert s. induction tr as [|e tr IH]; intros s Hb Hr; simpl in Hr.
  - injection Hr as <-. exact Hb.
  - destruct (dispatch calculateMD5 e s) as [s1|] eqn:Hd; [|discriminate].
    exact (IH s1 (dispatch_tokens_bounded e s s1 Hb Hd) Hr).
Qed.

Lemma start_tokens_distinct s this :
  tokens_bounded s -> tokens_distinct s -> loadToken this = loadToken (inst s) ->
  tokens_distinct (start calculateMD5 s this).
Proof.
  intros Hb Hd Ht. unfold start, tokens_distinct in *.
  destruct (loadImage calculateMD5 this) as [this' oa] eqn:Hl. simpl.
  destruct oa as [a'|]; simpl; [|rewrite app_nil_r; exact Hd].
  destruct (loadImage_attempt this this' a' Hl) as [Ha Ht'].
  rewrite fmap_app. apply NoDup_app. split; [exact Hd|]. split.
  - intros t Hin Hin'. apply list_elem_of_singleton in Hin'. subst t.
    apply list_elem_of_fmap in Hin as (a & Ha' & Hin).
    apply list_elem_of_lookup in Hin as [i Hi].
    specialize (Hb i a Hi). lia.
  - apply NoDup_singleton.
Qed.

Lemma delete_tokens_distinct (l : list Attempt) (i : nat) :
  NoDup (myToken <$> l) -> NoDup (myToken <$> delete i l).
Proof.
  intros Hd. rewrite list_fmap_delete.
  eapply sublist_NoDup; [exact Hd | apply sublist_delete].
Qed.

Lemma dispatch_tokens_distinct (e : Event) s s' :
  tokens_bounded s -> tokens_distinct s ->
  dispatch calculateMD5 e s = Some s' -> tokens_distinct s'.
Proof.
  intros Hb Hn Hd. destruct e as [b|src' cid' sid' page'|i img|i|]; simpl in Hd.
  - destruct (observer (inst s)); try discriminate.
    destruct b; [|injection Hd as <-; exact Hn].
    injection Hd as <-.
    exact (start_tokens_distinct s (set_isVisible true (inst s)) Hb Hn eq_refl).
  - destruct (String.eqb src' (src (inst s))).
    { injection Hd as <-. exact Hn. }
    destruct (isVisible _).
    + injection Hd as <-. apply start_tokens_distinct; [exact Hb | exact Hn | reflexivity].
    + injection Hd as <-. exact Hn.
  - destruct (pending s !! i) as [a|]; [|discriminate]. injection Hd as <-.
    apply delete_tokens_distinct. exact Hn.
  - destruct (pending s !! i) as [a|]; [|discriminate]. injection Hd as <-.
    apply delete_tokens_distinct. exact Hn.
  - injection Hd as <-. exact Hn.
Qed.

Lemma run_tokens_distinct (tr : list Event) s s' :
  tokens_bounded s -> tokens_distinct s ->
  run calculateMD5 tr s = Some s' -> tokens_distinct s'.
Proof.
  revert s. induction tr as [|e tr IH]; intros s Hb Hn Hr; simpl in Hr.
  - injection Hr as <-. exact Hn.
  - destruct (dispatch calculateMD5 e s) as [s1|] eqn:Hd; [|discriminate].
    exact (IH s1 (dispatch_tokens_bounded e s s1 Hb Hd)
             (dispatch_tokens_distinct e s s1 Hb Hn Hd) Hr).
Qed.

(** In a reachable state the loads in flight hold pairwise different
    tokens, so at most one of them holds the current token. *)
Lemma reachable_tokens_distinct s (i j : nat) a b :
  reachable calculateMD5 s ->
  pending s !! i = Some a -> pending s !! j = Some b ->
  myToken a = myToken b -> i = j.
Proof.
  intros (src0 & cid & sid & page0 & tr & Hr) Hi Hj Hab.
  assert (Hn : tokens_distinct s).
  { apply (run_tokens_distinct tr (mount src0 cid sid page0) s); [| |exact Hr].
    - intros k x Hk. simpl in Hk. rewrite lookup_nil in Hk. discriminate.
    - apply NoDup_nil. exact I. }
  apply (NoDup_lookup _ i j (myToken a) Hn); rewrite list_lookup_fmap.
  - rewrite Hi. reflexivity.
  - rewrite Hj, Hab. reflexivity.
Qed.

Lemma reachable_tokens_bounded s :
  reachable calculateMD5 s -> tokens_bounded s.
Proof.
  intros (src0 & cid & sid & page0 & tr & Hr).
  apply (run_tokens_bounded tr (mount src0 cid sid page0) s); [|exact Hr].
  intros i a Hi. simpl in Hi. rewrite lookup_nil in Hi. discriminate.
Qed.

(** *** Strings: the [.gif] test and the page base name *)

Lemma lower_app (s1 s2 : string) : lower (s1 +:+ s2) = lower s1 +:+ lower s2.
Proof.
  induction s1 as [|c s1 IH]; [reflexivity|]. simpl. rewrite IH. reflexivity.
Qed.

Lemma ends_with_refl (suf : string) : ends_with suf suf = true.
Proof.
  destruct suf; cbn -[String.eqb]; rewrite String.eqb_refl; reflexivity.
Qed.

Lemma ends_with_app (pre suf : string) : ends_with suf (pre +:+ suf) = true.
Proof.
  induction pre as [|c pre IH].
  - exact (ends_with_refl suf).
  - change (String c pre +:+ suf) with (String c (pre +:+ suf)).
    cbn -[String.eqb]. rewrite IH. apply orb_true_r.
Qed.

(** A name that ends in [.gif], in any mix of cases, passes the test. *)
Lemma test_gif_suffix (pre suf : string) :
  lower suf = ".gif" -> test_gif (pre +:+ suf) = true.
Proof.
  intros Hs. unfold test_gif. rewrite lower_app, Hs. apply ends_with_app.
Qed.

(** [split] gives first the part of the name before its first dot. *)
Lemma split_first (base rest : string) :
  free_of "." base = true ->
  rest = EmptyString \/ (exists r, rest = String "." r) ->
  exists ws, split "." (base +:+ rest) = base :: ws.
Proof.
  intros Hfree Hrest. induction base as [|c base IH]; simpl.
  - destruct Hrest as [-> | [r ->]]; simpl; eauto.
  - simpl in Hfree. apply andb_true_iff in Hfree as [Hc Hfree].
    apply negb_true_iff in Hc. rewrite Hc.
    destruct (IH Hfree) as [ws ->]. eauto.
Qed.

(** The slice count that [loadImage] computes is that of the rule at the
    parsed identifier, the parsed epoch and the page base name. *)
Lemma loadImage_sliceCount_eq this (z : Z) (base rest : string) :
  parseInt (comicId this) = Int z ->
  page this = base +:+ rest ->
  free_of "." base = true ->
  rest = EmptyString \/ (exists r, rest = String "." r) ->
  loadImage_sliceCount calculateMD5 this
  = if z <? normalized_epoch (scrambleId this) then Int 0
    else if z <? 268850 then Int 10
    else
      let keyCode :=
        match last_char (calculateMD5 (decimal z +:+ base)) with
        | Some c => Int (code c)
        | None => NaN
        end in
      if 421926 <? z then add (mul (rem keyCode (Int 8)) (Int 2)) (Int 2)
      else add (mul (rem keyCode (Int 10)) (Int 2)) (Int 2).
Proof.
  intros Hz Hpage Hfree Hrest. unfold loadImage_sliceCount. cbv zeta.
  rewrite Hpage. destruct (split_first base rest Hfree Hrest) as [ws ->].
  simpl lookup. rewrite Hz.
  rewrite (getSegmentationNum_parsed calculateMD5 _ _ _ z (parseInt_number (Int z))).
  unfold normalized_epoch. rewrite parseInt_number. reflexivity.
Qed.

(** C2. A completion, success or failure, whose captured token is not the
    current [loadToken] leaves the instance, canvas included, as it is.
    When [loadImage] runs and later runs again, the first attempt is void
    from then on: whether it completes before or after the second attempt,
    the instance ends in the state that the second attempt alone gives it.
    In the event loop a stale completion only leaves the list of loads in
    flight, and in any reachable state no two loads in flight hold the same
    token. *)
Theorem stale_completion_void this this1 a1 this1' this2 (r2 : option Attempt) :
  loadImage calculateMD5 this = (this1, Some a1) ->
  loadToken this1 <= loadToken this1' ->
  loadImage calculateMD5 this1' = (this2, r2) ->
  (forall a img this0, myToken a <> loadToken this0 ->
     onload a img this0 = this0 /\ onerror a this0 = this0) /\
  (forall img1 this3, loadToken this3 = loadToken this2 ->
     onload a1 img1 this3 = this3 /\ onerror a1 this3 = this3) /\
  (forall a2 img1 img2, r2 = Some a2 ->
     onload a2 img2 this2
       = set_loading false (cutImage img2 (sliceCount a2) this2) /\
     onload a1 img1 (onload a2 img2 this2) = onload a2 img2 this2 /\
     onerror a1 (onload a2 img2 this2) = onload a2 img2 this2 /\
     onload a1 img1 (onerror a2 this2) = onerror a2 this2 /\
     onerror a1 (onerror a2 this2) = onerror a2 this2 /\
     onload a2 img2 (onload a1 img1 this2) = onload a2 img2 this2 /\
     onload a2 img2 (onerror a1 this2) = onload a2 img2 this2) /\
  (forall s (i : nat) a img, pending s !! i = Some a ->
     myToken a <> loadToken (inst s) ->
     dispatch calculateMD5 (Load i img) s
       = Some {| inst := inst s; pending := delete i (pending s) |} /\
     dispatch calculateMD5 (Error i) s
       = Some {| inst := inst s; pending := delete i (pending s) |}) /\
  (forall s (i j : nat) a b, reachable calculateMD5 s ->
     pending s !! i = Some a -> pending s !! j = Some b ->
     myToken a = myToken b -> i = j).
Proof.
  intros H1 Hlater H2.
  destruct (loadImage_attempt _ _ _ H1) as [Ha1 Ht1].
  pose proof (loadImage_loadToken this1') as Ht2. rewrite H2 in Ht2. simpl in Ht2.
  assert (Hstale : forall this3, loadToken this3 = loadToken this2 ->
                     myToken a1 <> loadToken this3) by (intros; lia).
  split; [|split; [|split; [|split]]].
  - intros a img this0 Hne. split; [apply onload_stale | apply onerror_stale]; exact Hne.
  - intros img1 this3 H3.
    split; [apply onload_stale | apply onerror_stale]; apply Hstale; exact H3.
  - intros a2 img1 img2 ->.
    destruct (loadImage_attempt _ _ _ H2) as [Ha2 _].
    split.
    { unfold onload. rewrite Ha2, Z.eqb_refl. reflexivity. }
    rewrite !(onload_stale a1), !(onerror_stale a1)
      by (apply Hstale; rewrite ?onload_loadToken, ?onerror_loadToken; reflexivity).
    repeat split; reflexivity.
  - intros s i a img Hi Hne. simpl. rewrite Hi.
    rewrite (onload_stale a img (inst s) Hne), (onerror_stale a (inst s) Hne).
    split; reflexivity.
  - intros s i j a b Hr Hi Hj Hab.
    exact (reachable_tokens_distinct s i j a b Hr Hi Hj Hab).
Qed.

(** C8. When the page name ends in [.gif], in any mix of cases,
    [loadImage] starts no attempt, so that no [onload] of that call can
    reach [cutImage]; it leaves the canvas as it was, with [loading] and
    [needDescramble] both false: the [img] element shows the image as
    decoded as soon as the instance is visible, which it is at both calls
    of [loadImage]. *)
Theorem loadImage_gif this (pre suf : string) :
  page this = pre +:+ suf ->
  lower suf = ".gif" ->
  snd (loadImage calculateMD5 this) = None /\
  loading (fst (loadImage calculateMD5 this)) = false /\
  needDescramble (fst (loadImage calculateMD5 this)) = false /\
  canvas (fst (loadImage calculateMD5 this)) = canvas this /\
  shows_img (fst (loadImage calculateMD5 this)) = isVisible this /\
  (forall s s', inst s = this ->
     dispatch calculateMD5 (Intersect true) s = Some s' ->
     pending s' = pending s /\ shows_img (inst s') = true) /\
  (forall s s' (src' : string) (comicId' scrambleId' : value),
     isVisible (inst s) = true ->
     String.eqb src' (src (inst s)) = false ->
     dispatch calculateMD5 (Update src' comicId' scrambleId' (pre +:+ suf)) s = Some s' ->
     pending s' = pending s /\ shows_img (inst s') = true).
Proof.
  intros Hpage Hsuf.
  assert (Hgif : forall this', page this' = pre +:+ suf ->
    loadImage calculateMD5 this'
    = (set_loading false (set_needDescramble false (set_loading true
         (set_loadToken (loadToken this' + 1) this'))), None)).
  { intros this' Hp. unfold loadImage. cbv zeta.
    replace (test_gif (page _)) with true
      by (symmetry; simpl; rewrite Hp; apply test_gif_suffix; exact Hsuf).
    rewrite orb_true_r. reflexivity. }
  assert (Hstart : forall s this', page this' = pre +:+ suf ->
    start calculateMD5 s this'
    = {| inst := set_loading false (set_needDescramble false (set_loading true
                   (set_loadToken (loadToken this' + 1) this')));
         pending := pending s ++ [] |}).
  { intros s this' Hp. unfold start. rewrite (Hgif this' Hp). reflexivity. }
  rewrite (Hgif this Hpage). simpl.
  split; [reflexivity|]. split; [reflexivity|]. split; [reflexivity|].
  split; [reflexivity|]. split; [reflexivity|]. split.
  - intros s s' Hs Hd. simpl in Hd.
    destruct (observer (inst s)); try discriminate.
    rewrite (Hstart s (set_isVisible true (inst s))) in Hd
      by (simpl; rewrite Hs; exact Hpage).
    injection Hd as <-. simpl. split; [apply app_nil_r | reflexivity].
  - intros s s' src' comicId' scrambleId' Hv Hsrc Hd. simpl in Hd.
    rewrite Hsrc, Hv in Hd.
    rewrite Hstart in Hd by reflexivity.
    injection Hd as <-. simpl. split; [apply app_nil_r |].
    unfold shows_img. simpl. exact Hv.
Qed.

(** C9. Every call of [loadImage] moves [loadToken] up by exactly one, on
    the paths that return early as on the path that starts a load; so
    after any call, whichever path it takes, the [onload] and the
    [onerror] of every attempt that was still in flight change nothing. *)
Theorem loadImage_invalidates s this :
  reachable calculateMD5 s ->
  loadToken this = loadToken (inst s) ->
  loadToken (fst (loadImage calculateMD5 this)) = loadToken this + 1 /\
  (forall i a img, pending s !! i = Some a ->
     onload a img (fst (loadImage calculateMD5 this))
       = fst (loadImage calculateMD5 this) /\
     onerror a (fst (loadImage calculateMD5 this))
       = fst (loadImage calculateMD5 this)).
Proof.
  intros Hr Ht. pose proof (loadImage_loadToken this) as Hl.
  split; [exact Hl|].
  intros i a img Hi.
  pose proof (reachable_tokens_bounded s Hr i a Hi) as Hle.
  split; [apply onload_stale | apply onerror_stale]; lia.
Qed.

End Loader.

(** C10. The string given to the digest is the decimal identifier followed
    by the part of the page name before its first dot: for an identifier
    that is a safe integer (below [2^53] in magnitude, where parsing and
    printing are exact), when the name is [base] followed by nothing or by
    a dot and anything, dots included, the slice count that [loadImage]
    computes is the same for any two digest functions that agree on
    [decimal z +:+ base], and in the regions that use the digest it is
    computed from the digest of that string. *)
Theorem loadImage_hash_input {row : Type} (calculateMD5 : string -> string)
    (this : @Instance row) (z : Z) (base rest : string) :
  parseInt (comicId this) = Int z ->
  - 2 ^ 53 < z < 2 ^ 53 ->
  page this = base +:+ rest ->
  free_of "." base = true ->
  rest = EmptyString \/ (exists r, rest = String "." r) ->
  split "." (page this) !! 0%nat = Some base /\
  (forall md5' : string -> string,
     md5' (decimal z +:+ base) = calculateMD5 (decimal z +:+ base) ->
     loadImage_sliceCount md5' this = loadImage_sliceCount calculateMD5 this) /\
  (normalized_epoch (scrambleId this) <= z -> 268850 <= z ->
   forall c, last_char (calculateMD5 (decimal z +:+ base)) = Some c ->
     loadImage_sliceCount calculateMD5 this
     = Int ((code c mod (if 421926 <? z then 8 else 10)) * 2 + 2)).
Proof.
  intros Hz Hsafe Hpage Hfree Hrest. split; [|split].
  - rewrite Hpage. destruct (split_first base rest Hfree Hrest) as [ws ->].
    reflexivity.
  - intros md5' Hagree.
    rewrite !(loadImage_sliceCount_eq _ this z base rest Hz Hpage Hfree Hrest).
    rewrite Hagree. reflexivity.
  - intros Hge Hlo c Hc.
    rewrite (loadImage_sliceCount_eq _ this z base rest Hz Hpage Hfree Hrest).
    destruct (Z.ltb_spec z (normalized_epoch (scrambleId this))); [lia|].
    destruct (Z.ltb_spec z 268850); [lia|].
    cbv zeta. rewrite Hc.
    destruct (421926 <? z); apply slices_of_code; lia.
Qed.

(** C2 at concrete inputs: two loads started one after the other; the
    second completes, then the first. *)
Lemma stale_completion_void_witness :
  onload sample_attempt1 (sample_image 6)
    (onload sample_attempt2 (sample_image 8) sample_after2)
  = onload sample_attempt2 (sample_image 8) sample_after2.
Proof.
  destruct (stale_completion_void stub_a sample_instance sample_after1 sample_attempt1
              (set_props "u2" (VString "500000") VUndefined "00002.webp" sample_after1)
              sample_after2 (Some sample_attempt2) eq_refl ltac:(simpl; lia) eq_refl)
    as (_ & _ & H3 & _).
  destruct (H3 sample_attempt2 (sample_image 6) (sample_image 8) eq_refl)
    as (_ & H4 & _).
  exact H4.
Defined.

(** C4 at the input of the scenario: 300 rows in 3 slices. *)
Lemma cutImage_reversed_witness :
  exists c',
    canvas (cutImage (sample_image 300) (Int 3) sample_instance) = Some c' /\
    width c' = 2 /\ height c' = 300 /\
    bitmap c' !! 0%nat = Some (Some 200%nat) /\
    bitmap c' !! 99%nat = Some (Some 299%nat) /\
    bitmap c' !! 100%nat = Some (Some 100%nat) /\
    bitmap c' !! 299%nat = Some (Some 99%nat).
Proof.
  destruct (cutImage_reversed (sample_image 300) 3 sample_instance new_canvas
              eq_refl ltac:(lia))
    as (c' & Hc & Hw & Hh & _ & _ & _ & Hscen).
  destruct (Hscen eq_refl eq_refl) as (_ & H1 & H2 & H3).
  exists c'. split; [exact Hc|]. split; [exact Hw|]. split; [exact Hh|].
  split; [rewrite (H1 0%nat) by lia; reflexivity|].
  split; [rewrite (H1 99%nat) by lia; reflexivity|].
  split; [rewrite (H2 100%nat) by lia; reflexivity|].
  rewrite (H3 299%nat) by lia; reflexivity.
Defined.

(** C8 at a concrete input: an upper-case [.GIF] page of an album whose
    slice count would be 4. *)
Lemma loadImage_gif_witness :
  snd (loadImage stub_a
         (set_props "u3" (VString "500000") VUndefined "00003.GIF" sample_instance))
  = None.
Proof.
  apply (loadImage_gif stub_a
           (set_props "u3" (VString "500000") VUndefined "00003.GIF" sample_instance)
           "00003" ".GIF"); reflexivity.
Defined.

(** C9 at concrete inputs: with one load in flight, a call of [loadImage]
    that returns early, the page being a [.gif], makes that load void. *)
Lemma loadImage_invalidates_witness :
  loadToken (fst (loadImage stub_a
                    (set_props "u3" (VString "500000") VUndefined "00003.gif"
                       (inst sample_system)))) = 2 /\
  snd (loadImage stub_a
         (set_props "u3" (VString "500000") VUndefined "00003.gif"
            (inst sample_system))) = None /\
  onload sample_attempt1 (sample_image 6)
    (fst (loadImage stub_a
            (set_props "u3" (VString "500000") VUndefined "00003.gif"
               (inst sample_system))))
  = fst (loadImage stub_a
           (set_props "u3" (VString "500000") VUndefined "00003.gif"
              (inst sample_system))).
Proof.
  assert (Hr : reachable stub_a sample_system).
  { exists "u1", (VString "500000"), VUndefined, "00001.webp", [Intersect true].
    reflexivity. }
  destruct (loadImage_invalidates stub_a sample_system
              (set_props "u3" (VString "500000") VUndefined "00003.gif"
                 (inst sample_system)) Hr eq_refl) as [Ht Hv].
  split; [exact Ht|]. split; [reflexivity|].
  exact (proj1 (Hv 0%nat sample_attempt1 (sample_image 6) eq_refl)).
Defined.

(** C10 at a concrete input: of [foo.bar.jpg] only [foo] is hashed. *)
Lemma loadImage_hash_input_witness :
  split "." "foo.bar.jpg" !! 0%nat = Some "foo" /\
  loadImage_sliceCount stub_a
    (set_props "u4" (VString "500000") VUndefined "foo.bar.jpg" sample_instance)
  = Int ((code "a" mod 8) * 2 + 2).
Proof.
  destruct (loadImage_hash_input stub_a
              (set_props "u4" (VString "500000") VUndefined "foo.bar.jpg"
                 sample_instance)
              500000 "foo" ".bar.jpg" eq_refl (conj eq_refl eq_refl) eq_refl eq_refl
              (or_intror (ex_intro _ "bar.jpg" eq_refl)))
    as (Hsplit & _ & Hkey).
  split; [exact Hsplit|].
  apply (Hkey ltac:(vm_compute; discriminate) ltac:(lia) "a"%char eq_refl).
Defined.

(** ** The life of an instance: invariants *)

Section Lifecycle.

Variable calculateMD5 : string -> string.
Context {row : Type}.
Implicit Types (this : @Instance row) (a : Attempt) (img : Image row)
  (s : @System row).

Lemma run_snoc (tr : list Event) (e : Event) s :
  run calculateMD5 (tr ++ [e]) s
  = match run calculateMD5 tr s with
    | Some s' => dispatch calculateMD5 e s'
    | None => None
    end.
Proof.
  revert s. induction tr as [|e' tr IH]; intros s; simpl.
  - destruct (dispatch calculateMD5 e s); reflexivity.
  - destruct (dispatch calculateMD5 e' s) as [s1|]; [apply IH | reflexivity].
Qed.

(** Induction on the events that lead to a state. *)
Lemma reachable_invariant (P : @System row -> Prop) :
  (forall src0 comicId0 scrambleId0 page0,
     P (mount src0 comicId0 scrambleId0 page0)) ->
  (forall e s s', reachable calculateMD5 s -> P s ->
     dispatch calculateMD5 e s = Some s' -> P s') ->
  forall s, reachable calculateMD5 s -> P s.
Proof.
  intros Hinit Hstep s (src0 & cid & sid & page0 & tr & Hr).
  revert s Hr. induction tr as [|e tr IH] using rev_ind; intros s Hr.
  - injection Hr as <-. apply Hinit.
  - rewrite run_snoc in Hr.
    destruct (run calculateMD5 tr (mount src0 cid sid page0)) as [s1|] eqn:E;
      [|discriminate].
    apply (Hstep e s1 s); [|apply IH; reflexivity|exact Hr].
    exists src0, cid, sid, page0, tr. exact E.
Qed.

(** [cutImage] touches the canvas only. *)
Lemma cutImage_frame img (n : number) this :
  cutImage img n this = set_canvas (canvas (cutImage img n this)) this.
Proof.
  unfold cutImage. destruct (canvas this) eqn:Hc.
  - destruct (falsy n || le n (Int 1)); [reflexivity|]. destruct n; reflexivity.
  - rewrite Hc. destruct this; simpl in *; subst; reflexivity.
Qed.

Lemma onload_frame a img this :
  isVisible (onload a img this) = isVisible this /\
  observer (onload a img this) = observer this /\
  src (onload a img this) = src this.
Proof.
  unfold onload. destruct (negb (myToken a =? loadToken this)); [auto|].
  cbv zeta. rewrite cutImage_frame. auto.
Qed.

Lemma onerror_frame a this :
  isVisible (onerror a this) = isVisible this /\
  observer (onerror a this) = observer this /\
  canvas (onerror a this) = canvas this.
Proof.
  unfold onerror. destruct (negb (myToken a =? loadToken this)); auto.
Qed.

Lemma loadImage_frame this :
  isVisible (fst (loadImage calculateMD5 this)) = isVisible this /\
  observer (fst (loadImage calculateMD5 this)) = observer this /\
  canvas (fst (loadImage calculateMD5 this)) = canvas this.
Proof.
  unfold loadImage. cbv zeta.
  destruct (le _ (Int 1) || test_gif _); auto.
Qed.

Lemma start_inst s this :
  inst (start calculateMD5 s this) = fst (loadImage calculateMD5 this) /\
  pending (start calculateMD5 s this)
    = pending s ++ option_list (snd (loadImage calculateMD5 this)).
Proof.
  unfold start. destruct (loadImage calculateMD5 this); auto.
Qed.

Lemma dispatch_gate_inv (e : Event) s s' :
  gate_inv s -> dispatch calculateMD5 e s = Some s' -> gate_inv s'.
Proof.
  unfold gate_inv. intros Hg Hd.
  destruct e as [b|src' cid' sid' page'|i img|i|]; simpl in Hd.
  - destruct (observer (inst s)) eqn:Ho; try discriminate.
    destruct b; [|injection Hd as <-; rewrite Ho; exact Hg].
    injection Hd as <-. simpl.
    destruct (start_inst s (set_isVisible true (inst s))) as [-> _].
    destruct (loadImage_frame (set_isVisible true (inst s))) as (-> & _).
    reflexivity.
  - destruct (String.eqb src' (src (inst s))); [injection Hd as <-; exact Hg|].
    simpl in Hd. destruct (isVisible (inst s)) eqn:Hv.
    + injection Hd as <-.
      destruct (start_inst s (set_props src' cid' sid' page' (inst s))) as [-> _].
      destruct (loadImage_frame (set_props src' cid' sid' page' (inst s)))
        as (-> & -> & _).
      simpl. rewrite Hv. exact Hg.
    + injection Hd as <-. simpl. rewrite Hv. exact Hg.
  - destruct (pending s !! i) as [a|] eqn:Hi; [|discriminate]. injection Hd as <-.
    simpl. destruct (onload_frame a img (inst s)) as (-> & -> & _).
    destruct (isVisible (inst s)); [exact Hg|].
    destruct Hg as (_ & Hp & _). rewrite Hp in Hi. discriminate.
  - destruct (pending s !! i) as [a|] eqn:Hi; [|discriminate]. injection Hd as <-.
    simpl. destruct (onerror_frame a (inst s)) as (-> & -> & _).
    destruct (isVisible (inst s)); [exact Hg|].
    destruct Hg as (_ & Hp & _). rewrite Hp in Hi. discriminate.
  - injection Hd as <-. simpl.
    destruct (observer (inst s)) eqn:Ho; simpl;
      destruct (isVisible (inst s)); try reflexivity; try congruence;
      destruct Hg as (H1 & H2 & H3 & H4 & _); auto 6.
Qed.

Lemma reachable_gate_inv s : reachable calculateMD5 s -> gate_inv s.
Proof.
  apply reachable_invariant.
  - intros. unfold gate_inv. simpl. auto 6.
  - intros e s0 s' _ Hg Hd. exact (dispatch_gate_inv e s0 s' Hg Hd).
Qed.

(** X1. Until the observer reports the component in view, nothing is
    loaded: the token is still 0, no load is in flight, and the canvas is
    as the template created it (or gone, after an unmount). *)
Theorem hidden_instance_idle s :
  reachable calculateMD5 s ->
  isVisible (inst s) = false ->
  loadToken (inst s) = 0 /\ pending s = [] /\
  loading (inst s) = true /\ needDescramble (inst s) = false /\
  (canvas (inst s) = Some new_canvas \/ canvas (inst s) = None).
Proof.
  intros Hr Hv. pose proof (reachable_gate_inv s Hr) as Hg.
  unfold gate_inv in Hg. rewrite Hv in Hg. exact Hg.
Qed.

(** X2. The visibility gate is one-shot: once the instance is visible its
    observer is disconnected, and no intersection event reaches it any
    more. *)
Theorem visible_observer_disconnected s :
  reachable calculateMD5 s ->
  isVisible (inst s) = true ->
  observer (inst s) = Disconnected /\
  (forall b, dispatch calculateMD5 (Intersect b) s = None).
Proof.
  intros Hr Hv. pose proof (reachable_gate_inv s Hr) as Hg.
  unfold gate_inv in Hg. rewrite Hv in Hg. split; [exact Hg|].
  intros b. simpl. rewrite Hg. reflexivity.
Qed.

End Lifecycle.

Section Spinner.

Variable calculateMD5 : string -> string.
Context {row : Type}.
Implicit Types (this : @Instance row) (a : Attempt) (img : Image row)
  (s : @System row).

Lemma lookup_delete_inv (l : list Attempt) (i j : nat) a :
  delete i l !! j = Some a -> exists j', j' <> i /\ l !! j' = Some a.
Proof.
  intros Hj. destruct (Nat.lt_ge_cases j i) as [Hlt|Hge].
  - rewrite list_lookup_delete_lt in Hj by exact Hlt. exists j. split; [lia | exact Hj].
  - rewrite list_lookup_delete_ge in Hj by exact Hge. exists (S j). split; [lia | exact Hj].
Qed.

Lemma lookup_delete_other (l : list Attempt) (i j' : nat) a :
  l !! j' = Some a -> j' <> i -> exists j, delete i l !! j = Some a.
Proof.
  intros Hj Hne. destruct (Nat.lt_ge_cases j' i) as [Hlt|Hge].
  - exists j'. rewrite list_lookup_delete_lt by exact Hlt. exact Hj.
  - exists (pred j'). rewrite list_lookup_delete_ge by lia.
    replace (S (pred j')) with j' by lia. exact Hj.
Qed.

(** [loadImage] leaves [loading] and [needDescramble] true exactly when it
    has started an attempt. *)
Lemma loadImage_flags this :
  match snd (loadImage calculateMD5 this) with
  | Some a =>
      loading (fst (loadImage calculateMD5 this)) = true /\
      needDescramble (fst (loadImage calculateMD5 this)) = true /\
      myToken a = loadToken this + 1 /\
      sliceCount a
        = loadImage_sliceCount calculateMD5
            (set_needDescramble false (set_loading true
               (set_loadToken (loadToken this + 1) this))) /\
      le (sliceCount a) (Int 1) = false
  | None =>
      loading (fst (loadImage calculateMD5 this)) = false /\
      needDescramble (fst (loadImage calculateMD5 this)) = false
  end.
Proof.
  unfold loadImage. cbv zeta.
  destruct (le _ (Int 1)) eqn:Hle; simpl; [auto|].
  destruct (test_gif _); simpl; auto.
Qed.

(** A completion of a stale attempt keeps the current one in flight. *)
Lemma has_current_delete_stale s (i : nat) a this' :
  pending s !! i = Some a -> myToken a <> loadToken (inst s) ->
  loadToken this' = loadToken (inst s) ->
  has_current {| inst := this'; pending := delete i (pending s) |}
  <-> has_current s.
Proof.
  intros Hi Hne Ht. unfold has_current. simpl. split.
  - intros (j & b & Hj & Hb).
    destruct (lookup_delete_inv _ _ _ _ Hj) as (j' & _ & Hj').
    exists j', b. split; [exact Hj' | congruence].
  - intros (j' & b & Hj' & Hb).
    assert (Hneq : j' <> i) by (intros ->; congruence).
    destruct (lookup_delete_other _ i _ _ Hj' Hneq) as [j Hj].
    exists j, b. split; [exact Hj | congruence].
Qed.

(** Once the current attempt has completed, no load in flight is
    current. *)
Lemma has_current_delete_current s (i : nat) a this' :
  reachable calculateMD5 s ->
  pending s !! i = Some a -> myToken a = loadToken (inst s) ->
  loadToken this' = loadToken (inst s) ->
  ~ has_current {| inst := this'; pending := delete i (pending s) |}.
Proof.
  intros Hr Hi Ha Ht (j & b & Hj & Hb). simpl in Hj, Hb.
  destruct (lookup_delete_inv _ _ _ _ Hj) as (j' & Hne & Hj').
  apply Hne. apply (reachable_tokens_distinct calculateMD5 s j' i b a Hr Hj' Hi).
  congruence.
Qed.

(** After [loadImage] the attempt it has started, if any, is the current
    one, and no older one is. *)
Lemma has_current_start s this :
  reachable calculateMD5 s -> loadToken this = loadToken (inst s) ->
  has_current (start calculateMD5 s this)
  <-> is_Some (snd (loadImage calculateMD5 this)).
Proof.
  intros Hr Ht. unfold has_current.
  destruct (start_inst calculateMD5 s this) as [Hinst Hpend].
  rewrite Hinst, Hpend, loadImage_loadToken.
  pose proof (loadImage_flags this) as Hf.
  pose proof (reachable_tokens_bounded calculateMD5 s Hr) as Hb.
  destruct (snd (loadImage calculateMD5 this)) as [a|]; simpl; split.
  - intros _. eexists. reflexivity.
  - intros _. exists (List.length (pending s)), a.
    rewrite lookup_app_r, Nat.sub_diag by lia.
    destruct Hf as (_ & _ & Ha & _). split; [reflexivity | exact Ha].
  - rewrite app_nil_r. intros (j & b & Hj & Hbt). specialize (Hb j b Hj). lia.
  - intros [x Hx]. discriminate.
Qed.

Lemma start_spinner s this :
  reachable calculateMD5 s -> loadToken this = loadToken (inst s) ->
  (loading (inst (start calculateMD5 s this)) = true
   <-> has_current (start calculateMD5 s this)) /\
  (has_current (start calculateMD5 s this) ->
   needDescramble (inst (start calculateMD5 s this)) = true).
Proof.
  intros Hr Ht. rewrite (has_current_start s this Hr Ht).
  destruct (start_inst calculateMD5 s this) as [-> _].
  pose proof (loadImage_flags this) as Hf.
  destruct (snd (loadImage calculateMD5 this)) as [a|].
  - destruct Hf as (Hl & Hn & _). split; [|intros _; exact Hn].
    split; [intros _; eexists; reflexivity | intros _; exact Hl].
  - destruct Hf as (Hl & Hn). split.
    + split; [rewrite Hl; discriminate | intros [x Hx]; discriminate].
    + intros [x Hx]. discriminate.
Qed.

Lemma dispatch_spinner_inv (e : Event) s s' :
  reachable calculateMD5 s ->
  (isVisible (inst s) = true ->
   (loading (inst s) = true <-> has_current s) /\
   (has_current s -> needDescramble (inst s) = true)) ->
  dispatch calculateMD5 e s = Some s' ->
  isVisible (inst s') = true ->
  (loading (inst s') = true <-> has_current s') /\
  (has_current s' -> needDescramble (inst s') = true).
Proof.
  intros Hr Hinv Hd Hv'.
  destruct e as [b|src' cid' sid' page'|i img|i|]; simpl in Hd.
  - destruct (observer (inst s)) eqn:Ho; try discriminate.
    destruct b; [|injection Hd as <-; exact (Hinv Hv')].
    injection Hd as <-. simpl.
    pose proof (start_spinner s (set_isVisible true (inst s)) Hr eq_refl) as Hs.
    exact Hs.
  - destruct (String.eqb src' (src (inst s))); [injection Hd as <-; exact (Hinv Hv')|].
    simpl in Hd. destruct (isVisible (inst s)) eqn:Hv.
    + injection Hd as <-.
      exact (start_spinner s (set_props src' cid' sid' page' (inst s)) Hr eq_refl).
    + injection Hd as <-. simpl in Hv'. congruence.
  - destruct (pending s !! i) as [a|] eqn:Hi; [|discriminate]. injection Hd as <-.
    simpl in Hv'. destruct (onload_frame a img (inst s)) as (Hvis & _).
    rewrite Hvis in Hv'. specialize (Hinv Hv').
    destruct (Z.eq_dec (myToken a) (loadToken (inst s))) as [Heq|Hne].
    + pose proof (has_current_delete_current s i a (onload a img (inst s)) Hr Hi Heq
                    (onload_loadToken a img (inst s))) as Hno.
      simpl. split; [|intros Hc; contradiction].
      split; [|intros Hc; contradiction].
      unfold onload. rewrite Heq, Z.eqb_refl. simpl. discriminate.
    + rewrite (has_current_delete_stale s i a _ Hi Hne (onload_loadToken a img (inst s))).
      simpl. rewrite (onload_stale a img (inst s) Hne). exact Hinv.
  - destruct (pending s !! i) as [a|] eqn:Hi; [|discriminate]. injection Hd as <-.
    simpl in Hv'. destruct (onerror_frame a (inst s)) as (Hvis & _).
    rewrite Hvis in Hv'. specialize (Hinv Hv').
    destruct (Z.eq_dec (myToken a) (loadToken (inst s))) as [Heq|Hne].
    + pose proof (has_current_delete_current s i a (onerror a (inst s)) Hr Hi Heq
                    (onerror_loadToken a (inst s))) as Hno.
      simpl. split; [|intros Hc; contradiction].
      split; [|intros Hc; contradiction].
      unfold onerror. rewrite Heq, Z.eqb_refl. simpl. discriminate.
    + rewrite (has_current_delete_stale s i a _ Hi Hne (onerror_loadToken a (inst s))).
      simpl. rewrite (onerror_stale a (inst s) Hne). exact Hinv.
  - injection Hd as <-.
    assert (Hv : isVisible (inst s) = true).
    { simpl in Hv'. destruct (observer (inst s)); exact Hv'. }
    specialize (Hinv Hv). unfold has_current in *.
    destruct (observer (inst s)); simpl; exact Hinv.
Qed.

Lemma reachable_spinner s :
  reachable calculateMD5 s ->
  isVisible (inst s) = true ->
  (loading (inst s) = true <-> has_current s) /\
  (has_current s -> needDescramble (inst s) = true).
Proof.
  revert s.
  apply (reachable_invariant calculateMD5
           (fun s => isVisible (inst s) = true ->
              (loading (inst s) = true <-> has_current s) /\
              (has_current s -> needDescramble (inst s) = true))).
  - intros. simpl in *. discriminate.
  - intros e s0 s' Hr Hinv Hd. exact (dispatch_spinner_inv e s0 s' Hr Hinv Hd).
Qed.

(** X3. In every reachable state of a visible instance the spinner turns
    exactly while the load that holds the current token is in flight: it
    cannot stay on once that load has completed or has been superseded by a
    call that returned early, and it is never off while that load is still
    awaited. *)
Theorem spinner_while_current s :
  reachable calculateMD5 s ->
  isVisible (inst s) = true ->
  (loading (inst s) = true <-> has_current s).
Proof.
  intros Hr Hv. exact (proj1 (reachable_spinner s Hr Hv)).
Qed.

(** X4. When the load that holds the current token fails, the instance
    falls back to the plain image: the [img] element is rendered, the
    spinner is off, the canvas is left as it was and no load in flight is
    current any more. *)
Theorem current_error_shows_img s (i : nat) a :
  reachable calculateMD5 s ->
  pending s !! i = Some a ->
  myToken a = loadToken (inst s) ->
  exists s', dispatch calculateMD5 (Error i) s = Some s' /\
    shows_img (inst s') = true /\
    loading (inst s') = false /\
    canvas (inst s') = canvas (inst s) /\
    ~ has_current s'.
Proof.
  intros Hr Hi Ha. eexists. split; [simpl; rewrite Hi; reflexivity|].
  assert (Hv : isVisible (inst s) = true).
  { pose proof (reachable_gate_inv calculateMD5 s Hr) as Hg. unfold gate_inv in Hg.
    destruct (isVisible (inst s)); [reflexivity|].
    destruct Hg as (_ & Hp & _). rewrite Hp in Hi. discriminate. }
  simpl. unfold onerror. rewrite Ha, Z.eqb_refl. simpl.
  split; [unfold shows_img; simpl; exact Hv|]. split; [reflexivity|].
  split; [reflexivity|].
  apply (has_current_delete_current s i a _ Hr Hi Ha). reflexivity.
Qed.

End Spinner.

(** ** The reconstruction keeps every row *)

Section Rows.

Context {row : Type}.
Variables (rs : list row) (n : Z).
Hypothesis Hn : 2 <= n.

Local Abbreviation H := (Z.of_nat (List.length rs)).

(** The first [k] blocks, one after the other, are the rows above the end
    of block [k - 1]. *)
Lemma concat_blocks_prefix (k : nat) :
  (k <= Z.to_nat n)%nat ->
  concat (map (slice rs)
            (map (fun i => ((H / n) * i, block_end H n i))
               (map Z.of_nat (seq 0 k))))
  = take (Z.to_nat (match k with O => 0 | S k' => block_end H n (Z.of_nat k') end)) rs.
Proof.
  pose proof (base_nonneg H n Hn ltac:(lia)) as Hb.
  induction k as [|k IH]; intros Hk; [reflexivity|].
  rewrite seq_S, !map_app, concat_app, IH by lia. simpl. rewrite app_nil_r.
  unfold slice. simpl fst. simpl snd.
  assert (Hprev : match k with O => 0 | S k' => block_end H n (Z.of_nat k') end
                  = (H / n) * Z.of_nat k).
  { destruct k as [|k']; [lia|]. rewrite end_of_inner by lia. f_equal. lia. }
  rewrite Hprev, take_take_drop. f_equal.
  assert (Hle : (H / n) * Z.of_nat k <= block_end H n (Z.of_nat k)).
  { unfold block_end. destruct (Z.of_nat k =? n - 1).
    - pose proof (Z.rem_nonneg H n ltac:(lia) ltac:(lia)). nia.
    - nia. }
  nia.
Qed.

(** The source blocks of [cutImage], taken in order, are the image. *)
Lemma concat_blocks :
  concat (map (slice rs) (build_blocks H n)) = rs.
Proof.
  rewrite build_blocks_eq by exact Hn.
  rewrite concat_blocks_prefix by lia.
  destruct (Z.to_nat n) as [|k'] eqn:E; [lia|].
  replace (Z.of_nat k') with (n - 1) by lia.
  rewrite end_of_last by lia. apply take_ge. lia.
Qed.

Lemma concat_map_rev {A B : Type} (g : A -> list B) (l : list A) :
  concat (map g (rev l)) ≡ₚ concat (map g l).
Proof.
  induction l as [|x l IH]; [reflexivity|].
  simpl. rewrite map_app, concat_app. simpl. rewrite app_nil_r, IH.
  apply Permutation_app_comm.
Qed.

(** X5. For [n >= 2] slices the source blocks of [cutImage], one after the
    other, are exactly the rows of the image, and what [cutImage] leaves on
    the canvas is a rearrangement of them: no row is lost, none is drawn
    twice, whatever the height. *)
Theorem reassemble_permutation :
  concat (map (slice rs) (build_blocks H n)) = rs /\
  reassemble rs n ≡ₚ rs /\
  List.length (reassemble rs n) = List.length rs.
Proof.
  assert (Hp : reassemble rs n ≡ₚ rs).
  { unfold reassemble. rewrite concat_map_rev, concat_blocks. reflexivity. }
  split; [exact concat_blocks|]. split; [exact Hp|].
  rewrite Hp. reflexivity.
Qed.

End Rows.

(** X5 at a concrete input: seven rows in three slices. *)
Lemma reassemble_permutation_witness :
  reassemble [0; 1; 2; 3; 4; 5; 6]%nat 3 = [4; 5; 6; 2; 3; 0; 1]%nat /\
  reassemble [0; 1; 2; 3; 4; 5; 6]%nat 3 ≡ₚ [0; 1; 2; 3; 4; 5; 6]%nat.
Proof.
  split; [reflexivity|].
  apply (reassemble_permutation [0; 1; 2; 3; 4; 5; 6]%nat 3). lia.
Defined.

(** ** The slice count of the loads in flight *)

Section Slices.

Variable calculateMD5 : string -> string.
Context {row : Type}.
Implicit Types (this : @Instance row) (a : Attempt) (img : Image row)
  (s : @System row).

(** The values of [getSegmentationNum]: 0, an even number from 2 to 20, or
    [NaN] when the digest is the empty string. *)
Lemma getSegmentationNum_values (epsId scrambleId pictureName : value) :
  getSegmentationNum calculateMD5 epsId scrambleId pictureName = Int 0 \/
  even_slices (getSegmentationNum calculateMD5 epsId scrambleId pictureName) \/
  (getSegmentationNum calculateMD5 epsId scrambleId pictureName = NaN /\
   exists x, calculateMD5 x = EmptyString).
Proof.
  destruct (parseInt epsId) as [|z] eqn:He.
  { left. unfold getSegmentationNum. rewrite He. reflexivity. }
  rewrite (getSegmentationNum_parsed calculateMD5 _ _ _ z He).
  destruct (z <? normalized_epoch scrambleId); [left; reflexivity|].
  destruct (z <? 268850); [right; left; exists 5; split; [lia | reflexivity]|].
  cbv zeta.
  destruct (last_char (calculateMD5 (decimal z +:+ ToString pictureName)))
    as [c|] eqn:Hc.
  - right. left. pose proof (code_range c).
    destruct (421926 <? z); rewrite slices_of_code by lia.
    + exists (code c mod 8 + 1).
      pose proof (Z.mod_pos_bound (code c) 8 ltac:(lia)).
      split; [lia | f_equal; lia].
    + exists (code c mod 10 + 1).
      pose proof (Z.mod_pos_bound (code c) 10 ltac:(lia)).
      split; [lia | f_equal; lia].
  - right. right. split; [destruct (421926 <? z); reflexivity|].
    exists (decimal z +:+ ToString pictureName).
    destruct (calculateMD5 (decimal z +:+ ToString pictureName)) as [|c0 h];
      [reflexivity|].
    exfalso. revert c0 Hc. induction h as [|c1 h IH]; intros c0 Hc;
      [discriminate|]. exact (IH c1 Hc).
Qed.

(** X8. [loadImage] parses the identifiers before it passes them on, and
    [getSegmentationNum] parses them again: for identifiers that parse to
    safe integers (or to [NaN]) the second parse changes nothing, and the
    slice count of [loadImage] is that of the rule at the props as they
    are and at the first dot-separated part of the page name.  (From
    [10^21] on the second parse reads the exponent notation and gives
    another number.) *)
Theorem loadImage_sliceCount_props this :
  safe_integer (parseInt (comicId this)) ->
  safe_integer (parseInt (scrambleId this)) ->
  exists base ws,
    split "." (page this) = base :: ws /\
    loadImage_sliceCount calculateMD5 this
    = getSegmentationNum calculateMD5 (comicId this) (scrambleId this) (VString base).
Proof.
  intros Hcomic Hscramble.
  assert (Hs : exists base ws, split "." (page this) = base :: ws).
  { destruct (page this) as [|c p]; simpl; [eauto|].
    destruct (Ascii.eqb c "."); [eauto|].
    destruct (split "." p); eauto. }
  destruct Hs as (base & ws & Hs). exists base, ws. split; [exact Hs|].
  unfold loadImage_sliceCount. cbv zeta. rewrite Hs. simpl lookup.
  unfold getSegmentationNum. rewrite !parseInt_number. reflexivity.
Qed.

Lemma reachable_slices s :
  reachable calculateMD5 s ->
  forall i a, pending s !! i = Some a ->
    even_slices (sliceCount a) \/
    (sliceCount a = NaN /\ exists x, calculateMD5 x = EmptyString).
Proof.
  revert s.
  apply (reachable_invariant calculateMD5
           (fun s => forall i a, pending s !! i = Some a ->
              even_slices (sliceCount a) \/
              (sliceCount a = NaN /\ exists x, calculateMD5 x = EmptyString))).
  - intros src0 cid sid page0 i a Hi. simpl in Hi. rewrite lookup_nil in Hi.
    discriminate.
  - intros e s s' _ Hinv Hd.
    assert (Hstart : forall this i a,
              pending (start calculateMD5 s this) !! i = Some a ->
              even_slices (sliceCount a) \/
              (sliceCount a = NaN /\ exists x, calculateMD5 x = EmptyString)).
    { intros this i a Hi.
      destruct (start_inst calculateMD5 s this) as [_ Hp]. rewrite Hp in Hi.
      apply lookup_app_Some in Hi as [Hi | [_ Hi]]; [exact (Hinv i a Hi)|].
      pose proof (loadImage_flags calculateMD5 this) as Hf.
      destruct (snd (loadImage calculateMD5 this)) as [a'|]; simpl in Hi.
      2:{ rewrite lookup_nil in Hi. discriminate. }
      destruct (i - List.length (pending s))%nat; [|discriminate].
      injection Hi as <-. destruct Hf as (_ & _ & _ & Hsc & Hle).
      rewrite Hsc in Hle |- *. unfold loadImage_sliceCount in *. cbv zeta in *.
      match goal with
      | |- context [getSegmentationNum calculateMD5 ?e ?c ?p] =>
          destruct (getSegmentationNum_values e c p) as [H0 | [Hev | Hnan]]
      end.
      - rewrite H0 in Hle. discriminate.
      - left. exact Hev.
      - right. exact Hnan. }
    destruct e as [b|src' cid' sid' page'|i img|i|]; simpl in Hd.
    + destruct (observer (inst s)); try discriminate.
      destruct b; [|injection Hd as <-; exact Hinv].
      injection Hd as <-. simpl. apply Hstart.
    + destruct (String.eqb src' (src (inst s))); [injection Hd as <-; exact Hinv|].
      destruct (isVisible _); injection Hd as <-; [apply Hstart | exact Hinv].
    + destruct (pending s !! i) as [a|]; [|discriminate]. injection Hd as <-.
      intros j b Hj. simpl in Hj.
      destruct (lookup_delete_Some _ _ _ _ Hj) as [j' Hj']. exact (Hinv j' b Hj').
    + destruct (pending s !! i) as [a|]; [|discriminate]. injection Hd as <-.
      intros j b Hj. simpl in Hj.
      destruct (lookup_delete_Some _ _ _ _ Hj) as [j' Hj']. exact (Hinv j' b Hj').
    + injection Hd as <-. exact Hinv.
Qed.

(** X6. With a digest that is never the empty string, every load in flight
    carries a slice count that is an even number from 2 to 20: the guard of
    [cutImage] on the slice count never fires from [onload]. *)
Theorem attempts_even_slices s (i : nat) a :
  (forall x, calculateMD5 x <> EmptyString) ->
  reachable calculateMD5 s ->
  pending s !! i = Some a ->
  even_slices (sliceCount a).
Proof.
  intros Hne Hr Hi.
  destruct (reachable_slices s Hr i a Hi) as [Hev | (_ & x & Hx)]; [exact Hev|].
  exfalso. exact (Hne x Hx).
Qed.

(** X7. When the load that holds the current token succeeds on a mounted
    instance (the digest never being empty), the canvas is shown, has the
    size of the image and holds its rows as [cutImage] rearranges them for
    the slice count of the attempt; the spinner is off and the plain [img]
    element is not rendered. *)
Theorem current_load_shows_canvas s (i : nat) a img c :
  (forall x, calculateMD5 x <> EmptyString) ->
  reachable calculateMD5 s ->
  pending s !! i = Some a ->
  myToken a = loadToken (inst s) ->
  canvas (inst s) = Some c ->
  exists s' k,
    dispatch calculateMD5 (Load i img) s = Some s' /\
    1 <= k <= 10 /\ sliceCount a = Int (2 * k) /\
    canvas (inst s')
      = Some {| width := Z.of_nat (naturalWidth img);
                height := naturalHeight img;
                style_display := "block";
                bitmap := Some <$> reassemble (rows img) (2 * k) |} /\
    loading (inst s') = false /\
    shows_img (inst s') = false /\
    ~ has_current s'.
Proof.
  intros Hne Hr Hi Ha Hc.
  destruct (reachable_slices s Hr i a Hi) as [(k & Hk & Hsc) | (_ & x & Hx)];
    [|exfalso; exact (Hne x Hx)].
  assert (Hv : isVisible (inst s) = true).
  { pose proof (reachable_gate_inv calculateMD5 s Hr) as Hg. unfold gate_inv in Hg.
    destruct (isVisible (inst s)); [reflexivity|].
    destruct Hg as (_ & Hp & _). rewrite Hp in Hi. discriminate. }
  assert (Hnd : needDescramble (inst s) = true).
  { apply (reachable_spinner calculateMD5 s Hr Hv). exists i, a. auto. }
  eexists. exists k. split; [simpl; rewrite Hi; reflexivity|].
  split; [exact Hk|]. split; [exact Hsc|].
  simpl. unfold onload. rewrite Ha, Z.eqb_refl. simpl.
  rewrite Hsc, (cutImage_unfold img (2 * k) (inst s) c Hc) by lia.
  rewrite (draw_blocks_bitmap img (2 * k) c) by lia.
  simpl. split; [reflexivity|]. split; [reflexivity|].
  split; [unfold shows_img; simpl; rewrite Hnd; reflexivity|].
  apply (has_current_delete_current calculateMD5 s i a _ Hr Hi Ha). reflexivity.
Qed.

End Slices.

(** ** The invariants at concrete states *)

Lemma sample_system_reachable : reachable stub_a sample_system.
Proof.
  exists "u1", (VString "500000"), VUndefined, "00001.webp", [Intersect true].
  reflexivity.
Qed.

(** X1 at a concrete state: the props change and the observer reports no
    intersection; nothing has been loaded. *)
Lemma hidden_instance_idle_witness :
  exists s, run stub_a [Update "u2" (VString "500000") VUndefined "00002.webp";
                        Intersect false]
              (@mount nat "u1" (VString "500000") VUndefined "00001.webp") = Some s /\
    loadToken (inst s) = 0 /\ pending s = [].
Proof.
  eexists. split; [reflexivity|].
  match goal with
  | |- loadToken (inst ?s) = 0 /\ _ =>
      destruct (hidden_instance_idle stub_a s) as (H1 & H2 & _)
  end.
  - exists "u1", (VString "500000"), VUndefined, "00001.webp",
      [Update "u2" (VString "500000") VUndefined "00002.webp"; Intersect false].
    reflexivity.
  - reflexivity.
  - split; assumption.
Defined.

(** X2 at a concrete state. *)
Lemma visible_observer_disconnected_witness :
  dispatch stub_a (Intersect true) sample_system = None.
Proof.
  apply (visible_observer_disconnected stub_a sample_system).
  - exact sample_system_reachable.
  - reflexivity.
Defined.

(** X3 at a concrete state: the first load is in flight, the spinner is
    on. *)
Lemma spinner_while_current_witness : has_current sample_system.
Proof.
  apply (spinner_while_current stub_a sample_system).
  - exact sample_system_reachable.
  - reflexivity.
  - reflexivity.
Defined.

(** X4 at a concrete state: the first load fails. *)
Lemma current_error_shows_img_witness :
  exists s', dispatch stub_a (Error 0%nat) sample_system = Some s' /\
    shows_img (inst s') = true.
Proof.
  destruct (current_error_shows_img stub_a sample_system 0%nat sample_attempt1
              sample_system_reachable eq_refl eq_refl) as (s' & Hd & Hs & _).
  exists s'. split; assumption.
Defined.

(** X6 at a concrete state. *)
Lemma attempts_even_slices_witness : even_slices (sliceCount sample_attempt1).
Proof.
  apply (attempts_even_slices stub_a sample_system 0%nat sample_attempt1).
  - intros x. discriminate.
  - exact sample_system_reachable.
  - reflexivity.
Defined.

(** X7 at a concrete state: the first load succeeds with an image of 6
    rows. *)
Lemma current_load_shows_canvas_witness :
  exists s', dispatch stub_a (Load 0%nat (sample_image 6)) sample_system = Some s' /\
    option_map bitmap (canvas (inst s'))
      = Some [Some 3; Some 4; Some 5; Some 2; Some 1; Some 0]%nat.
Proof.
  destruct (current_load_shows_canvas stub_a sample_system 0%nat sample_attempt1
              (sample_image 6) new_canvas
              ltac:(intros x; discriminate) sample_system_reachable
              eq_refl eq_refl eq_refl) as (s' & k & Hd & Hk & Hsc & Hc & _).
  exists s'. split; [exact Hd|].
  rewrite Hc. simpl option_map. injection Hsc as Hsc.
  replace (2 * k) with 4 by lia. reflexivity.
Defined.

(** ** The root component: lists *)

Section Lists.

Lemma strict_eq_true (a b : value) : strict_eq a b = true -> a = b.
Proof.
  destruct a as [| |[|x]|s], b as [| |[|y]|t]; simpl; try discriminate; try reflexivity.
  - intros Hxy. apply Z.eqb_eq in Hxy. congruence.
  - intros Hst. apply String.eqb_eq in Hst. congruence.
Qed.

Lemma same_value_zero_true (a b : value) : same_value_zero a b = true <-> a = b.
Proof.
  split.
  - destruct a as [| |[|x]|s], b as [| |[|y]|t]; simpl; try discriminate; try reflexivity.
    + intros Hxy. apply Z.eqb_eq in Hxy. congruence.
    + intros Hst. apply String.eqb_eq in Hst. congruence.
  - intros <-. destruct a as [| |[|x]|s]; simpl; try reflexivity.
    + apply Z.eqb_refl.
    + apply String.eqb_refl.
Qed.

(** A value that is [===] to itself: any value but [NaN]. *)
Lemma strict_eq_same_value_zero (a b : value) :
  strict_eq b b = true -> strict_eq a b = same_value_zero a b.
Proof.
  destruct a as [| |[|x]|s], b as [| |[|y]|t]; simpl; try reflexivity; discriminate.
Qed.

Context {A : Type}.
Implicit Types (f g : A -> bool) (l : list A).

Lemma findIndex_from_spec f l (i : Z) :
  (findIndex_from f l i = -1 /\ existsb f l = false) \/
  (exists (k : nat) (x : A),
     findIndex_from f l i = i + Z.of_nat k /\ l !! k = Some x /\ f x = true /\
     forall (j : nat) (y : A), (j < k)%nat -> l !! j = Some y -> f y = false) \/
  i < 0.
Proof.
  destruct (Z.ltb_spec i 0) as [Hneg|Hi]; [right; right; exact Hneg|].
  revert i Hi. induction l as [|x l IH]; intros i Hi; simpl.
  - left. split; reflexivity.
  - destruct (f x) eqn:Hfx.
    + right. left. exists 0%nat, x. repeat split; [lia | exact Hfx |].
      intros j y Hj. lia.
    + destruct (IH (i + 1) ltac:(lia)) as [[H1 H2] | [(k & y & H1 & H2 & H3 & H4) | Hneg]];
        [left | right; left | lia].
      * split; [exact H1 | exact H2].
      * exists (S k), y. repeat split; [lia | exact H2 | exact H3 |].
        intros [|j] z Hj Hz; simpl in Hz; [congruence|].
        apply (H4 j z); [lia | exact Hz].
Qed.

(** [findIndex] gives [-1] when nothing matches, and the index of the first
    match otherwise; [splice] then removes that match. *)
Lemma findIndex_spec f l :
  (findIndex f l = -1 /\ existsb f l = false) \/
  (exists (k : nat) (x : A),
     findIndex f l = Z.of_nat k /\ l !! k = Some x /\ f x = true /\
     (forall (j : nat) (y : A), (j < k)%nat -> l !! j = Some y -> f y = false) /\
     splice1 (findIndex f l) l = delete k l).
Proof.
  unfold findIndex.
  destruct (findIndex_from_spec f l 0) as [H1 | [(k & x & H1 & H2 & H3 & H4) | Hneg]];
    [left; exact H1 | right | lia].
  rewrite Z.add_0_l in H1.
  exists k, x. repeat split; [exact H1 | exact H2 | exact H3 | exact H4 |].
  rewrite H1. unfold splice1.
  apply lookup_lt_Some in H2.
  destruct (Z.ltb_spec (Z.of_nat k) 0); [lia|].
  f_equal. lia.
Qed.

Lemma filter_length_delete g l (k : nat) (x : A) :
  l !! k = Some x ->
  Z.of_nat (List.length (List.filter g (delete k l)))
  = Z.of_nat (List.length (List.filter g l)) - (if g x then 1 else 0).
Proof.
  intros Hk. rewrite delete_take_drop.
  rewrite <- (take_drop_middle l k x Hk) at 3.
  rewrite !List.filter_app, !length_app. simpl.
  destruct (g x); simpl; lia.
Qed.

Lemma existsb_filter g l :
  existsb g l = (0 <? Z.of_nat (List.length (List.filter g l))).
Proof.
  induction l as [|x l IH]; [reflexivity|]. simpl.
  destruct (g x); simpl; [|exact IH].
  symmetry. apply Z.ltb_lt. lia.
Qed.

End Lists.

Section Favorites.

Implicit Types (album : Album) (favorites : list Favorite).

Lemma toggleFavorite_cases album favorites :
  (isFavorite (album_id album) favorites = false /\
   toggleFavorite album favorites
   = favorites ++ [{| fav_album_id := album_id album;
                      fav_title := album_title album;
                      fav_author := album_author album;
                      fav_image := album_image album;
                      fav_category := VString "Favorite" |}]) \/
  (exists (k : nat) (x : Favorite),
     favorites !! k = Some x /\ fav_album_id x = album_id album /\
     strict_eq (album_id album) (album_id album) = true /\
     (forall (j : nat) (y : Favorite), (j < k)%nat -> favorites !! j = Some y ->
        strict_eq (fav_album_id y) (album_id album) = false) /\
     toggleFavorite album favorites = delete k favorites).
Proof.
  unfold toggleFavorite, isFavorite. cbv zeta.
  destruct (findIndex_spec (fun f => strict_eq (fav_album_id f) (album_id album))
              favorites) as [[H1 H2] | (k & x & H1 & H2 & H3 & H4 & H5)].
  - left. rewrite H1. split; [exact H2 | reflexivity].
  - right. exists k, x. pose proof (strict_eq_true _ _ H3) as Heq.
    rewrite H5, H1. destruct (Z.eqb_spec (Z.of_nat k) (-1)); [lia|].
    repeat split; try assumption. rewrite <- Heq at 1. exact H3.
Qed.

(** X9. For an album whose id is not [NaN], [toggleFavorite] changes the
    number of entries of that album by exactly one: from none to one, and
    down by one otherwise; so it flips
    [isFavorite] as long as the list holds at most one entry of the album
    (a list with two entries of it still reports a favorite after one
    toggle).  The entries and the status of every other album stay as they
    are. *)
Theorem toggleFavorite_count album favorites :
  strict_eq (album_id album) (album_id album) = true ->
  fav_count (album_id album) (toggleFavorite album favorites)
    = (if fav_count (album_id album) favorites =? 0 then 1
       else fav_count (album_id album) favorites - 1) /\
  (fav_count (album_id album) favorites <= 1 ->
   isFavorite (album_id album) (toggleFavorite album favorites)
     = negb (isFavorite (album_id album) favorites)) /\
  (forall albumId, strict_eq (album_id album) albumId = false ->
     fav_count albumId (toggleFavorite album favorites) = fav_count albumId favorites /\
     isFavorite albumId (toggleFavorite album favorites) = isFavorite albumId favorites).
Proof.
  intros Hid. unfold fav_count, isFavorite. rewrite !existsb_filter.
  destruct (toggleFavorite_cases album favorites)
    as [[Hno ->] | (k & x & Hk & Hx & _ & _ & ->)].
  - unfold isFavorite in Hno. rewrite existsb_filter in Hno.
    apply Z.ltb_ge in Hno.
    rewrite !List.filter_app, !length_app. simpl. rewrite Hid. simpl.
    set (c := Z.of_nat (List.length (List.filter _ favorites))) in *.
    assert (Hc : c = 0) by lia.
    split; [rewrite Nat2Z.inj_add; fold c; rewrite Hc; reflexivity|].
    split.
    + intros _. rewrite Nat2Z.inj_add. fold c. rewrite Hc. reflexivity.
    + intros albumId Hne. rewrite !existsb_filter.
      rewrite List.filter_app, length_app. simpl.
      rewrite Hne. simpl. rewrite Nat.add_0_r. split; reflexivity.
  - rewrite (filter_length_delete _ favorites k x Hk), Hx, Hid.
    set (c := Z.of_nat (List.length (List.filter _ favorites))) in *.
    assert (Hc : 0 < c).
    { subst c. rewrite <- (take_drop_middle favorites k x Hk).
      rewrite List.filter_app, length_app. simpl. rewrite Hx, Hid. simpl. lia. }
    split; [destruct (Z.eqb_spec c 0); lia|].
    split.
    + intros Hle. assert (c = 1) as -> by lia. reflexivity.
    + intros albumId Hne. rewrite !existsb_filter.
      rewrite (filter_length_delete _ favorites k x Hk), Hx, Hne, Z.sub_0_r.
      split; reflexivity.
Qed.

(** X10. Toggling twice an album that is not a favorite (and whose id is
    not [NaN]) gives back the very list of favorites. *)
Theorem toggleFavorite_twice album favorites :
  strict_eq (album_id album) (album_id album) = true ->
  isFavorite (album_id album) favorites = false ->
  toggleFavorite album (toggleFavorite album favorites) = favorites.
Proof.
  intros Hid Hno.
  destruct (toggleFavorite_cases album favorites)
    as [[_ ->] | (k & x & Hk & Hx & _ & _ & _)].
  2:{ exfalso. unfold isFavorite in Hno.
      rewrite <- (take_drop_middle favorites k x Hk), existsb_app in Hno.
      simpl in Hno. rewrite Hx, Hid, orb_true_r in Hno. discriminate. }
  set (e := {| fav_album_id := album_id album; fav_title := album_title album;
               fav_author := album_author album; fav_image := album_image album;
               fav_category := VString "Favorite" |}).
  destruct (toggleFavorite_cases album (favorites ++ [e]))
    as [[Hno' _] | (k & x & Hk & Hx & _ & Hfirst & ->)].
  { exfalso. unfold isFavorite in Hno'. rewrite existsb_app in Hno'.
    simpl in Hno'. rewrite Hid, orb_true_r in Hno'. discriminate. }
  assert (Hkl : k = List.length favorites).
  { destruct (Nat.lt_trichotomy k (List.length favorites)) as [Hlt | [Heq | Hgt]];
      [exfalso | exact Heq | exfalso].
    - rewrite lookup_app_l in Hk by exact Hlt.
      unfold isFavorite in Hno.
      rewrite <- (take_drop_middle favorites k x Hk), existsb_app in Hno.
      simpl in Hno. rewrite Hx, Hid, orb_true_r in Hno. discriminate.
    - apply lookup_lt_Some in Hk. rewrite length_app in Hk. simpl in Hk. lia. }
  subst k. rewrite (delete_middle favorites [] e). apply app_nil_r.
Qed.

End Favorites.

Section Selection.

Implicit Types (ep : Episode) (sel : list value).

Lemma includes_elem_of (v : value) sel : includes v sel = true <-> v ∈ sel.
Proof.
  unfold includes. rewrite existsb_exists. split.
  - intros (x & Hin & Hx). apply same_value_zero_true in Hx. subst x.
    apply list_elem_of_In. exact Hin.
  - intros Hin. exists v. split; [apply list_elem_of_In; exact Hin|].
    apply same_value_zero_true. reflexivity.
Qed.

Lemma includes_iff (v v' : value) sel sel' :
  (v ∈ sel <-> v' ∈ sel') -> includes v sel = includes v' sel'.
Proof.
  intros Hiff. rewrite <- !includes_elem_of in Hiff.
  destruct (includes v sel), (includes v' sel'); try reflexivity.
  - symmetry. apply Hiff. reflexivity.
  - apply Hiff. reflexivity.
Qed.

Lemma includes_negb (v v' : value) sel sel' :
  (v ∈ sel <-> v' ∉ sel') -> includes v sel = negb (includes v' sel').
Proof.
  intros Hiff. rewrite <- !includes_elem_of in Hiff.
  destruct (includes v sel), (includes v' sel'); try reflexivity.
  - exfalso. apply (proj1 Hiff); reflexivity.
  - simpl. apply Hiff. discriminate.
Qed.

Lemma handleChapterClick_cases ep sel :
  strict_eq (ep_id ep) (ep_id ep) = true ->
  ((ep_id ep ∉ sel) /\
   handleChapterClick true ep sel = (sel ++ [ep_id ep], None)) \/
  (exists k : nat, sel !! k = Some (ep_id ep) /\
     handleChapterClick true ep sel = (delete k sel, None)).
Proof.
  intros Hid. unfold handleChapterClick, indexOf. cbv zeta.
  destruct (findIndex_spec (fun x => strict_eq x (ep_id ep)) sel)
    as [[H1 H2] | (k & x & H1 & H2 & H3 & _ & H5)].
  - left. rewrite H1. split; [|reflexivity].
    intros Hin. apply list_elem_of_In in Hin.
    assert (Hex : existsb (fun x => strict_eq x (ep_id ep)) sel = true).
    { apply existsb_exists. exists (ep_id ep). split; [exact Hin | exact Hid]. }
    congruence.
  - right. exists k. apply strict_eq_true in H3. subst x.
    split; [exact H2|]. rewrite H5, H1.
    destruct (Z.eqb_spec (Z.of_nat k) (-1)); [lia | reflexivity].
Qed.

Lemma isSelected_count (v : value) sel :
  strict_eq v v = true -> isSelected v sel = (0 <? sel_count v sel).
Proof.
  intros Hv. unfold isSelected, includes, sel_count. rewrite <- existsb_filter.
  induction sel as [|x sel IH]; [reflexivity|]. simpl.
  rewrite IH, (strict_eq_same_value_zero x v Hv). reflexivity.
Qed.

Lemma sel_count_absent (v : value) sel : (v ∉ sel) -> sel_count v sel = 0.
Proof.
  unfold sel_count. induction sel as [|x sel IH]; intros Hno; [reflexivity|].
  simpl. destruct (strict_eq x v) eqn:Hx.
  - exfalso. apply Hno. apply strict_eq_true in Hx. subst x. left.
  - apply IH. intros Hin. apply Hno. right. exact Hin.
Qed.

Lemma sel_count_NoDup (v : value) sel : NoDup sel -> sel_count v sel <= 1.
Proof.
  induction 1 as [|x sel Hx Hnd IH]; [unfold sel_count; simpl; lia|].
  unfold sel_count in *. simpl. destruct (strict_eq x v) eqn:Hxv; [|exact IH].
  apply strict_eq_true in Hxv. subst x.
  pose proof (sel_count_absent v sel Hx) as H0. unfold sel_count in H0.
  simpl. lia.
Qed.

(** X11. In selection mode a click on a chapter whose id is not [NaN]
    changes the number of times that the id is in the selection by one: it
    appends the id when it is not there and removes its first occurrence
    otherwise.  So the click flips [isSelected] for that chapter when the
    id is there at most once, as in a selection without repetition, which
    stays without repetition; an id that is there several times, as
    [selectAll] leaves it for episodes of the same id, is still selected
    after the click.  No other chapter changes.  Out of selection mode the
    click leaves the selection alone and opens the chapter. *)
Theorem handleChapterClick_toggle ep sel :
  strict_eq (ep_id ep) (ep_id ep) = true ->
  snd (handleChapterClick true ep sel) = None /\
  sel_count (ep_id ep) (fst (handleChapterClick true ep sel))
    = (if sel_count (ep_id ep) sel =? 0 then 1 else sel_count (ep_id ep) sel - 1) /\
  (sel_count (ep_id ep) sel <= 1 ->
   isSelected (ep_id ep) (fst (handleChapterClick true ep sel))
     = negb (isSelected (ep_id ep) sel)) /\
  (1 < sel_count (ep_id ep) sel ->
   isSelected (ep_id ep) (fst (handleChapterClick true ep sel)) = true) /\
  (NoDup sel ->
   NoDup (fst (handleChapterClick true ep sel)) /\
   isSelected (ep_id ep) (fst (handleChapterClick true ep sel))
     = negb (isSelected (ep_id ep) sel)) /\
  (forall epId, epId <> ep_id ep ->
     isSelected epId (fst (handleChapterClick true ep sel)) = isSelected epId sel) /\
  handleChapterClick false ep sel = (sel, Some (ep_id ep, ep_title ep)).
Proof.
  intros Hid.
  assert (Hcount : sel_count (ep_id ep) (fst (handleChapterClick true ep sel))
            = (if sel_count (ep_id ep) sel =? 0 then 1
               else sel_count (ep_id ep) sel - 1)).
  { destruct (handleChapterClick_cases ep sel Hid) as [[Hno ->] | (k & Hk & ->)];
      cbn [fst].
    - rewrite (sel_count_absent _ _ Hno). unfold sel_count.
      rewrite List.filter_app, length_app. simpl. rewrite Hid. simpl.
      pose proof (sel_count_absent _ _ Hno) as H0. unfold sel_count in H0. lia.
    - unfold sel_count.
      rewrite (filter_length_delete _ sel k (ep_id ep) Hk), Hid.
      set (c := Z.of_nat (List.length (List.filter _ sel))).
      assert (Hc : 0 < c).
      { subst c. rewrite <- (take_drop_middle sel k (ep_id ep) Hk).
        rewrite List.filter_app, length_app. simpl. rewrite Hid. simpl. lia. }
      destruct (Z.eqb_spec c 0); lia. }
  assert (Hflip : sel_count (ep_id ep) sel <= 1 ->
            isSelected (ep_id ep) (fst (handleChapterClick true ep sel))
            = negb (isSelected (ep_id ep) sel)).
  { intros Hle. rewrite !(isSelected_count _ _ Hid), Hcount.
    pose proof (Zle_0_nat (List.length
                  (List.filter (fun x => strict_eq x (ep_id ep)) sel))) as H0.
    fold (sel_count (ep_id ep) sel) in H0.
    destruct (Z.eqb_spec (sel_count (ep_id ep) sel) 0) as [->|Hne]; [reflexivity|].
    assert (sel_count (ep_id ep) sel = 1) as -> by lia. reflexivity. }
  split.
  { destruct (handleChapterClick_cases ep sel Hid) as [[_ ->] | (k & _ & ->)];
      reflexivity. }
  split; [exact Hcount|]. split; [exact Hflip|]. split.
  { intros Hgt. rewrite (isSelected_count _ _ Hid), Hcount.
    destruct (Z.eqb_spec (sel_count (ep_id ep) sel) 0); [lia|].
    apply Z.ltb_lt. lia. }
  split.
  { intros Hnd. split; [|apply Hflip, sel_count_NoDup; exact Hnd].
    destruct (handleChapterClick_cases ep sel Hid) as [[Hno ->] | (k & Hk & ->)];
      cbn [fst].
    - apply NoDup_app. split; [exact Hnd|]. split; [|apply NoDup_singleton].
      intros x Hx Hx'. apply list_elem_of_singleton in Hx'. subst x. exact (Hno Hx).
    - apply (sublist_NoDup (delete k sel) sel); [exact Hnd | apply sublist_delete]. }
  split; [|reflexivity].
  intros epId Hne. unfold isSelected.
  destruct (handleChapterClick_cases ep sel Hid) as [[Hno ->] | (k & Hk & ->)];
    cbn [fst]; apply includes_iff.
  - rewrite elem_of_app, list_elem_of_singleton. tauto.
  - rewrite delete_take_drop.
    rewrite <- (take_drop_middle sel k (ep_id ep) Hk) at 3.
    rewrite !elem_of_app, elem_of_cons. tauto.
Qed.

(** X12. [selectAll] switches between everything and nothing, and decides
    by the count alone: when as many chapters are selected as the album
    has, the selection is emptied; otherwise every chapter of the album
    becomes selected, in album order; applied again it then empties the
    selection.  Without an album or without a list of episodes it does
    nothing. *)
Theorem selectAll_all_or_none (album : Album) (eps : list Episode) sel :
  episode_list album = Some eps ->
  (List.length sel = List.length eps -> selectAll (Some album) sel = []) /\
  (List.length sel <> List.length eps ->
     selectAll (Some album) sel = map ep_id eps /\
     (forall ep, ep ∈ eps -> isSelected (ep_id ep) (selectAll (Some album) sel) = true) /\
     selectAll (Some album) (selectAll (Some album) sel) = []) /\
  selectAll None sel = sel.
Proof.
  intros He. unfold selectAll. rewrite He.
  split; [|split; [|reflexivity]].
  - intros Hl. rewrite Hl, Z.eqb_refl. reflexivity.
  - intros Hl.
    destruct (Z.eqb_spec (Z.of_nat (List.length sel)) (Z.of_nat (List.length eps)));
      [lia|].
    split; [reflexivity|]. split.
    + intros ep Hin. apply includes_elem_of.
      apply list_elem_of_In, in_map, list_elem_of_In. exact Hin.
    + rewrite length_map, Z.eqb_refl. reflexivity.
Qed.

(** X13. [toggleSelectionMode] always flips the mode; leaving selection
    mode empties the selection; entering it with an album of exactly one
    episode, with an id, selects that id in its printed form, and
    [isSelected] acknowledges that preselection exactly when the id is a
    string; with a list of episodes of another length it selects
    nothing. *)
Theorem toggleSelectionMode_selection (mode : bool) (selectedAlbum : option Album) :
  fst (toggleSelectionMode mode selectedAlbum) = negb mode /\
  (mode = true -> snd (toggleSelectionMode mode selectedAlbum) = []) /\
  (forall album ep,
     mode = false -> selectedAlbum = Some album -> episode_list album = Some [ep] ->
     not_nullish (ep_id ep) = true ->
     snd (toggleSelectionMode mode selectedAlbum) = [VString (ToString (ep_id ep))] /\
     (isSelected (ep_id ep) (snd (toggleSelectionMode mode selectedAlbum)) = true
      <-> exists str, ep_id ep = VString str)) /\
  (forall album eps,
     selectedAlbum = Some album -> episode_list album = Some eps ->
     List.length eps <> 1%nat ->
     snd (toggleSelectionMode mode selectedAlbum) = []).
Proof.
  unfold toggleSelectionMode. cbv zeta.
  split; [|split; [|split]].
  - destruct mode; simpl; [reflexivity|].
    destruct selectedAlbum as [album|]; [|reflexivity].
    destruct (episode_list album) as [[|ep [|ep' eps]]|]; try reflexivity.
    destruct (not_nullish (ep_id ep)); reflexivity.
  - intros ->. reflexivity.
  - intros album ep -> -> He Hnn. cbn [negb]. rewrite He, Hnn. cbn [snd].
    split; [reflexivity|]. unfold isSelected. split.
    + intros Hin. apply includes_elem_of, list_elem_of_singleton in Hin.
      eexists. exact Hin.
    + intros [str ->]. apply includes_elem_of, list_elem_of_singleton. reflexivity.
  - intros album eps -> He Hlen. rewrite He.
    destruct mode; simpl; [reflexivity|].
    destruct eps as [|ep [|ep' eps]]; simpl in Hlen; try reflexivity. lia.
Qed.


End Selection.

Section ReaderNavigation.

Implicit Types (selectedAlbum : option Album) (readingChapter : option Chapter).

(** The index of the chapter that is read: [-1], or the first episode whose
    printed id is the printed [photo_id]. *)
Lemma getReaderChapterIndex_spec selectedAlbum readingChapter :
  getReaderChapterIndex selectedAlbum readingChapter = -1 \/
  (exists album eps chapter (k : nat) ep,
     selectedAlbum = Some album /\ episode_list album = Some eps /\
     readingChapter = Some chapter /\
     getReaderChapterIndex selectedAlbum readingChapter = Z.of_nat k /\
     eps !! k = Some ep /\
     ToString (ep_id ep)
       = ToString (or_else (photo_id chapter) (VString EmptyString)) /\
     forall (j : nat) ep', (j < k)%nat -> eps !! j = Some ep' ->
       ToString (ep_id ep')
         <> ToString (or_else (photo_id chapter) (VString EmptyString))).
Proof.
  unfold getReaderChapterIndex.
  destruct selectedAlbum as [album|]; [|left; reflexivity].
  destruct readingChapter as [chapter|]; [|left; reflexivity].
  destruct (episode_list album) as [eps|] eqn:He; [|left; reflexivity].
  cbv zeta.
  match goal with
  | |- context [findIndex ?f eps] =>
      destruct (findIndex_spec f eps) as [[H1 _] | (k & ep & H1 & H2 & H3 & H4 & _)]
  end; [left; exact H1 | right].
  exists album, eps, chapter, k, ep. repeat split; try assumption.
  - apply String.eqb_eq. exact H3.
  - intros j ep' Hj Hep'. apply String.eqb_neq. exact (H4 j ep' Hj Hep').
Qed.

(** X15. In the reader the index of the current chapter is [-1] or a
    position of the episode list, that of the first episode whose printed
    id is the printed [photo_id].  [canReadPrevChapter] and
    [canReadNextChapter] hold exactly when [readPrevChapter] and
    [readNextChapter] hand a chapter to [readChapter], and that chapter is
    the neighbour in the list: the tests on a missing episode in those two
    methods never fire.  On the first episode there is no previous chapter,
    on the last one no next chapter, and elsewhere there are both. *)
Theorem reader_navigation selectedAlbum readingChapter :
  let idx := getReaderChapterIndex selectedAlbum readingChapter in
  let total := getReaderChapterCount selectedAlbum in
  (idx = -1 \/ 0 <= idx < total) /\
  (canReadPrevChapter selectedAlbum readingChapter = true
   <-> is_Some (readPrevChapter selectedAlbum readingChapter)) /\
  (canReadNextChapter selectedAlbum readingChapter = true
   <-> is_Some (readNextChapter selectedAlbum readingChapter)) /\
  (canReadPrevChapter selectedAlbum readingChapter = true ->
   readPrevChapter selectedAlbum readingChapter = episode_at selectedAlbum (idx - 1)) /\
  (canReadNextChapter selectedAlbum readingChapter = true ->
   readNextChapter selectedAlbum readingChapter = episode_at selectedAlbum (idx + 1)) /\
  (canReadPrevChapter selectedAlbum readingChapter = true <-> 0 < idx) /\
  (canReadNextChapter selectedAlbum readingChapter = true
   <-> 0 <= idx /\ idx <> total - 1).
Proof.
  cbv zeta. unfold canReadPrevChapter, canReadNextChapter, readPrevChapter,
    readNextChapter. cbv zeta.
  assert (Hat : forall i, 0 <= i < getReaderChapterCount selectedAlbum ->
                  is_Some (episode_at selectedAlbum i)).
  { intros i Hi. unfold episode_at, getReaderChapterCount in *.
    destruct selectedAlbum as [album|]; [|lia].
    destruct (episode_list album) as [eps|]; [|lia].
    destruct (Z.ltb_spec i 0); [lia|].
    apply lookup_lt_is_Some_2. lia. }
  assert (Hidx : getReaderChapterIndex selectedAlbum readingChapter = -1 \/
                 0 <= getReaderChapterIndex selectedAlbum readingChapter
                   < getReaderChapterCount selectedAlbum).
  { destruct (getReaderChapterIndex_spec selectedAlbum readingChapter)
      as [H1 | (album & eps & chapter & k & ep & -> & He & -> & Hk & Hep & _)];
      [left; exact H1 | right].
    rewrite Hk. unfold getReaderChapterCount. rewrite He.
    apply lookup_lt_Some in Hep. lia. }
  set (idx := getReaderChapterIndex selectedAlbum readingChapter) in *.
  set (total := getReaderChapterCount selectedAlbum) in *.
  split; [exact Hidx|].
  destruct (Z.ltb_spec 0 idx) as [Hpos|Hpos];
    destruct (Z.leb_spec idx 0) as [Hle|Hle]; try lia;
    destruct (Z.leb_spec 0 idx) as [Hge|Hge];
    destruct (Z.ltb_spec idx 0) as [Hneg|Hneg]; try lia;
    destruct (Z.ltb_spec idx (total - 1)) as [Hlast|Hlast];
    destruct (Z.leb_spec (total - 1) idx) as [Hlast'|Hlast']; try lia; simpl.
  all: repeat split; try (intros; reflexivity); try (intros; lia);
       try (intros; discriminate); try (intros [x Hx]; discriminate);
       try (intros _; apply Hat; lia); try (intros [? ?]; lia).
Qed.

End ReaderNavigation.

Section CommentPages.

Lemma ceil_div20_spec (x : Z) :
  x <= 20 * ceil_div20 x /\ 20 * (ceil_div20 x - 1) < x.
Proof.
  unfold ceil_div20.
  pose proof (Z.div_mod (- x) 20 ltac:(lia)).
  pose proof (Z.mod_pos_bound (- x) 20 ltac:(lia)). lia.
Qed.

(** X16. The comments always have at least one page.  When the total sent
    by the server parses to a safe integer (below [2^53] in magnitude),
    that total is what is displayed, it fits in [totalPages] pages of 20
    and, when it is above 20, the last page is not empty.  When the total is missing or falsy the displayed
    total is 0, whatever the list holds; when it is present and does not
    parse, the displayed total is the length of the list; in both cases
    there is one page. *)
Theorem comment_pages_bounds (data_total : value) (list_length : Z) :
  1 <= comment_totalPages data_total /\
  (forall z, parseInt (or_else data_total (VNumber (Int 0))) = Int z ->
     - 2 ^ 53 < z < 2 ^ 53 ->
     comment_total data_total list_length = z /\
     z <= 20 * comment_totalPages data_total /\
     (20 < z -> 20 * (comment_totalPages data_total - 1) < z)) /\
  (truthy data_total = false ->
     comment_total data_total list_length = 0 /\ comment_totalPages data_total = 1) /\
  (truthy data_total = true -> parseInt data_total = NaN ->
     comment_total data_total list_length = list_length /\
     comment_totalPages data_total = 1).
Proof.
  unfold comment_totalPages, comment_total. cbv zeta.
  split; [lia|]. split; [|split].
  - intros z -> _. pose proof (ceil_div20_spec z). split; [reflexivity|]. lia.
  - intros Hf. unfold or_else. rewrite Hf.
    change (parseInt (VNumber (Int 0))) with (Int 0). split; reflexivity.
  - intros Ht Hn. unfold or_else. rewrite Ht, Hn. split; reflexivity.
Qed.

End CommentPages.

(** ** The tree of comments *)

Section CommentTreeFacts.

Implicit Types (items : list (option Obj)) (nodeMap : gmap value Obj)
  (order : list value) (c p : value).

(** What the first loop keeps true. *)
Lemma collect_inv items :
  NoDup (snd (fold_left collect_step items (∅, []))) /\
  (forall c, c ∈ snd (fold_left collect_step items (∅, []))
     <-> is_Some (fst (fold_left collect_step items (∅, [])) !! c)) /\
  (forall c, c ∈ snd (fold_left collect_step items (∅, []))
     <-> truthy c = true /\
         exists raw, Some raw ∈ items /\ get_prop raw "CID" = c).
Proof.
  induction items as [|x items IH] using rev_ind.
  - simpl. split; [constructor|]. split.
    + intros c. rewrite lookup_empty. split; [intros Hc | intros [? Hc]].
      * apply elem_of_nil in Hc. destruct Hc.
      * discriminate.
    + intros c. split; [intros Hc | intros (_ & raw & Hc & _)];
        apply elem_of_nil in Hc; destruct Hc.
  - rewrite fold_left_app. simpl.
    destruct (fold_left collect_step items (∅, [])) as [nodeMap order].
    simpl in IH. destruct IH as (Hnd & Hdom & Hmem).
    assert (Hskip : forall c : value,
              (truthy c = true /\ exists raw, Some raw ∈ items /\ get_prop raw "CID" = c)
              -> truthy c = true /\
                 exists raw, Some raw ∈ items ++ [x] /\ get_prop raw "CID" = c).
    { intros c (Ht & raw & Hin & Hc). split; [exact Ht|].
      exists raw. split; [apply elem_of_app; left; exact Hin | exact Hc]. }
    destruct x as [raw|]; simpl.
    2:{ split; [exact Hnd|]. split; [exact Hdom|].
        intros c. rewrite Hmem. split; [apply Hskip|].
        intros (Ht & raw & Hin & Hc). split; [exact Ht|]. exists raw.
        apply elem_of_app in Hin as [Hin | Hin]; [auto|].
        apply list_elem_of_singleton in Hin. discriminate. }
    destruct (truthy (get_prop raw "CID")) eqn:Hcid; simpl.
    2:{ split; [exact Hnd|]. split; [exact Hdom|].
        intros c. rewrite Hmem. split; [apply Hskip|].
        intros (Ht & raw' & Hin & Hc). split; [exact Ht|]. exists raw'.
        apply elem_of_app in Hin as [Hin | Hin]; [auto|].
        apply list_elem_of_singleton in Hin. injection Hin as ->.
        rewrite Hc in Hcid. congruence. }
    assert (Hnew : forall c : value,
              (truthy c = true /\
               exists raw', Some raw' ∈ items ++ [Some raw] /\ get_prop raw' "CID" = c)
              <-> (c ∈ order \/ c = get_prop raw "CID")).
    { intros c. rewrite Hmem. split.
      - intros (Ht & raw' & Hin & Hc).
        apply elem_of_app in Hin as [Hin | Hin]; [left; eauto|].
        apply list_elem_of_singleton in Hin. injection Hin as ->. right. auto.
      - intros [Hc | ->]; [apply Hskip; exact Hc|].
        split; [exact Hcid|]. exists raw. split; [|reflexivity].
        apply elem_of_app. right. apply list_elem_of_singleton. reflexivity. }
    destruct (nodeMap !! get_prop raw "CID") as [existing|] eqn:Hex; simpl.
    + assert (Hin : get_prop raw "CID" ∈ order) by (apply Hdom; eauto).
      split; [exact Hnd|]. split.
      * intros c. rewrite Hdom. destruct (decide (c = get_prop raw "CID")) as [->|Hne].
        -- rewrite lookup_insert_eq, Hex. split; eauto.
        -- rewrite lookup_insert_ne by congruence. reflexivity.
      * intros c. rewrite Hnew. split; [auto|]. intros [Hc | ->]; assumption.
    + assert (Hnin : get_prop raw "CID" ∉ order).
      { intros Hin. apply Hdom in Hin as [? Hin]. congruence. }
      split; [|split].
      * apply NoDup_app. split; [exact Hnd|]. split; [|apply NoDup_singleton].
        intros c Hc Hc'. apply list_elem_of_singleton in Hc'. subst c. auto.
      * intros c. rewrite elem_of_app, list_elem_of_singleton, Hdom.
        destruct (decide (c = get_prop raw "CID")) as [->|Hne].
        -- rewrite lookup_insert_eq. split; eauto.
        -- rewrite lookup_insert_ne by congruence. split; [|auto].
           intros [Hc | Hc]; [exact Hc | contradiction].
      * intros c. rewrite Hnew, elem_of_app, list_elem_of_singleton. reflexivity.
Qed.

Lemma children_of_insert (ch : gmap value (list value)) (p q : value) (l : list value) :
  children_of (<[p := l]> ch) q = if decide (p = q) then l else children_of ch q.
Proof.
  unfold children_of. destruct (decide (p = q)) as [->|Hne].
  - rewrite lookup_insert_eq. reflexivity.
  - rewrite lookup_insert_ne by exact Hne. reflexivity.
Qed.

(** What the third loop computes: the roots and, for every key, the
    children pushed under it, in the order of the loop. *)
Lemma attach_fold nodeMap order (rs : list value) (ch : gmap value (list value)) :
  fst (fold_left (attach_step nodeMap) order (rs, ch))
  = rs ++ List.filter
            (fun c => match nodeMap !! c with
                      | Some n => negb (has_parent nodeMap n)
                      | None => false
                      end) order /\
  forall p,
    children_of (snd (fold_left (attach_step nodeMap) order (rs, ch))) p
    = children_of ch p
      ++ List.filter
           (fun c => match nodeMap !! c with
                     | Some n => has_parent nodeMap n
                                 && bool_decide (get_prop n "parent_CID" = p)
                     | None => false
                     end) order.
Proof.
  revert rs ch. induction order as [|c order IH]; intros rs ch; simpl.
  - split; [rewrite app_nil_r; reflexivity|]. intros p. rewrite app_nil_r. reflexivity.
  - destruct (nodeMap !! c) as [n|] eqn:Hn; [|apply IH].
    destruct (has_parent nodeMap n) eqn:Hp; simpl.
    + destruct (IH rs (<[get_prop n "parent_CID" :=
                           children_of ch (get_prop n "parent_CID") ++ [c]]> ch))
        as [-> Hch].
      split; [reflexivity|]. intros p. rewrite Hch, children_of_insert.
      destruct (decide (get_prop n "parent_CID" = p)) as [<-|Hne].
      * rewrite bool_decide_eq_true_2 by reflexivity. rewrite <- app_assoc. reflexivity.
      * rewrite bool_decide_eq_false_2 by exact Hne. reflexivity.
    + destruct (IH (rs ++ [c]) ch) as [-> Hch].
      split; [rewrite <- app_assoc; reflexivity|]. exact Hch.
Qed.

Lemma buildCommentTree_fields items :
  nodes (buildCommentTree items) = fst (fold_left collect_step items (∅, [])) /\
  roots (buildCommentTree items)
  = fst (fold_left (attach_step (fst (fold_left collect_step items (∅, []))))
           (comment_order items) ([], ∅)) /\
  children (buildCommentTree items)
  = snd (fold_left (attach_step (fst (fold_left collect_step items (∅, []))))
           (comment_order items) ([], ∅)) /\
  commentNodeById (buildCommentTree items)
  = fold_left index_step (comment_order items) ∅.
Proof.
  unfold buildCommentTree, comment_order.
  destruct (fold_left collect_step items (∅, [])) as [nodeMap order]. simpl.
  destruct (fold_left (attach_step nodeMap) order ([], ∅)) as [rs ch].
  auto.
Qed.

Lemma filter_ext_elem {A : Type} (f g : A -> bool) (l : list A) :
  (forall x, x ∈ l -> f x = g x) -> List.filter f l = List.filter g l.
Proof.
  intros H. apply List.filter_ext_in. intros x Hx. apply H, list_elem_of_In, Hx.
Qed.

(** The closed form of the tree. *)
Lemma buildCommentTree_closed items :
  roots (buildCommentTree items)
  = List.filter (fun c => negb (is_attached (buildCommentTree items) c))
      (comment_order items) /\
  forall p,
    children_of (children (buildCommentTree items)) p
    = List.filter
        (fun c => is_attached (buildCommentTree items) c
                  && bool_decide (parent_of (buildCommentTree items) c = p))
        (comment_order items).
Proof.
  destruct (buildCommentTree_fields items) as (Hn & Hr & Hc & _).
  destruct (collect_inv items) as (_ & Hdom & _). fold (comment_order items) in Hdom.
  destruct (attach_fold (fst (fold_left collect_step items (∅, [])))
              (comment_order items) [] ∅) as [Hroots Hch].
  split.
  - rewrite Hr, Hroots. simpl. apply filter_ext_elem.
    intros c Hin. unfold is_attached. rewrite Hn.
    apply Hdom in Hin as [n ->]. reflexivity.
  - intros p. rewrite Hc, Hch. unfold children_of at 1. rewrite lookup_empty. simpl.
    apply filter_ext_elem. intros c Hin. unfold is_attached, parent_of. rewrite Hn.
    apply Hdom in Hin as [n ->]. reflexivity.
Qed.

End CommentTreeFacts.

Section CommentTreeTheorems.

Implicit Types (items : list (option Obj)) (c p : value).

Lemma elem_of_filter_bool {A : Type} (f : A -> bool) (l : list A) (x : A) :
  x ∈ List.filter f l <-> x ∈ l /\ f x = true.
Proof. rewrite !list_elem_of_In. apply filter_In. Qed.

Lemma NoDup_filter_bool {A : Type} (f : A -> bool) (l : list A) :
  NoDup l -> NoDup (List.filter f l).
Proof.
  induction 1 as [|x l Hx Hl IH]; simpl; [constructor|].
  destruct (f x); [|exact IH].
  constructor; [|exact IH]. rewrite elem_of_filter_bool. tauto.
Qed.

Lemma filter_sublist {A : Type} (f : A -> bool) (l : list A) :
  List.filter f l `sublist_of` l.
Proof.
  induction l as [|x l IH]; simpl; [constructor|].
  destruct (f x); [apply sublist_skip | apply sublist_cons]; exact IH.
Qed.

Lemma has_parent_spec (nodeMap : gmap value Obj) (n : Obj) :
  has_parent nodeMap n = true <->
  truthy (get_prop n "parent_CID") = true /\
  get_prop n "parent_CID" <> VString "0" /\
  is_Some (nodeMap !! get_prop n "parent_CID").
Proof.
  unfold has_parent. cbv zeta. rewrite !andb_true_iff, negb_true_iff. split.
  - intros [[Ht Hz] Hn]. split; [exact Ht|]. split.
    + intros Heq. rewrite Heq in Hz. discriminate.
    + destruct (nodeMap !! get_prop n "parent_CID"); [eauto | discriminate].
  - intros (Ht & Hz & [m Hm]). rewrite Hm. split; [split; [exact Ht|] | reflexivity].
    destruct (strict_eq (get_prop n "parent_CID") (VString "0")) eqn:E; [|reflexivity].
    apply strict_eq_true in E. contradiction.
Qed.

Lemma nodes_order items c :
  is_Some (nodes (buildCommentTree items) !! c) <-> c ∈ comment_order items.
Proof.
  destruct (buildCommentTree_fields items) as (-> & _).
  destruct (collect_inv items) as (_ & Hdom & _). symmetry. apply Hdom.
Qed.

(** X17. [buildCommentTree] makes one node for every truthy [CID] that an
    object of the list carries, and no other: objects without a [CID],
    with an empty one, and items that are not objects are left out, and a
    [CID] that comes several times gives one node. *)
Theorem buildCommentTree_nodes items c :
  is_Some (nodes (buildCommentTree items) !! c)
  <-> truthy c = true /\ exists raw, Some raw ∈ items /\ get_prop raw "CID" = c.
Proof.
  rewrite nodes_order. destruct (collect_inv items) as (_ & _ & Hmem). apply Hmem.
Qed.

(** X18. Every node is placed exactly once: either it is a root, once, and
    under no node, or it is no root and sits once under the parent that it
    names and under no other node.  Nothing else is placed: the roots and
    the children are nodes. *)
Theorem buildCommentTree_placement items c :
  let t := buildCommentTree items in
  NoDup (roots t) /\
  (forall p, NoDup (children_of (children t) p)) /\
  (is_Some (nodes t !! c) ->
   (c ∈ roots t /\ forall p, c ∉ children_of (children t) p) \/
   ((c ∉ roots t) /\ c ∈ children_of (children t) (parent_of t c) /\
    forall p, c ∈ children_of (children t) p -> p = parent_of t c)) /\
  (c ∈ roots t -> is_Some (nodes t !! c)) /\
  (forall p, c ∈ children_of (children t) p ->
     is_Some (nodes t !! c) /\ is_Some (nodes t !! p)).
Proof.
  cbv zeta. destruct (buildCommentTree_closed items) as [Hr Hc].
  destruct (collect_inv items) as (Hnd & _). fold (comment_order items) in Hnd.
  split; [rewrite Hr; apply NoDup_filter_bool; exact Hnd|].
  split; [intros p; rewrite Hc; apply NoDup_filter_bool; exact Hnd|].
  split; [|split].
  - intros Hn. apply nodes_order in Hn.
    destruct (is_attached (buildCommentTree items) c) eqn:Ha; [right | left].
    + split; [|split].
      * rewrite Hr, elem_of_filter_bool, Ha. intros [_ ?]. discriminate.
      * rewrite Hc, elem_of_filter_bool, Ha. split; [exact Hn|].
        rewrite bool_decide_eq_true_2 by reflexivity. reflexivity.
      * intros p. rewrite Hc, elem_of_filter_bool, andb_true_iff.
        intros (_ & _ & Hp). apply bool_decide_eq_true in Hp. congruence.
    + split.
      * rewrite Hr, elem_of_filter_bool, Ha. auto.
      * intros p. rewrite Hc, elem_of_filter_bool, Ha. intros [_ ?]. discriminate.
  - rewrite Hr, elem_of_filter_bool. intros [Hin _]. apply nodes_order. exact Hin.
  - intros p. rewrite Hc, elem_of_filter_bool, andb_true_iff.
    intros (Hin & Ha & Hp). apply bool_decide_eq_true in Hp.
    split; [apply nodes_order; exact Hin|].
    unfold is_attached, parent_of in *.
    destruct (nodes (buildCommentTree items) !! c) as [n|]; [|discriminate].
    apply has_parent_spec in Ha as (_ & _ & Hsome). congruence.
Qed.

(** X19. A node is a root exactly when the parent that it names is falsy,
    is the string [0], or is not the key of a node: a reply whose parent is
    not in the list comes up as a root.  It is a child of [p] exactly when
    it names [p], and [p] is a node, truthy and not [0].  The roots and the
    children of a node come in the order in which the list first brings
    them. *)
Theorem buildCommentTree_roots items c :
  let t := buildCommentTree items in
  (c ∈ roots t <->
   is_Some (nodes t !! c) /\
   (truthy (parent_of t c) = false \/ parent_of t c = VString "0" \/
    nodes t !! parent_of t c = None)) /\
  (forall p, c ∈ children_of (children t) p <->
     is_Some (nodes t !! c) /\ parent_of t c = p /\
     truthy p = true /\ p <> VString "0" /\ is_Some (nodes t !! p)) /\
  roots t `sublist_of` comment_order items /\
  (forall p, children_of (children t) p `sublist_of` comment_order items).
Proof.
  cbv zeta. destruct (buildCommentTree_closed items) as [Hr Hc].
  assert (Hatt : forall n, nodes (buildCommentTree items) !! c = Some n ->
            (is_attached (buildCommentTree items) c = true <->
             truthy (get_prop n "parent_CID") = true /\
             get_prop n "parent_CID" <> VString "0" /\
             is_Some (nodes (buildCommentTree items) !! get_prop n "parent_CID"))).
  { intros n Hn. unfold is_attached. rewrite Hn. apply has_parent_spec. }
  split; [|split; [|split]].
  - rewrite Hr, elem_of_filter_bool, <- nodes_order, negb_true_iff.
    split; intros [[n Hn] H]; (split; [eauto|]); unfold parent_of in *;
      rewrite Hn in *; specialize (Hatt n eq_refl).
    + destruct (truthy (get_prop n "parent_CID")) eqn:Ht; [|auto].
      destruct (decide (get_prop n "parent_CID" = VString "0")) as [|Hz]; [auto|].
      destruct (nodes (buildCommentTree items) !! get_prop n "parent_CID") eqn:Hp;
        [|auto].
      exfalso. assert (is_attached (buildCommentTree items) c = true)
        by (apply Hatt; eauto). congruence.
    + destruct (is_attached (buildCommentTree items) c) eqn:Ha; [|reflexivity].
      exfalso. destruct (proj1 Hatt eq_refl) as (Ht & Hz & [m Hm]).
      destruct H as [H | [H | H]]; congruence.
  - intros p. rewrite Hc, elem_of_filter_bool, <- nodes_order, andb_true_iff,
      bool_decide_eq_true.
    split.
    + intros ([n Hn] & Ha & Hp). split; [eauto|]. split; [exact Hp|].
      unfold parent_of in Hp. rewrite Hn in Hp. subst p.
      apply (Hatt n Hn). exact Ha.
    + intros ([n Hn] & Hp & Ht & Hz & Hsome). split; [eauto|]. split; [|exact Hp].
      unfold parent_of in Hp. rewrite Hn in Hp. subst p.
      apply (Hatt n Hn). auto.
  - rewrite Hr. apply filter_sublist.
  - intros p. rewrite Hc. apply filter_sublist.
Qed.

Lemma child_parent items c p :
  c ∈ children_of (children (buildCommentTree items)) p ->
  parent_of (buildCommentTree items) c = p /\
  is_attached (buildCommentTree items) c = true.
Proof.
  destruct (buildCommentTree_closed items) as [_ Hc].
  rewrite Hc, elem_of_filter_bool, andb_true_iff, bool_decide_eq_true. tauto.
Qed.

Lemma displayed_chain items c :
  displayed (buildCommentTree items) c ->
  exists k : nat,
    Nat.iter k (parent_of (buildCommentTree items)) c ∈ roots (buildCommentTree items).
Proof.
  induction 1 as [r Hr | p c _ [k Hk] Hc].
  - exists 0%nat. exact Hr.
  - exists (S k). apply child_parent in Hc as [Hp _].
    rewrite Nat.iter_succ_r, Hp. exact Hk.
Qed.

(** X20. A comment is shown only if the chain of the parents that the
    nodes name leads from it to a root.  A comment that names itself as its
    parent, and any comment on a cycle of parents, is a node of the tree
    but is not shown: nothing in [buildCommentTree] breaks the cycle. *)
Theorem displayed_needs_root items c :
  let t := buildCommentTree items in
  (displayed t c -> exists k : nat, Nat.iter k (parent_of t) c ∈ roots t) /\
  ((forall k : nat, is_attached t (Nat.iter k (parent_of t) c) = true) ->
   ~ displayed t c) /\
  (is_Some (nodes t !! c) -> parent_of t c = c -> c <> VString "0" ->
   ~ displayed t c).
Proof.
  cbv zeta. destruct (buildCommentTree_closed items) as [Hr _].
  assert (Hcycle : (forall k : nat,
             is_attached (buildCommentTree items)
               (Nat.iter k (parent_of (buildCommentTree items)) c) = true) ->
           ~ displayed (buildCommentTree items) c).
  { intros Hall Hd. destruct (displayed_chain items c Hd) as [k Hk].
    rewrite Hr in Hk. apply elem_of_filter_bool in Hk as [_ Hk].
    rewrite Hall in Hk. discriminate. }
  split; [apply displayed_chain|]. split; [exact Hcycle|].
  intros [n Hn] Hself Hz. apply Hcycle. intros k.
  assert (Hk : Nat.iter k (parent_of (buildCommentTree items)) c = c).
  { induction k as [|k IH]; [reflexivity|]. simpl. rewrite IH. exact Hself. }
  rewrite Hk. unfold is_attached. rewrite Hn. apply has_parent_spec.
  unfold parent_of in Hself. rewrite Hn in Hself. rewrite Hself.
  split; [|split; [exact Hz | eauto]].
  assert (Hc : is_Some (nodes (buildCommentTree items) !! c)) by eauto.
  rewrite nodes_order in Hc. destruct (collect_inv items) as (_ & _ & Hmem).
  apply Hmem in Hc. exact (proj1 Hc).
Qed.

End CommentTreeTheorems.

Section CommentIndex.

Implicit Types (items : list (option Obj)) (order : list value) (c : value).

Lemma index_fold_snoc order c :
  fold_left index_step (order ++ [c]) ∅
  = if String.eqb (ToString c) "__proto__" then fold_left index_step order ∅
    else <[ToString c := c]> (fold_left index_step order ∅).
Proof. rewrite fold_left_app. reflexivity. Qed.

Lemma index_fold_lookup order (str : string) c :
  fold_left index_step order ∅ !! str = Some c ->
  c ∈ order /\ ToString c = str /\ str <> "__proto__"%string.
Proof.
  induction order as [|x order IH] using rev_ind.
  - simpl. rewrite lookup_empty. discriminate.
  - rewrite index_fold_snoc.
    destruct (String.eqb_spec (ToString x) "__proto__") as [Hp|Hp].
    { intros Hl. destruct (IH Hl) as (Hin & Hs & Hne).
      split; [apply elem_of_app; left; exact Hin|]. split; assumption. }
    destruct (decide (ToString x = str)) as [<-|Hne].
    + rewrite lookup_insert_eq. intros [= <-]. split; [|split; [reflexivity | exact Hp]].
      apply elem_of_app. right. apply list_elem_of_singleton. reflexivity.
    + rewrite lookup_insert_ne by exact Hne. intros Hl.
      destruct (IH Hl) as (Hin & Hs & Hne'). split; [|split; assumption].
      apply elem_of_app. left. exact Hin.
Qed.

Lemma index_fold_found order c :
  c ∈ order -> ToString c <> "__proto__"%string ->
  exists c', fold_left index_step order ∅ !! ToString c = Some c' /\
             c' ∈ order /\ ToString c' = ToString c.
Proof.
  induction order as [|x order IH] using rev_ind; intros Hin Hkey.
  - apply elem_of_nil in Hin. destruct Hin.
  - rewrite index_fold_snoc.
    destruct (String.eqb_spec (ToString x) "__proto__") as [Hp|Hp].
    { apply elem_of_app in Hin as [Hin | Hin].
      - destruct (IH Hin Hkey) as (c' & Hl & Hin' & Hs). exists c'.
        split; [exact Hl|]. split; [|exact Hs]. apply elem_of_app. left. exact Hin'.
      - apply list_elem_of_singleton in Hin. subst x. contradiction. }
    destruct (decide (ToString x = ToString c)) as [Heq|Hne].
    + exists x. split; [rewrite <- Heq; apply lookup_insert_eq|].
      split; [|exact Heq]. apply elem_of_app. right.
      apply list_elem_of_singleton. reflexivity.
    + rewrite lookup_insert_ne by exact Hne.
      apply elem_of_app in Hin as [Hin | Hin].
      * destruct (IH Hin Hkey) as (c' & Hl & Hin' & Hs). exists c'.
        split; [exact Hl|]. split; [|exact Hs]. apply elem_of_app. left. exact Hin'.
      * apply list_elem_of_singleton in Hin. subst x. contradiction.
Qed.

(** X21. [commentNodeById] is keyed by the printed [CID]: what it has of
    its own under a string is a node whose [CID] prints as that string,
    and it has nothing under [__proto__], the assignment to which stores
    no property.  A node whose [CID] does not print as [__proto__] finds a
    node under its printed [CID], which prints the same; when no other
    node prints the same, as when every [CID] is a string, it finds
    itself. *)
Theorem commentNodeById_lookup items c :
  let t := buildCommentTree items in
  (forall str c', commentNodeById t !! str = Some c' ->
     is_Some (nodes t !! c') /\ ToString c' = str /\ str <> "__proto__"%string) /\
  (is_Some (nodes t !! c) -> ToString c <> "__proto__"%string ->
   exists c', commentNodeById t !! ToString c = Some c' /\
     is_Some (nodes t !! c') /\ ToString c' = ToString c) /\
  (is_Some (nodes t !! c) -> ToString c <> "__proto__"%string ->
   (forall c', is_Some (nodes t !! c') -> ToString c' = ToString c -> c' = c) ->
   commentNodeById t !! ToString c = Some c).
Proof.
  cbv zeta. destruct (buildCommentTree_fields items) as (_ & _ & _ & ->).
  split; [|split].
  - intros str c' Hl. destruct (index_fold_lookup _ _ _ Hl) as (Hin & Hs & Hne).
    split; [apply nodes_order; exact Hin|]. split; assumption.
  - intros Hn Hkey. apply nodes_order in Hn.
    destruct (index_fold_found _ _ Hn Hkey) as (c' & Hl & Hin & Hs).
    exists c'. split; [exact Hl|]. split; [apply nodes_order; exact Hin | exact Hs].
  - intros Hn Hkey Huniq. apply nodes_order in Hn.
    destruct (index_fold_found _ _ Hn Hkey) as (c' & Hl & Hin & Hs).
    rewrite Hl. f_equal. apply Huniq; [apply nodes_order; exact Hin | exact Hs].
Qed.

Lemma collect_step_other (st : gmap value Obj * list value) (raw : option Obj) c :
  (forall o, raw = Some o -> get_prop o "CID" <> c) ->
  fst (collect_step st raw) !! c = fst st !! c.
Proof.
  intros Hne. destruct st as [nodeMap order]. unfold collect_step.
  destruct raw as [o|]; [|reflexivity]. specialize (Hne o eq_refl).
  destruct (negb (truthy (get_prop o "CID"))); [reflexivity|].
  destruct (nodeMap !! get_prop o "CID"); simpl;
    rewrite lookup_insert_ne by exact Hne; reflexivity.
Qed.

Lemma collect_fold_other (l : list (option Obj)) (st : gmap value Obj * list value) c :
  (forall o, Some o ∈ l -> get_prop o "CID" <> c) ->
  fst (fold_left collect_step l st) !! c = fst st !! c.
Proof.
  revert st. induction l as [|x l IH]; intros st Hne; [reflexivity|].
  simpl. rewrite IH.
  - apply collect_step_other. intros o ->. apply Hne. left.
  - intros o Ho. apply Hne. right. exact Ho.
Qed.

(** X22. When a comment comes several times in the list, the fields of
    its last copy prevail in the node, and a field that the last copy does
    not have is kept from the node built so far. *)
Theorem buildCommentTree_last_copy (l1 l2 : list (option Obj)) (raw : Obj) :
  truthy (get_prop raw "CID") = true ->
  (forall o, Some o ∈ l2 -> get_prop o "CID" <> get_prop raw "CID") ->
  exists n,
    nodes (buildCommentTree (l1 ++ Some raw :: l2)) !! get_prop raw "CID" = Some n /\
    (forall (k : string) v, k <> "children"%string -> raw !! k = Some v ->
       n !! k = Some v) /\
    (forall k : string, k <> "children"%string -> raw !! k = None ->
       n !! k = match nodes (buildCommentTree l1) !! get_prop raw "CID" with
                | Some n0 => n0 !! k
                | None => None
                end).
Proof.
  intros Ht Hlast.
  destruct (buildCommentTree_fields (l1 ++ Some raw :: l2)) as (-> & _).
  destruct (buildCommentTree_fields l1) as (-> & _).
  rewrite fold_left_app. simpl fold_left.
  rewrite (collect_fold_other l2 _ _ Hlast).
  destruct (fold_left collect_step l1 (∅, [])) as [nodeMap order]. simpl.
  rewrite Ht. simpl.
  destruct (nodeMap !! get_prop raw "CID") as [existing|] eqn:Hex; simpl;
    rewrite lookup_insert_eq; eexists; (split; [reflexivity|]); split.
  - intros k v Hk Hv. rewrite lookup_delete_ne by congruence.
    apply lookup_union_Some_l. exact Hv.
  - intros k Hk Hv. rewrite lookup_delete_ne by congruence.
    rewrite lookup_union_r by exact Hv. reflexivity.
  - intros k v Hk Hv. rewrite lookup_delete_ne by congruence. exact Hv.
  - intros k Hk Hv. rewrite lookup_delete_ne by congruence. exact Hv.
Qed.

End CommentIndex.

Section Timers.

Implicit Types (s : App) (h : Z) (k : TimerKind) (ts : list (Z * TimerKind)).

Lemma elem_of_clearTimer s h (t : Z * TimerKind) :
  t ∈ timers (clearTimer h s) <-> t ∈ timers s /\ fst t <> h.
Proof.
  unfold clearTimer. simpl. rewrite !list_elem_of_In, filter_In.
  destruct (Z.eqb_spec (fst t) h); simpl; intuition congruence.
Qed.

Lemma elem_of_setTimer s k (t : Z * TimerKind) :
  t ∈ timers (snd (setTimer k s)) <-> t ∈ timers s \/ t = (next_handle s, k).
Proof.
  unfold setTimer. simpl. rewrite elem_of_app, list_elem_of_singleton. reflexivity.
Qed.

Lemma NoDup_fst_kind ts h k1 k2 :
  NoDup (map fst ts) -> (h, k1) ∈ ts -> (h, k2) ∈ ts -> k1 = k2.
Proof.
  induction ts as [|[h' k'] ts IH]; simpl; intros Hnd H1 H2.
  - apply elem_of_nil in H1. destruct H1.
  - apply NoDup_cons in Hnd as [Hnot Hnd].
    apply elem_of_cons in H1 as [H1 | H1]; apply elem_of_cons in H2 as [H2 | H2].
    + congruence.
    + exfalso. apply Hnot. injection H1 as <- <-.
      apply list_elem_of_In, in_map_iff. exists (h, k2).
      split; [reflexivity | apply list_elem_of_In; exact H2].
    + exfalso. apply Hnot. injection H2 as <- <-.
      apply list_elem_of_In, in_map_iff. exists (h, k1).
      split; [reflexivity | apply list_elem_of_In; exact H1].
    + apply IH; assumption.
Qed.

Lemma NoDup_fst_filter (f : Z * TimerKind -> bool) ts :
  NoDup (map fst ts) -> NoDup (map fst (List.filter f ts)).
Proof.
  induction ts as [|t ts IH]; simpl; intros Hnd; [constructor|].
  apply NoDup_cons in Hnd as [Hnot Hnd]. destruct (f t); simpl; [|apply IH; exact Hnd].
  apply NoDup_cons. split; [|apply IH; exact Hnd].
  intros Hin. apply Hnot. apply list_elem_of_In, in_map_iff in Hin as (t' & Ht' & Hin).
  apply filter_In in Hin as [Hin _].
  apply list_elem_of_In, in_map_iff. exists t'. split; assumption.
Qed.

Lemma timer_kind_Some ts h k :
  timer_kind h ts = Some k -> (h, k) ∈ ts.
Proof.
  unfold timer_kind. destruct (List.find _ ts) as [[h' k']|] eqn:Hf; [|discriminate].
  simpl. intros [= ->]. apply find_some in Hf as [Hin Heq]. simpl in Heq.
  apply Z.eqb_eq in Heq. subst h'. apply list_elem_of_In. exact Hin.
Qed.

Lemma timer_kind_live ts h k :
  NoDup (map fst ts) -> (h, k) ∈ ts -> timer_kind h ts = Some k.
Proof.
  intros Hnd Hin. unfold timer_kind.
  destruct (List.find (fun t => fst t =? h) ts) as [[h' k']|] eqn:Hf.
  - simpl. f_equal. pose proof (timer_kind_Some ts h k') as Hk.
    unfold timer_kind in Hk. rewrite Hf in Hk. specialize (Hk eq_refl).
    exact (NoDup_fst_kind ts h k' k Hnd Hk Hin).
  - exfalso. apply list_elem_of_In in Hin.
    pose proof (find_none _ _ Hf _ Hin) as Hno. simpl in Hno.
    rewrite Z.eqb_refl in Hno. discriminate.
Qed.

(** Clearing a live timer: the timers of the other kinds stay. *)
Lemma clearTimer_inv s h k :
  timers_inv s -> (h, k) ∈ timers s ->
  0 < next_handle (clearTimer h s) /\
  (forall t, t ∈ timers (clearTimer h s) -> 0 < fst t < next_handle (clearTimer h s)) /\
  NoDup (map fst (timers (clearTimer h s))) /\
  (forall h' k', (h', k') ∈ timers (clearTimer h s)
     <-> (h', k') ∈ timers s /\ (h', k') <> (h, k)).
Proof.
  intros (Hpos & Hb & Hnd & _) Hin.
  split; [exact Hpos|]. split.
  { intros t Ht. apply elem_of_clearTimer in Ht as [Ht _]. apply Hb. exact Ht. }
  split; [apply NoDup_fst_filter; exact Hnd|].
  intros h' k'. rewrite elem_of_clearTimer. simpl. split.
  - intros [Hin' Hne]. split; [exact Hin' | congruence].
  - intros [Hin' Hne]. split; [exact Hin'|]. intros ->. apply Hne.
    f_equal. exact (NoDup_fst_kind _ _ _ _ Hnd Hin' Hin).
Qed.

Lemma drop_readerHideTimer_inv s :
  timers_inv s ->
  timers_inv (drop_readerHideTimer s) /\
  readerHideTimer (drop_readerHideTimer s) = None /\
  downloadTaskPoller (drop_readerHideTimer s) = downloadTaskPoller s /\
  showReaderControls (drop_readerHideTimer s) = showReaderControls s /\
  next_handle (drop_readerHideTimer s) = next_handle s /\
  (forall t, t ∈ timers (drop_readerHideTimer s) -> t ∈ timers s).
Proof.
  intros Hinv. pose proof Hinv as (Hpos & Hb & Hnd & Hhide & Hpoll).
  unfold drop_readerHideTimer. destruct (readerHideTimer s) as [h|] eqn:Hh.
  2:{ split; [exact Hinv|]. split; [exact Hh|].
      repeat (split; [reflexivity|]). intros t Ht. exact Ht. }
  assert (Hlive : (h, HideReaderUi) ∈ timers s) by (apply Hhide; reflexivity).
  pose proof (Hb _ Hlive) as Hh0. simpl in Hh0.
  destruct (Z.eqb_spec h 0) as [|_]; [lia|].
  destruct (clearTimer_inv s h HideReaderUi Hinv Hlive) as (Hpos' & Hb' & Hnd' & Hmem).
  split; [|repeat split; try reflexivity].
  - split; [exact Hpos'|]. split; [exact Hb'|]. split; [exact Hnd'|]. split.
    + intros h'. simpl. split; [|discriminate].
      intros Hin. apply Hmem in Hin as [Hin Hne].
      apply Hhide in Hin. congruence.
    + intros h'. simpl. rewrite <- Hpoll. split.
      * intros Hin. apply Hmem in Hin as [Hin _]. exact Hin.
      * intros Hin. apply Hmem. split; [exact Hin | discriminate].
  - intros t Ht. simpl in Ht. apply elem_of_clearTimer in Ht as [Ht _]. exact Ht.
Qed.

Lemma drop_downloadTaskPoller_inv s :
  timers_inv s ->
  timers_inv (drop_downloadTaskPoller s) /\
  downloadTaskPoller (drop_downloadTaskPoller s) = None /\
  readerHideTimer (drop_downloadTaskPoller s) = readerHideTimer s /\
  showReaderControls (drop_downloadTaskPoller s) = showReaderControls s /\
  next_handle (drop_downloadTaskPoller s) = next_handle s /\
  (forall t, t ∈ timers (drop_downloadTaskPoller s) -> t ∈ timers s).
Proof.
  intros Hinv. pose proof Hinv as (Hpos & Hb & Hnd & Hhide & Hpoll).
  unfold drop_downloadTaskPoller. destruct (downloadTaskPoller s) as [h|] eqn:Hh.
  2:{ split; [exact Hinv|]. split; [exact Hh|].
      repeat (split; [reflexivity|]). intros t Ht. exact Ht. }
  assert (Hlive : (h, PollDownloadTask) ∈ timers s) by (apply Hpoll; reflexivity).
  pose proof (Hb _ Hlive) as Hh0. simpl in Hh0.
  destruct (Z.eqb_spec h 0) as [|_]; [lia|].
  destruct (clearTimer_inv s h PollDownloadTask Hinv Hlive) as (Hpos' & Hb' & Hnd' & Hmem).
  split; [|repeat split; try reflexivity].
  - split; [exact Hpos'|]. split; [exact Hb'|]. split; [exact Hnd'|]. split.
    + intros h'. simpl. rewrite <- Hhide. split.
      * intros Hin. apply Hmem in Hin as [Hin _]. exact Hin.
      * intros Hin. apply Hmem. split; [exact Hin | discriminate].
    + intros h'. simpl. split; [|discriminate].
      intros Hin. apply Hmem in Hin as [Hin Hne].
      apply Hpoll in Hin. congruence.
  - intros t Ht. simpl in Ht. apply elem_of_clearTimer in Ht as [Ht _]. exact Ht.
Qed.

(** A new timer: the handle is fresh. *)
Lemma setTimer_inv s k :
  timers_inv s ->
  0 < next_handle (snd (setTimer k s)) /\
  (forall t, t ∈ timers (snd (setTimer k s)) ->
     0 < fst t < next_handle (snd (setTimer k s))) /\
  NoDup (map fst (timers (snd (setTimer k s)))) /\
  (forall h, (h, k) ∈ timers s -> h <> next_handle s).
Proof.
  intros (Hpos & Hb & Hnd & _). unfold setTimer. simpl.
  split; [lia|]. split; [|split].
  - intros t Ht. apply elem_of_app in Ht as [Ht | Ht].
    + specialize (Hb _ Ht). lia.
    + apply list_elem_of_singleton in Ht. subst t. simpl. lia.
  - rewrite map_app. simpl. apply NoDup_app. split; [exact Hnd|].
    split; [|apply NoDup_singleton].
    intros x Hx Hx'. apply list_elem_of_singleton in Hx'. subst x.
    apply list_elem_of_In, in_map_iff in Hx as (t & Ht & Hin).
    apply list_elem_of_In in Hin. specialize (Hb _ Hin). lia.
  - intros h Hin. specialize (Hb _ Hin). simpl in Hb. lia.
Qed.

Lemma setTimer_other_inv s k :
  k <> HideReaderUi -> k <> PollDownloadTask ->
  timers_inv s -> timers_inv (snd (setTimer k s)).
Proof.
  intros Hk1 Hk2 Hinv. destruct (setTimer_inv s k Hinv) as (Hpos' & Hb' & Hnd' & _).
  destruct Hinv as (_ & _ & _ & Hhide & Hpoll).
  split; [exact Hpos'|]. split; [exact Hb'|]. split; [exact Hnd'|]. split.
  - intros h. rewrite elem_of_setTimer. simpl. rewrite <- Hhide.
    split; [|tauto]. intros [Hin | Heq]; [exact Hin | congruence].
  - intros h. rewrite elem_of_setTimer. simpl. rewrite <- Hpoll.
    split; [|tauto]. intros [Hin | Heq]; [exact Hin | congruence].
Qed.

Lemma showToast_inv s msg : timers_inv s -> timers_inv (showToast msg s).
Proof.
  intros Hinv. unfold showToast.
  apply setTimer_other_inv; [discriminate | discriminate | exact Hinv].
Qed.

Lemma showReaderUiForAwhile_inv s :
  timers_inv s ->
  timers_inv (showReaderUiForAwhile s) /\
  showReaderControls (showReaderUiForAwhile s) = true /\
  readerHideTimer (showReaderUiForAwhile s) = Some (next_handle s).
Proof.
  intros Hinv. unfold showReaderUiForAwhile.
  assert (Hinv1 : timers_inv (set_showReaderControls true s)) by exact Hinv.
  destruct (drop_readerHideTimer_inv _ Hinv1) as (Hinv2 & Hnone & Hp & Hc & Hn & _).
  set (s2 := drop_readerHideTimer (set_showReaderControls true s)) in *.
  destruct (setTimer_inv s2 HideReaderUi Hinv2) as (Hpos' & Hb' & Hnd' & _).
  change (let '(h, s0) := setTimer HideReaderUi s2 in set_readerHideTimer (Some h) s0)
    with (set_readerHideTimer (Some (next_handle s2)) (snd (setTimer HideReaderUi s2))).
  destruct Hinv2 as (_ & _ & _ & Hhide & Hpoll).
  split; [|split; [exact Hc | simpl; f_equal; exact Hn]].
  split; [exact Hpos'|]. split; [exact Hb'|]. split; [exact Hnd'|]. split.
  - intros h. change (timers (set_readerHideTimer _ ?x)) with (timers x).
    rewrite elem_of_setTimer. simpl readerHideTimer. split.
    + intros [Hin | Heq]; [|congruence]. apply Hhide in Hin. congruence.
    + intros [= <-]. right. reflexivity.
  - intros h. change (timers (set_readerHideTimer _ ?x)) with (timers x).
    rewrite elem_of_setTimer.
    change (downloadTaskPoller (set_readerHideTimer _ ?x)) with (downloadTaskPoller x).
    change (downloadTaskPoller (snd (setTimer HideReaderUi s2)))
      with (downloadTaskPoller s2).
    rewrite <- Hpoll. split; [|tauto]. intros [Hin | Heq]; [exact Hin | congruence].
Qed.

Lemma hideReaderUi_inv s :
  timers_inv s ->
  timers_inv (hideReaderUi s) /\ readerHideTimer (hideReaderUi s) = None /\
  showReaderControls (hideReaderUi s) = false.
Proof.
  intros Hinv. unfold hideReaderUi.
  assert (Hinv1 : timers_inv (set_showReaderControls false s)) by exact Hinv.
  destruct (drop_readerHideTimer_inv _ Hinv1) as (Hinv2 & Hnone & _ & Hc & _).
  split; [exact Hinv2|]. split; [exact Hnone | exact Hc].
Qed.

Lemma startDownloadTaskPolling_inv s :
  timers_inv s ->
  timers_inv (startDownloadTaskPolling s) /\
  downloadTaskPoller (startDownloadTaskPolling s) = Some (next_handle s) /\
  readerHideTimer (startDownloadTaskPolling s) = readerHideTimer s /\
  showReaderControls (startDownloadTaskPolling s) = showReaderControls s.
Proof.
  intros Hinv. unfold startDownloadTaskPolling.
  destruct (drop_downloadTaskPoller_inv _ Hinv) as (Hinv2 & Hnone & Hr & Hc & Hn & _).
  set (s2 := drop_downloadTaskPoller s) in *.
  destruct (setTimer_inv s2 PollDownloadTask Hinv2) as (Hpos' & Hb' & Hnd' & _).
  change (let '(h, s0) := setTimer PollDownloadTask s2 in
          set_downloadTaskPoller (Some h) s0)
    with (set_downloadTaskPoller (Some (next_handle s2))
            (snd (setTimer PollDownloadTask s2))).
  destruct Hinv2 as (_ & _ & _ & Hhide & Hpoll).
  split; [|split; [simpl; f_equal; exact Hn | split; [exact Hr | exact Hc]]].
  split; [exact Hpos'|]. split; [exact Hb'|]. split; [exact Hnd'|]. split.
  - intros h. change (timers (set_downloadTaskPoller _ ?x)) with (timers x).
    rewrite elem_of_setTimer.
    change (readerHideTimer (set_downloadTaskPoller _ ?x)) with (readerHideTimer x).
    change (readerHideTimer (snd (setTimer PollDownloadTask s2)))
      with (readerHideTimer s2).
    rewrite <- Hhide. split; [|tauto]. intros [Hin | Heq]; [exact Hin | congruence].
  - intros h. change (timers (set_downloadTaskPoller _ ?x)) with (timers x).
    rewrite elem_of_setTimer. simpl downloadTaskPoller. split.
    + intros [Hin | Heq]; [|congruence]. apply Hpoll in Hin. congruence.
    + intros [= <-]. right. reflexivity.
Qed.

Lemma fire_inv s h :
  timers_inv s -> shown_inv s -> timers_inv (fire h s) /\ shown_inv (fire h s).
Proof.
  intros Hinv Hshown. unfold fire.
  destruct (timer_kind h (timers s)) as [k|] eqn:Hk; [|split; assumption].
  apply timer_kind_Some in Hk.
  destruct (clearTimer_inv s h k Hinv Hk) as (Hpos' & Hb' & Hnd' & Hmem).
  pose proof Hinv as (_ & _ & _ & Hhide & Hpoll).
  destruct k; simpl.
  - split; [|intros [x Hx]; discriminate].
    split; [exact Hpos'|]. split; [exact Hb'|]. split; [exact Hnd'|]. split.
    + intros h'. simpl. split; [|discriminate]. intros Hin.
      apply Hmem in Hin as [Hin Hne]. apply Hhide in Hin.
      apply Hhide in Hk. congruence.
    + intros h'. simpl. rewrite <- Hpoll. split.
      * intros Hin. apply Hmem in Hin as [Hin _]. exact Hin.
      * intros Hin. apply Hmem. split; [exact Hin | discriminate].
  - split; assumption.
  - split; [|exact Hshown].
    split; [exact Hpos'|]. split; [exact Hb'|]. split; [exact Hnd'|]. split.
    + intros h'. simpl. rewrite <- Hhide. split.
      * intros Hin. apply Hmem in Hin as [Hin _]. exact Hin.
      * intros Hin. apply Hmem. split; [exact Hin | discriminate].
    + intros h'. simpl. rewrite <- Hpoll. split.
      * intros Hin. apply Hmem in Hin as [Hin _]. exact Hin.
      * intros Hin. apply Hmem. split; [exact Hin | discriminate].
  - split; [|exact Hshown].
    split; [exact Hpos'|]. split; [exact Hb'|]. split; [exact Hnd'|]. split.
    + intros h'. simpl. rewrite <- Hhide. split.
      * intros Hin. apply Hmem in Hin as [Hin _]. exact Hin.
      * intros Hin. apply Hmem. split; [exact Hin | discriminate].
    + intros h'. simpl. rewrite <- Hpoll. split.
      * intros Hin. apply Hmem in Hin as [Hin _]. exact Hin.
      * intros Hin. apply Hmem. split; [exact Hin | discriminate].
Qed.

Lemma app_dispatch_inv s e :
  timers_inv s -> shown_inv s ->
  timers_inv (app_dispatch s e) /\ shown_inv (app_dispatch s e).
Proof.
  intros Hinv Hshown. destruct e; simpl.
  - split; [apply showToast_inv; exact Hinv | exact Hshown].
  - unfold handleReaderClick. destruct (showReaderSettings s); [split; assumption|].
    destruct (showReaderControls s).
    + destruct (hideReaderUi_inv s Hinv) as (H1 & H2 & _).
      split; [exact H1|]. intros [x Hx]. congruence.
    + destruct (showReaderUiForAwhile_inv s Hinv) as (H1 & H2 & _).
      split; [exact H1 | intros _; exact H2].
  - destruct (showReaderUiForAwhile_inv s Hinv) as (H1 & H2 & _).
    split; [exact H1 | intros _; exact H2].
  - destruct (hideReaderUi_inv s Hinv) as (H1 & H2 & _).
    split; [exact H1|]. intros [x Hx]. congruence.
  - unfold readChapter_begin.
    assert (Hinv1 : timers_inv (set_showReaderControls true s)) by exact Hinv.
    destruct (drop_readerHideTimer_inv _ Hinv1) as (Hinv2 & Hnone & _).
    split; [exact Hinv2|]. intros [x Hx]. congruence.
  - destruct (showReaderUiForAwhile_inv s Hinv) as (H1 & H2 & _).
    split; [exact H1 | intros _; exact H2].
  - unfold readChapter_failed. split; [|exact Hshown].
    apply setTimer_other_inv; [discriminate | discriminate |].
    apply showToast_inv. exact Hinv.
  - split; assumption.
  - split; assumption.
  - destruct (startDownloadTaskPolling_inv s Hinv) as (H1 & _ & H2 & H3).
    split; [exact H1|]. unfold shown_inv. rewrite H2, H3. exact Hshown.
  - unfold closeDownloadTaskModal.
    assert (Hinv1 : timers_inv (set_showDownloadTaskModal false s)) by exact Hinv.
    destruct (drop_downloadTaskPoller_inv _ Hinv1) as (H1 & _ & H2 & H3 & _).
    split; [exact H1|]. unfold shown_inv. rewrite H2, H3. exact Hshown.
  - unfold fetchDownloadTask_done.
    destruct (String.eqb status "completed" || String.eqb status "failed")%bool;
      [|split; assumption].
    destruct (drop_downloadTaskPoller_inv _ Hinv) as (H1 & _ & H2 & H3 & _).
    split; [exact H1|]. unfold shown_inv. rewrite H2, H3. exact Hshown.
  - unfold app_beforeUnmount.
    destruct (drop_downloadTaskPoller_inv _ Hinv) as (H1 & _ & H2 & H3 & _).
    split; [exact H1|]. unfold shown_inv. rewrite H2, H3. exact Hshown.
  - apply fire_inv; assumption.
Qed.

Lemma app_reachable_inv s : app_reachable s -> timers_inv s /\ shown_inv s.
Proof.
  intros [evs <-]. unfold app_run.
  induction evs as [|e evs IH] using rev_ind.
  - simpl. split.
    + split; [reflexivity|]. split.
      { intros t Ht. apply elem_of_nil in Ht. destruct Ht. }
      split; [constructor|]. split; intros h; simpl;
        (split; [intros Hin; apply elem_of_nil in Hin; destruct Hin | discriminate]).
    + intros [x Hx]. discriminate.
  - rewrite fold_left_app. simpl. destruct IH as [H1 H2].
    apply app_dispatch_inv; assumption.
Qed.

End Timers.
Section TimerTheorems.

Implicit Types (s : App) (h : Z) (k : TimerKind).

(** X23. The component never loses a timer of its own: in every state that
    the methods can reach, the timeout that hides the controls of the reader
    is live exactly when [readerHideTimer] holds it, and the interval that
    polls the download task exactly when [downloadTaskPoller] holds it, so
    there is at most one of each and a cleared or replaced one can no longer
    fire; the handles are all different and none is zero, which is what the
    truthiness tests on the handles rely on. *)
Theorem timers_owned s :
  app_reachable s ->
  (forall h, (h, HideReaderUi) ∈ timers s <-> readerHideTimer s = Some h) /\
  (forall h, (h, PollDownloadTask) ∈ timers s <-> downloadTaskPoller s = Some h) /\
  NoDup (map fst (timers s)) /\
  (forall t, t ∈ timers s -> fst t <> 0).
Proof.
  intros Hr. destruct (app_reachable_inv s Hr) as [(Hpos & Hb & Hnd & Hhide & Hpoll) _].
  split; [exact Hhide|]. split; [exact Hpoll|]. split; [exact Hnd|].
  intros t Ht. specialize (Hb t Ht). lia.
Qed.

(** X24. The controls of the reader are shown as long as the timeout that
    will hide them is pending.  When that timeout fires, the controls are
    hidden, [readerHideTimer] is [null] again and no such timeout is left;
    the firing of any other timer leaves the controls and their timeout as
    they are. *)
Theorem reader_controls_timer s :
  app_reachable s ->
  (is_Some (readerHideTimer s) -> showReaderControls s = true) /\
  (forall h, (h, HideReaderUi) ∈ timers s ->
     showReaderControls (fire h s) = false /\
     readerHideTimer (fire h s) = None /\
     forall h', (h', HideReaderUi) ∉ timers (fire h s)) /\
  (forall h, (h, HideReaderUi) ∉ timers s ->
     showReaderControls (fire h s) = showReaderControls s /\
     readerHideTimer (fire h s) = readerHideTimer s).
Proof.
  intros Hr. destruct (app_reachable_inv s Hr) as [Hinv Hshown].
  split; [exact Hshown|].
  pose proof Hinv as (_ & _ & Hnd & _). split.
  - intros h Hin. destruct (fire_inv s h Hinv Hshown) as [(_ & _ & _ & Hhide' & _) _].
    revert Hhide'. unfold fire. rewrite (timer_kind_live _ _ _ Hnd Hin). simpl.
    intros Hhide'. split; [reflexivity|]. split; [reflexivity|].
    intros h' Hin'. apply Hhide' in Hin'. discriminate.
  - intros h Hout. unfold fire.
    destruct (timer_kind h (timers s)) as [k|] eqn:Hk; [|split; reflexivity].
    apply timer_kind_Some in Hk. destruct k; [contradiction | ..]; split; reflexivity.
Qed.

(** X25. A tap on the reader first closes the settings when they are open,
    and then touches neither the controls nor their timeout.  With the
    settings closed it flips the controls, and a hide is pending afterwards
    exactly when the tap has shown them. *)
Theorem handleReaderClick_flips s :
  app_reachable s ->
  (showReaderSettings s = true ->
     showReaderSettings (handleReaderClick s) = false /\
     showReaderControls (handleReaderClick s) = showReaderControls s /\
     readerHideTimer (handleReaderClick s) = readerHideTimer s /\
     timers (handleReaderClick s) = timers s) /\
  (showReaderSettings s = false ->
     showReaderControls (handleReaderClick s) = negb (showReaderControls s) /\
     (is_Some (readerHideTimer (handleReaderClick s))
      <-> showReaderControls s = false) /\
     (forall h, (h, HideReaderUi) ∈ timers (handleReaderClick s)
        <-> showReaderControls s = false /\ h = next_handle s)).
Proof.
  intros Hr. destruct (app_reachable_inv s Hr) as [Hinv Hshown].
  unfold handleReaderClick. split.
  - intros ->. repeat split; reflexivity.
  - intros ->. destruct (showReaderControls s) eqn:Hc.
    + destruct (hideReaderUi_inv s Hinv) as ((_ & _ & _ & Hhide & _) & Hnone & Hfalse).
      split; [exact Hfalse|]. split.
      * rewrite Hnone. split; [intros [x Hx]; discriminate | discriminate].
      * intros h. rewrite Hhide, Hnone. split; [discriminate | intros [? _]; discriminate].
    + destruct (showReaderUiForAwhile_inv s Hinv)
        as ((_ & _ & _ & Hhide & _) & Htrue & Hsome).
      split; [exact Htrue|]. split.
      * rewrite Hsome. split; [reflexivity | eauto].
      * intros h. rewrite Hhide, Hsome. split.
        -- intros [= <-]. split; reflexivity.
        -- intros [_ ->]. reflexivity.
Qed.

(** X26. Closing the modal of the download task, unmounting the component,
    and an answer that reports the task completed or failed, each stop the
    polling: no interval is left.  Any other status keeps the state as it
    is.  [startDownloadTaskPolling] leaves exactly one interval, the new
    one, whatever was polling before. *)
Theorem polling_stops s :
  app_reachable s ->
  (forall s', s' = closeDownloadTaskModal s \/ s' = app_beforeUnmount s \/
              s' = fetchDownloadTask_done "completed" s \/
              s' = fetchDownloadTask_done "failed" s ->
     downloadTaskPoller s' = None /\
     forall h, (h, PollDownloadTask) ∉ timers s') /\
  (forall status : string,
     status <> "completed"%string -> status <> "failed"%string ->
     fetchDownloadTask_done status s = s) /\
  (downloadTaskPoller (startDownloadTaskPolling s) = Some (next_handle s) /\
   forall h, (h, PollDownloadTask) ∈ timers (startDownloadTaskPolling s)
     <-> h = next_handle s).
Proof.
  intros Hr. destruct (app_reachable_inv s Hr) as [Hinv _].
  assert (Hdrop : forall s0, timers_inv s0 ->
            downloadTaskPoller (drop_downloadTaskPoller s0) = None /\
            forall h, (h, PollDownloadTask) ∉ timers (drop_downloadTaskPoller s0)).
  { intros s0 H0. destruct (drop_downloadTaskPoller_inv s0 H0)
      as ((_ & _ & _ & _ & Hpoll) & Hnone & _).
    split; [exact Hnone|]. intros h Hin. apply Hpoll in Hin. congruence. }
  split; [|split].
  - intros s' [-> | [-> | [-> | ->]]].
    + apply (Hdrop (set_showDownloadTaskModal false s)). exact Hinv.
    + apply Hdrop. exact Hinv.
    + apply Hdrop. exact Hinv.
    + apply Hdrop. exact Hinv.
  - intros status H1 H2. unfold fetchDownloadTask_done.
    destruct (String.eqb_spec status "completed"); [contradiction|].
    destruct (String.eqb_spec status "failed"); [contradiction|]. reflexivity.
  - destruct (startDownloadTaskPolling_inv s Hinv)
      as ((_ & _ & _ & _ & Hpoll) & Hsome & _).
    split; [exact Hsome|]. intros h. rewrite Hpoll, Hsome. split; congruence.
Qed.

(** X27. [showToast] never cancels the timeout of an earlier toast: when
    that one fires, it empties the message of the newer toast before its
    own three seconds are over, and the timeout of the newer toast is still
    to come.  The timers of the other kinds leave the message alone. *)
Theorem toast_cleared_by_older_timer s msg h k :
  app_reachable s ->
  (h, k) ∈ timers s ->
  globalMsg (showToast msg s) = msg /\
  globalMsg (fire h (showToast msg s))
    = (if kind_eqb k ClearToast then EmptyString else msg) /\
  (next_handle s, ClearToast) ∈ timers (fire h (showToast msg s)).
Proof.
  intros Hr Hin. destruct (app_reachable_inv s Hr) as [Hinv _].
  pose proof (showToast_inv s msg Hinv) as (_ & _ & Hnd' & _).
  pose proof Hinv as (_ & Hb & _).
  assert (Hin' : (h, k) ∈ timers (showToast msg s)).
  { unfold showToast. apply elem_of_setTimer. left. exact Hin. }
  assert (Hnew : (next_handle s, ClearToast) ∈ timers (showToast msg s)).
  { unfold showToast. apply elem_of_setTimer. right. reflexivity. }
  split; [reflexivity|].
  unfold fire. rewrite (timer_kind_live _ _ _ Hnd' Hin').
  assert (Hkeep : (next_handle s, ClearToast) ∈ timers (clearTimer h (showToast msg s))).
  { apply elem_of_clearTimer. split; [exact Hnew|]. simpl.
    specialize (Hb _ Hin). simpl in Hb. lia. }
  destruct k; simpl; (split; [reflexivity|]); first [exact Hkeep | exact Hnew].
Qed.

End TimerTheorems.

Lemma sample_app_reachable : app_reachable sample_app.
Proof. eexists. reflexivity. Qed.

Lemma timers_owned_witness :
  (forall h, (h, HideReaderUi) ∈ timers sample_app <-> readerHideTimer sample_app = Some h) /\
  (forall h, (h, PollDownloadTask) ∈ timers sample_app
     <-> downloadTaskPoller sample_app = Some h) /\
  NoDup (map fst (timers sample_app)) /\
  (forall t, t ∈ timers sample_app -> fst t <> 0).
Proof. exact (timers_owned sample_app sample_app_reachable). Defined.

Lemma reader_controls_timer_witness :
  (1, HideReaderUi) ∈ timers sample_app /\
  showReaderControls (fire 1 sample_app) = false /\
  readerHideTimer (fire 1 sample_app) = None.
Proof.
  assert (Hin : (1, HideReaderUi) ∈ timers sample_app) by (left).
  split; [exact Hin|].
  destruct (reader_controls_timer sample_app sample_app_reachable) as (_ & Hfire & _).
  destruct (Hfire 1 Hin) as (H1 & H2 & _). split; [exact H1 | exact H2].
Defined.

Lemma handleReaderClick_flips_witness :
  showReaderSettings sample_app = false /\
  showReaderControls (handleReaderClick sample_app)
    = negb (showReaderControls sample_app).
Proof.
  split; [reflexivity|].
  destruct (handleReaderClick_flips sample_app sample_app_reachable) as [_ Hclosed].
  destruct (Hclosed eq_refl) as [H _]. exact H.
Defined.

Lemma polling_stops_witness :
  downloadTaskPoller sample_app = Some 3 /\
  downloadTaskPoller (closeDownloadTaskModal sample_app) = None /\
  downloadTaskPoller (startDownloadTaskPolling sample_app) = Some 4.
Proof.
  split; [reflexivity|].
  destruct (polling_stops sample_app sample_app_reachable) as (Hstop & _ & Hstart & _).
  split; [|exact Hstart].
  destruct (Hstop (closeDownloadTaskModal sample_app)) as [H _];
    [left; reflexivity | exact H].
Defined.

Lemma toast_cleared_by_older_timer_witness :
  (2, ClearToast) ∈ timers sample_app /\
  globalMsg (fire 2 (showToast "Liked" sample_app)) = EmptyString /\
  (4, ClearToast) ∈ timers (fire 2 (showToast "Liked" sample_app)).
Proof.
  assert (Hin : (2, ClearToast) ∈ timers sample_app) by (right; left).
  split; [exact Hin|].
  destruct (toast_cleared_by_older_timer sample_app "Liked" 2 ClearToast
              sample_app_reachable Hin) as (_ & H1 & H2).
  split; [exact H1 | exact H2].
Defined.

Section History.

Implicit Types (readingHistory : gmap string HistoryEntry) (album : Album) (d : Dialog).

Lemma history_get_insert readingHistory (key : string) (e : HistoryEntry) (id : value) :
  history_get (<[key := e]> readingHistory) id
  = if String.eqb (ToString id) key then Own e else history_get readingHistory id.
Proof.
  unfold history_get. destruct (String.eqb_spec (ToString id) key) as [->|Hne].
  - rewrite lookup_insert_eq. reflexivity.
  - rewrite lookup_insert_ne by congruence. reflexivity.
Qed.

(** X28. [readChapter] writes the chapter into the history under the
    printed id of the selected album (unless that is [__proto__]): from
    then on the album offers to continue, and [startReading] resumes at
    that very chapter, through any id that prints the same, a number or its
    numeral alike; what is found under every other id stays as it was. *)
Theorem readChapter_history_resume album (photoId title : value) (now : Z) readingHistory :
  ToString (album_id album) <> "__proto__"%string ->
  let history := readChapter_history (Some album) photoId title now readingHistory in
  (forall albumId, ToString albumId = ToString (album_id album) ->
     history_get history albumId
       = Own {| h_photo_id := photoId; h_title := title;
                h_album_title := album_title album; h_timestamp := now |} /\
     getReadingButtonText history albumId = "Continue Reading"%string /\
     getHistoryText history albumId = ("Last read: " ++ ToString title)%string) /\
  startReading history album = ReadChapter photoId title /\
  (forall albumId, ToString albumId <> ToString (album_id album) ->
     history_get history albumId = history_get readingHistory albumId).
Proof.
  intros Hkey. cbv zeta. unfold readChapter_history.
  destruct (String.eqb_spec (ToString (album_id album)) "__proto__") as [|_];
    [contradiction|].
  split; [|split].
  - intros albumId Heq. unfold getReadingButtonText, getHistoryText.
    rewrite history_get_insert, Heq, String.eqb_refl. repeat split; reflexivity.
  - unfold startReading. rewrite history_get_insert, String.eqb_refl. reflexivity.
  - intros albumId Hne. rewrite history_get_insert.
    destruct (String.eqb_spec (ToString albumId) (ToString (album_id album)));
      [contradiction | reflexivity].
Qed.

Lemma hd_insert_sorted {A : Type} (cmp : A -> A -> Z) (x y d0 : A) (l : list A) :
  hd d0 (insert_sorted cmp x (y :: l)) = if cmp x y <=? 0 then x else y.
Proof. simpl. destruct (cmp x y <=? 0); reflexivity. Qed.

Lemma Array_sort_nonempty {A : Type} (cmp : A -> A -> Z) (x : A) (l : list A) :
  exists y l', Array_sort cmp (x :: l) = y :: l'.
Proof.
  unfold Array_sort. simpl. destruct (foldr (insert_sorted cmp) [] l) as [|y l'].
  - exists x, []. reflexivity.
  - simpl. destruct (cmp x y <=? 0); eauto.
Qed.

(** The head of the sorted episodes: the first episode of the least id. *)
Lemma Array_sort_first (ep0 : Episode) (eps : list Episode) :
  (forall ep, ep ∈ ep0 :: eps -> parseInt (ep_id ep) <> NaN) ->
  exists (k : nat) (first : Episode) (z : Z),
    (ep0 :: eps) !! k = Some first /\
    hd ep0 (Array_sort compare_ids (ep0 :: eps)) = first /\
    parseInt (ep_id first) = Int z /\
    (forall ep z', ep ∈ ep0 :: eps -> parseInt (ep_id ep) = Int z' -> z <= z') /\
    (forall (j : nat) ep z', (j < k)%nat -> (ep0 :: eps) !! j = Some ep ->
       parseInt (ep_id ep) = Int z' -> z < z').
Proof.
  revert ep0. induction eps as [|ep1 eps IH]; intros ep0 Hall.
  - destruct (parseInt (ep_id ep0)) as [|z0] eqn:Hz0.
    { exfalso. apply (Hall ep0); [left | exact Hz0]. }
    exists 0%nat, ep0, z0. split; [reflexivity|]. split; [reflexivity|].
    split; [exact Hz0|]. split.
    + intros ep z' Hin Hz. apply list_elem_of_singleton in Hin. subst ep.
      rewrite Hz0 in Hz. injection Hz as <-. lia.
    + intros j ep z' Hj. lia.
  - destruct (IH ep1) as (k & first & z & Hk & Hhd & Hz & Hmin & Hbefore).
    { intros ep Hin. apply Hall. right. exact Hin. }
    destruct (parseInt (ep_id ep0)) as [|z0] eqn:Hz0.
    { exfalso. apply (Hall ep0); [left | exact Hz0]. }
    destruct (Array_sort_nonempty compare_ids ep1 eps) as (y & l' & Hsort).
    rewrite Hsort in Hhd. simpl in Hhd. subst y.
    change (Array_sort compare_ids (ep0 :: ep1 :: eps))
      with (insert_sorted compare_ids ep0 (Array_sort compare_ids (ep1 :: eps))).
    rewrite Hsort, hd_insert_sorted. unfold compare_ids. rewrite Hz0, Hz.
    destruct (Z.leb_spec (z0 - z) 0) as [Hle | Hgt].
    + exists 0%nat, ep0, z0. split; [reflexivity|]. split; [reflexivity|].
      split; [exact Hz0|]. split.
      * intros ep z' Hin Hz'. apply elem_of_cons in Hin as [-> | Hin].
        -- rewrite Hz0 in Hz'. injection Hz' as <-. lia.
        -- specialize (Hmin ep z' Hin Hz'). lia.
      * intros j ep z' Hj. lia.
    + exists (S k), first, z. split; [exact Hk|]. split; [reflexivity|].
      split; [exact Hz|]. split.
      * intros ep z' Hin Hz'. apply elem_of_cons in Hin as [-> | Hin].
        -- rewrite Hz0 in Hz'. injection Hz' as <-. lia.
        -- exact (Hmin ep z' Hin Hz').
      * intros j ep z' Hj Hl Hz'. destruct j as [|j].
        -- simpl in Hl. injection Hl as <-. rewrite Hz0 in Hz'.
           injection Hz' as <-. lia.
        -- simpl in Hl. apply (Hbefore j ep z'); [lia | exact Hl | exact Hz'].
Qed.

(** The comparator is constantly zero when no id parses: the order stays. *)
Lemma Array_sort_unparsed (ep0 : Episode) (eps : list Episode) :
  (forall ep, ep ∈ ep0 :: eps -> parseInt (ep_id ep) = NaN) ->
  hd ep0 (Array_sort compare_ids (ep0 :: eps)) = ep0.
Proof.
  intros Hall. destruct eps as [|ep1 eps]; [reflexivity|].
  destruct (Array_sort_nonempty compare_ids ep1 eps) as (y & l' & Hsort).
  change (Array_sort compare_ids (ep0 :: ep1 :: eps))
    with (insert_sorted compare_ids ep0 (Array_sort compare_ids (ep1 :: eps))).
  rewrite Hsort, hd_insert_sorted. unfold compare_ids.
  rewrite (Hall ep0) by left. reflexivity.
Qed.

(** X29. For an album without history, [startReading] opens, when every
    episode id parses, the episode of the least parsed id, and among equal
    ones the first of the list; when no id parses, the first episode of the
    list; and without episodes it only shows a toast.  (With some ids that
    parse and some that do not the comparator is not consistent.) *)
Theorem startReading_first readingHistory album :
  history_get readingHistory (album_id album) = Absent ->
  (forall ep0 eps, episode_list album = Some (ep0 :: eps) ->
     (forall ep, ep ∈ ep0 :: eps -> parseInt (ep_id ep) <> NaN) ->
     exists (k : nat) (first : Episode) (z : Z),
       (ep0 :: eps) !! k = Some first /\
       startReading readingHistory album = ReadChapter (ep_id first) (ep_title first) /\
       parseInt (ep_id first) = Int z /\
       (forall ep z', ep ∈ ep0 :: eps -> parseInt (ep_id ep) = Int z' -> z <= z') /\
       (forall (j : nat) ep z', (j < k)%nat -> (ep0 :: eps) !! j = Some ep ->
          parseInt (ep_id ep) = Int z' -> z < z')) /\
  (forall ep0 eps, episode_list album = Some (ep0 :: eps) ->
     (forall ep, ep ∈ ep0 :: eps -> parseInt (ep_id ep) = NaN) ->
     startReading readingHistory album = ReadChapter (ep_id ep0) (ep_title ep0)) /\
  (episode_list album = None \/ episode_list album = Some [] ->
     startReading readingHistory album = ShowToast "No chapters found" "error").
Proof.
  intros Habs. unfold startReading. rewrite Habs. cbn [slot_truthy].
  split; [|split].
  - intros ep0 eps -> Hall. cbv beta iota zeta.
    destruct (Array_sort_first ep0 eps Hall) as (k & first & z & Hk & Hhd & Hz & H1 & H2).
    exists k, first, z. rewrite Hhd. repeat split; assumption.
  - intros ep0 eps -> Hall. cbv beta iota zeta.
    rewrite (Array_sort_unparsed ep0 eps Hall). reflexivity.
  - intros [-> | ->]; reflexivity.
Qed.

(** X30. The confirmation dialog runs what was asked last, once, and only
    on a yes.  After [removeHistoryItem] a yes deletes the entry of the
    printed id and no other, so that the album offers to start again
    (unless its id prints as a member of [Object.prototype]); after
    [clearHistory] a yes empties the history; a no leaves the history as it
    is.  Every answer closes the dialog and forgets the callback, so a
    second answer does nothing, and a request that is replaced before the
    answer never runs. *)
Theorem handleConfirm_protocol d (aid : value) :
  (let d' := fst (handleConfirm true (removeHistoryItem aid d)) in
   readingHistory d' = delete (ToString aid) (readingHistory d) /\
   (forall albumId, ToString albumId <> ToString aid ->
      history_get (readingHistory d') albumId = history_get (readingHistory d) albumId) /\
   (existsb (String.eqb (ToString aid)) object_prototype_keys = false ->
      history_get (readingHistory d') aid = Absent /\
      getReadingButtonText (readingHistory d') aid = "Start Reading"%string)) /\
  readingHistory (fst (handleConfirm true (clearHistory d))) = ∅ /\
  (forall title message callback,
     readingHistory (fst (handleConfirm false (askConfirm title message callback d)))
       = readingHistory d) /\
  (forall result,
     let d' := fst (handleConfirm result d) in
     showConfirmModal d' = false /\ confirmCallback d' = None /\
     forall result', handleConfirm result' d' = (d', None)) /\
  (forall t1 m1 c1 t2 m2 c2 result,
     handleConfirm result (askConfirm t2 m2 c2 (askConfirm t1 m1 c1 d))
       = handleConfirm result (askConfirm t2 m2 c2 d)).
Proof.
  split; [|split; [|split; [|split]]].
  - cbv zeta.
    change (readingHistory (fst (handleConfirm true (removeHistoryItem aid d))))
      with (delete (ToString aid) (readingHistory d)).
    split; [reflexivity|]. split.
    + intros albumId Hne. unfold history_get.
      rewrite lookup_delete_ne by congruence. reflexivity.
    + intros Hown. unfold getReadingButtonText, history_get.
      rewrite lookup_delete_eq, Hown. split; reflexivity.
  - reflexivity.
  - reflexivity.
  - intros result. cbv zeta. simpl. split; [reflexivity|]. split; [reflexivity|].
    intros result'. unfold handleConfirm. simpl. destruct result'; reflexivity.
  - reflexivity.
Qed.

End History.

Lemma readChapter_history_resume_witness :
  startReading
    (readChapter_history (Some sample_album) (VString "350236") (VString "2") 0 ∅)
    sample_album
  = ReadChapter (VString "350236") (VString "2").
Proof.
  assert (Hkey : ToString (album_id sample_album) <> "__proto__"%string)
    by (vm_compute; discriminate).
  destruct (readChapter_history_resume sample_album (VString "350236") (VString "2")
              0 ∅ Hkey) as (_ & H & _).
  exact H.
Defined.

Lemma startReading_first_witness :
  exists (k : nat) (first : Episode) (z : Z),
    default [] (episode_list sample_album) !! k = Some first /\
    startReading ∅ sample_album = ReadChapter (ep_id first) (ep_title first) /\
    parseInt (ep_id first) = Int z /\
    (forall ep z', ep ∈ default [] (episode_list sample_album) ->
       parseInt (ep_id ep) = Int z' -> z <= z').
Proof.
  assert (Habs : history_get ∅ (album_id sample_album) = Absent) by reflexivity.
  destruct (startReading_first ∅ sample_album Habs) as (Hmin & _).
  destruct (Hmin _ _ eq_refl) as (k & first & z & Hk & Hs & Hz & Hle & _).
  { intros ep Hin. repeat (apply elem_of_cons in Hin as [-> | Hin]);
      [vm_compute; discriminate .. | apply elem_of_nil in Hin; destruct Hin]. }
  exists k, first, z. split; [exact Hk|]. split; [exact Hs|]. split; [exact Hz | exact Hle].
Defined.

Lemma handleConfirm_protocol_witness :
  history_get (readingHistory sample_dialog) (VString "350234") <> Absent /\
  getReadingButtonText
    (readingHistory
       (fst (handleConfirm true (removeHistoryItem (VString "350234") sample_dialog))))
    (VString "350234") = "Start Reading"%string.
Proof.
  split; [vm_compute; discriminate|].
  destruct (handleConfirm_protocol sample_dialog (VString "350234")) as ((_ & _ & H) & _).
  destruct (H eq_refl) as [_ H']. exact H'.
Defined.

Lemma toggleFavorite_count_witness :
  strict_eq (album_id sample_album) (album_id sample_album) = true /\
  fav_count (album_id sample_album) (toggleFavorite sample_album []) = 1.
Proof.
  split; [reflexivity|].
  destruct (toggleFavorite_count sample_album [] eq_refl) as [H _]. exact H.
Defined.

Lemma toggleFavorite_twice_witness :
  isFavorite (album_id sample_album) [] = false /\
  toggleFavorite sample_album (toggleFavorite sample_album []) = [].
Proof.
  split; [reflexivity|].
  exact (toggleFavorite_twice sample_album [] eq_refl eq_refl).
Defined.

Lemma handleChapterClick_toggle_witness :
  isSelected (ep_id sample_episode) (fst (handleChapterClick true sample_episode []))
  = true /\
  isSelected (ep_id sample_episode)
    (fst (handleChapterClick true sample_episode
            [ep_id sample_episode; ep_id sample_episode]))
  = true.
Proof.
  destruct (handleChapterClick_toggle sample_episode [] eq_refl) as (_ & _ & Hflip & _).
  destruct (handleChapterClick_toggle sample_episode
              [ep_id sample_episode; ep_id sample_episode] eq_refl)
    as (_ & _ & _ & Hdup & _).
  split; [apply Hflip; vm_compute; discriminate | apply Hdup; reflexivity].
Defined.

Lemma loadImage_sliceCount_props_witness :
  exists base ws,
    split "." "foo.bar.jpg" = base :: ws /\
    loadImage_sliceCount stub_a
      (set_props "u4" (VString "500000") VUndefined "foo.bar.jpg" sample_instance)
    = getSegmentationNum stub_a (VString "500000") VUndefined (VString base).
Proof.
  exact (loadImage_sliceCount_props stub_a
           (set_props "u4" (VString "500000") VUndefined "foo.bar.jpg" sample_instance)
           (conj eq_refl eq_refl) I).
Defined.

Lemma selectAll_all_or_none_witness :
  selectAll (Some sample_single) [] = [VNumber (Int 350235)] /\
  selectAll (Some sample_single) [VNumber (Int 350235)] = [].
Proof.
  destruct (selectAll_all_or_none sample_single [sample_episode] [] eq_refl)
    as (_ & Hall & _).
  destruct (selectAll_all_or_none sample_single [sample_episode]
              [VNumber (Int 350235)] eq_refl) as (Hnone & _).
  split.
  - destruct Hall as [H _]; [discriminate | exact H].
  - apply Hnone. reflexivity.
Defined.

Lemma toggleSelectionMode_selection_witness :
  snd (toggleSelectionMode false (Some sample_single)) = [VString "350235"] /\
  isSelected (ep_id sample_episode) (snd (toggleSelectionMode false (Some sample_single)))
  = false.
Proof.
  destruct (toggleSelectionMode_selection false (Some sample_single)) as (_ & _ & H & _).
  destruct (H sample_single sample_episode eq_refl eq_refl eq_refl eq_refl) as [Hsel Hiff].
  split; [exact Hsel|].
  destruct (isSelected (ep_id sample_episode)
              (snd (toggleSelectionMode false (Some sample_single)))); [|reflexivity].
  destruct (proj1 Hiff eq_refl) as [str Hstr]. discriminate Hstr.
Defined.


Lemma reader_navigation_witness :
  canReadPrevChapter (Some sample_album) (Some sample_chapter) = true /\
  readPrevChapter (Some sample_album) (Some sample_chapter)
  = episode_at (Some sample_album) 0.
Proof.
  split; [reflexivity|].
  destruct (reader_navigation (Some sample_album) (Some sample_chapter))
    as (_ & _ & _ & H & _).
  exact (H eq_refl).
Defined.

Lemma comment_pages_bounds_witness :
  parseInt (or_else (VString "45") (VNumber (Int 0))) = Int 45 /\
  comment_total (VString "45") 20 = 45 /\
  45 <= 20 * comment_totalPages (VString "45").
Proof.
  split; [reflexivity|].
  destruct (comment_pages_bounds (VString "45") 20) as (_ & H & _).
  destruct (H 45 eq_refl (conj eq_refl eq_refl)) as (H1 & H2 & _).
  split; [exact H1 | exact H2].
Defined.

Lemma sample_comment_listed : sample_comment "5" "5" ∈ sample_comments.
Proof. do 5 right. left. Qed.

Lemma buildCommentTree_nodes_witness :
  is_Some (nodes (buildCommentTree sample_comments) !! VString "5").
Proof.
  apply (buildCommentTree_nodes sample_comments (VString "5")).
  split; [reflexivity|]. eexists. split; [exact sample_comment_listed | reflexivity].
Defined.

Lemma buildCommentTree_placement_witness :
  is_Some (nodes (buildCommentTree sample_comments) !! VString "3") /\
  NoDup (roots (buildCommentTree sample_comments)) /\
  (forall p, VString "3" ∈ children_of (children (buildCommentTree sample_comments)) p ->
     is_Some (nodes (buildCommentTree sample_comments) !! p)).
Proof.
  destruct (buildCommentTree_placement sample_comments (VString "3"))
    as (Hnd & _ & _ & _ & Hch).
  split; [eexists; vm_compute; reflexivity|]. split; [exact Hnd|].
  intros p Hp. destruct (Hch p Hp) as [_ H]. exact H.
Defined.

Lemma buildCommentTree_roots_witness :
  VString "4" ∈ roots (buildCommentTree sample_comments).
Proof.
  destruct (buildCommentTree_roots sample_comments (VString "4")) as (H & _).
  apply H. split; [eexists; vm_compute; reflexivity|].
  right. right. vm_compute. reflexivity.
Defined.

Lemma displayed_needs_root_witness :
  is_Some (nodes (buildCommentTree sample_comments) !! VString "5") /\
  ~ displayed (buildCommentTree sample_comments) (VString "5").
Proof.
  assert (Hn : is_Some (nodes (buildCommentTree sample_comments) !! VString "5"))
    by (eexists; vm_compute; reflexivity).
  split; [exact Hn|].
  destruct (displayed_needs_root sample_comments (VString "5")) as (_ & _ & H).
  apply H; [exact Hn | vm_compute; reflexivity | discriminate].
Defined.

Lemma commentNodeById_lookup_witness :
  commentNodeById (buildCommentTree sample_comments) !! "3"%string = Some (VString "3").
Proof.
  destruct (commentNodeById_lookup sample_comments (VString "3")) as (_ & Hfound & _).
  destruct Hfound as (c' & Hl & _ & Hs);
    [eexists; vm_compute; reflexivity | discriminate |].
  pose proof Hl as Hl'. vm_compute in Hl'. injection Hl' as <-. exact Hl.
Defined.

Lemma buildCommentTree_last_copy_witness :
  exists n,
    nodes (buildCommentTree ([sample_comment "1" "0"] ++ Some sample_raw :: []))
      !! VString "1" = Some n /\
    n !! "likes"%string = Some (VNumber (Int 3)) /\
    n !! "parent_CID"%string = Some (VString "0").
Proof.
  destruct (buildCommentTree_last_copy [sample_comment "1" "0"] [] sample_raw eq_refl)
    as (n & Hn & Hnew & Hold).
  { intros o Ho. apply elem_of_nil in Ho. destruct Ho. }
  exists n. split; [exact Hn|]. split.
  - apply Hnew; [discriminate | reflexivity].
  - rewrite Hold; [vm_compute; reflexivity | discriminate | reflexivity].
Defined.
